(** * scheduler_service: cron evaluation, job repository, scheduler and cache

    A shallow embedding of the back end of the job scheduler
    (models/Job.js, services/schedulerService.js, services/cacheService.js,
    controllers/jobController.js) and the properties its specification
    states about it.

    Conventions of the embedding.
    - A JavaScript [Date] is its time value: milliseconds since the epoch,
      an integer (type [Z]); an Invalid Date (time value NaN) is [None].
      Time values are unbounded integers (the TimeClip range of
      +-8.64e15 ms is not modelled).
    - The local-time accessors of [Date] ([getMinutes], [setHours], ...)
      are taken in a process whose time zone is UTC, so that local time
      fields are the UTC fields of the time value.
    - Integers produced by [parseInt] and the arithmetic on them are exact
      (all values met on the paths of interest are far below 2^53).
    - Strings are sequences of 8-bit code units. *)

From Stdlib Require Import ZArith Lia Bool Strings.Ascii Strings.String.
From Stdlib Require Import Floats.SpecFloat Sorting.Sorted.
From stdpp Require Import gmap strings list fin_maps pretty.

Local Open Scope string_scope.
Local Open Scope Z_scope.

(* ===================================================================== *)
(** * Part I: definitions                                                 *)
(* ===================================================================== *)

(** ** JavaScript string primitives used by the source *)

(** [s.split(" ")]: the fields between single spaces; never empty. *)
Fixpoint split (s : string) : list string :=
  match s with
  | EmptyString => [EmptyString]
  | String c s' =>
      if Ascii.eqb c " "%char then EmptyString :: split s'
      else match split s' with
           | [] => [String c EmptyString]
           | f :: fs => String c f :: fs
           end
  end.

(** A string without a space: a field of [split]. *)
Fixpoint no_space (s : string) : bool :=
  match s with
  | EmptyString => true
  | String c s' => negb (Ascii.eqb c " ") && no_space s'
  end.

(** [s.startsWith(p)] *)
Fixpoint startsWith (s p : string) {struct p} : bool :=
  match p with
  | EmptyString => true
  | String b p' =>
      match s with
      | EmptyString => false
      | String a s' => Ascii.eqb a b && startsWith s' p'
      end
  end.

(** [s.substring(n)]: [s] without its first [n] code units. *)
Fixpoint substring (n : nat) (s : string) : string :=
  match n, s with
  | O, _ => s
  | S n', String _ s' => substring n' s'
  | S _, EmptyString => EmptyString
  end.

(** The white space [parseInt] skips and [trim] strips (WhiteSpace and
    LineTerminator), among the 8-bit code units: TAB, LF, VT, FF, CR, SP
    and the no-break space U+00A0. *)
Definition isStrWhiteSpaceChar (c : ascii) : bool :=
  let n := nat_of_ascii c in
  ((9 <=? n) && (n <=? 13))%nat || (n =? 32)%nat || (n =? 160)%nat.

Fixpoint trimStart (s : string) : string :=
  match s with
  | String c s' => if isStrWhiteSpaceChar c then trimStart s' else s
  | EmptyString => EmptyString
  end.

(** Value of a code unit as a digit: 0-9, a-z and A-Z (10..35). *)
Definition digit_value (c : ascii) : option Z :=
  let n := Z.of_nat (nat_of_ascii c) in
  if (48 <=? n) && (n <=? 57) then Some (n - 48)
  else if (97 <=? n) && (n <=? 122) then Some (n - 87)
  else if (65 <=? n) && (n <=? 90) then Some (n - 55)
  else None.

Definition digit_in_radix (R : Z) (c : ascii) : option Z :=
  match digit_value c with
  | Some d => if d <? R then Some d else None
  | None => None
  end.

(** The longest prefix of radix-[R] digits, read as a number; [acc] is the
    value read so far, [None] while no digit has been seen. *)
Fixpoint parse_digits (R : Z) (acc : option Z) (s : string) : option Z :=
  match s with
  | String c s' =>
      match digit_in_radix R c with
      | Some d => parse_digits R (Some (R * default 0 acc + d)) s'
      | None => acc
      end
  | EmptyString => acc
  end.

(** [parseInt(s)] with no radix argument; [None] is NaN. *)
Definition parseInt (s : string) : option Z :=
  let s1 := trimStart s in
  let '(sign, s2) :=
    match s1 with
    | String "-"%char r => (-1, r)
    | String "+"%char r => (1, r)
    | _ => (1, s1)
    end in
  let '(R, s3) :=
    match s2 with
    | String "0"%char (String "x"%char r) => (16, r)
    | String "0"%char (String "X"%char r) => (16, r)
    | _ => (10, s2)
    end in
  match parse_digits R None s3 with
  | Some v => Some (sign * v)
  | None => None
  end.

(** [Math.ceil(a / b) * b] on integers [a], [b]: NaN when [b = 0]
    (Infinity * 0), else the exact ceiling of the quotient times [b]. *)
Definition ceil_div_times (a b : Z) : option Z :=
  if b =? 0 then None else Some (- ((- a) / b) * b).

(** ** ECMAScript date arithmetic (time values in ms, UTC clock) *)

Definition msPerSecond : Z := 1000.
Definition msPerMinute : Z := 60000.
Definition msPerHour : Z := 3600000.
Definition msPerDay : Z := 86400000.

Definition Day (t : Z) : Z := t / msPerDay.
Definition TimeWithinDay (t : Z) : Z := t mod msPerDay.
Definition HourFromTime (t : Z) : Z := (t / msPerHour) mod 24.
Definition MinFromTime (t : Z) : Z := (t / msPerMinute) mod 60.
Definition SecFromTime (t : Z) : Z := (t / msPerSecond) mod 60.
Definition msFromTime (t : Z) : Z := t mod msPerSecond.

Definition MakeTime (hour min sec ms : Z) : Z :=
  hour * msPerHour + min * msPerMinute + sec * msPerSecond + ms.
Definition MakeDate (day time : Z) : Z := day * msPerDay + time.

Definition getHours (t : Z) : Z := HourFromTime t.
Definition getMinutes (t : Z) : Z := MinFromTime t.

(** [d.setSeconds(sec, ms)] *)
Definition setSeconds (t sec ms : Z) : Z :=
  MakeDate (Day t) (MakeTime (HourFromTime t) (MinFromTime t) sec ms).

(** [d.setMinutes(min)] *)
Definition setMinutes (t min : Z) : Z :=
  MakeDate (Day t) (MakeTime (HourFromTime t) min (SecFromTime t) (msFromTime t)).

(** [d.setMinutes(min, sec, ms)] *)
Definition setMinutes3 (t min sec ms : Z) : Z :=
  MakeDate (Day t) (MakeTime (HourFromTime t) min sec ms).

(** [d.setHours(hour)] *)
Definition setHours (t hour : Z) : Z :=
  MakeDate (Day t)
    (MakeTime hour (MinFromTime t) (SecFromTime t) (msFromTime t)).

(** [d.setHours(hour, min, sec, ms)] *)
Definition setHours4 (t hour min sec ms : Z) : Z :=
  MakeDate (Day t) (MakeTime hour min sec ms).

(** [d.setDate(d.getDate() + 1)]: MakeDay of the same year and month with
    the day of the month plus one is the day after [Day t]; the time
    within the day is kept. *)
Definition setDate_next (t : Z) : Z :=
  MakeDate (Day t + 1) (TimeWithinDay t).

(** ** The cron grammar of the repository

    [cronPattern] is the regular expression of validators/jobValidators.js,
    repeated in the check constraint of the [jobs] table:
    five fields separated by single spaces, each a star, a bounded
    number or a step. It stands for the validator of node-cron where an
    instance of the properties below is computed. *)

Definition is_digit (c : ascii) : bool :=
  let n := nat_of_ascii c in ((48 <=? n) && (n <=? 57))%nat.

Fixpoint all_digits (s : string) : bool :=
  match s with
  | EmptyString => true
  | String c s' => is_digit c && all_digits s'
  end.

(** [[0-9]+] *)
Definition is_decimal (s : string) : bool :=
  match s with
  | EmptyString => false
  | _ => all_digits s
  end.

Definition char_in (lo hi : ascii) (c : ascii) : bool :=
  ((nat_of_ascii lo <=? nat_of_ascii c) && (nat_of_ascii c <=? nat_of_ascii hi))%nat.

(** [\*\/[0-9]+] *)
Definition is_step (f : string) : bool :=
  startsWith f "*/" && is_decimal (substring 2 f).

(** [[lo-hi]?[0-9]] *)
Definition opt_lead_digit (lo hi : ascii) (f : string) : bool :=
  match f with
  | String c EmptyString => is_digit c
  | String a (String c EmptyString) => char_in lo hi a && is_digit c
  | _ => false
  end.

(** [a[lo-hi]] *)
Definition lead_range (a lo hi : ascii) (f : string) : bool :=
  match f with
  | String x (String c EmptyString) => Ascii.eqb x a && char_in lo hi c
  | _ => false
  end.

Definition is_star (f : string) : bool := String.eqb f "*".

Definition minute_field (f : string) : bool :=
  is_star f || opt_lead_digit "0" "5" f || is_step f.
Definition hour_field (f : string) : bool :=
  is_star f || opt_lead_digit "0" "1" f || lead_range "2" "0" "3" f || is_step f.
Definition day_field (f : string) : bool :=
  is_star f || opt_lead_digit "1" "2" f || lead_range "3" "0" "1" f || is_step f.
Definition month_field (f : string) : bool :=
  is_star f || opt_lead_digit "0" "1" f || lead_range "1" "0" "2" f || is_step f.
Definition dow_field (f : string) : bool :=
  is_star f
  || match f with String c EmptyString => char_in "0" "6" c | _ => false end
  || is_step f.

Definition cronPattern (expr : string) : bool :=
  match split expr with
  | [mi; h; d; mo; dw] =>
      minute_field mi && hour_field h && day_field d && month_field mo
      && dow_field dw
  | _ => false
  end.

(** ** models/Job.js: calculateNextRunTime *)

Definition istOffset : Z := 19800000.

Section CronEvaluator.

(** [cron.validate] of the node-cron library, which is not part of the
    repository. *)
Variable validate : string -> bool.

(** [calculateNextRunTime(cronExpression, fromTime)]. The result is the
    time value of the returned [Date]; [None] is an Invalid Date. The
    first branch is the [catch] block, entered when validation throws. *)
Definition calculateNextRunTime (cronExpression : string) (fromTime : Z)
  : option Z :=
  if negb (validate cronExpression) then Some (fromTime + 60 * 60 * 1000)
  else
    let istTime := fromTime + istOffset in
    let parts := split cronExpression in
    let hour := parts !! 1%nat in
    let day := parts !! 2%nat in
    let month := parts !! 3%nat in
    match parts !! 0%nat with
    | None => Some (fromTime + 60 * 60 * 1000)
    | Some minute =>
        let nextRun := istTime in
        let result :=
          if String.eqb cronExpression "* * * * *" then
            let nextRun := setSeconds nextRun 0 0 in
            Some (setMinutes nextRun (getMinutes nextRun + 1))
          else if startsWith minute "*/" then
            match parseInt (substring 2 minute) with
            | None => None
            | Some interval =>
                let nextRun := setSeconds nextRun 0 0 in
                let currentMinute := getMinutes nextRun in
                match ceil_div_times (currentMinute + 1) interval with
                | None => None
                | Some nextInterval =>
                    if 60 <=? nextInterval then
                      let nextRun := setHours nextRun (getHours nextRun + 1) in
                      Some (setMinutes nextRun (nextInterval - 60))
                    else Some (setMinutes nextRun nextInterval)
                end
            end
          else if negb (String.eqb minute "*")
                  && bool_decide (hour = Some "*") then
            match parseInt minute with
            | None => None
            | Some targetMinute =>
                let nextRun := setMinutes3 nextRun targetMinute 0 0 in
                if targetMinute <=? getMinutes istTime then
                  Some (setHours nextRun (getHours nextRun + 1))
                else Some nextRun
            end
          else if negb (String.eqb minute "*")
                  && negb (bool_decide (hour = Some "*"))
                  && bool_decide (day = Some "*")
                  && bool_decide (month = Some "*") then
            match hour with
            | None => None
            | Some hour =>
                match parseInt hour, parseInt minute with
                | Some targetHour, Some targetMinute =>
                    let nextRun := setHours4 nextRun targetHour targetMinute 0 0 in
                    if nextRun <=? istTime then Some (setDate_next nextRun)
                    else Some nextRun
                | _, _ => None
                end
            end
          else
            let nextRun := setHours nextRun (getHours nextRun + 1) in
            Some (setMinutes3 nextRun 0 0 0)
        in
        match result with
        | Some nextRun => Some (nextRun - istOffset)
        | None => None
        end
    end.

End CronEvaluator.

(** ** The range of Date

    A Date holds a time value of at most 8.64e15 ms in magnitude; a
    setter or constructor given an instant beyond it leaves an Invalid
    Date (TimeClip). [calculateNextRunTime] above computes on unbounded
    integers: its time values are those of the code as long as every
    Date of the call stays within the range. *)

Definition timeClipMax : Z := 8640000000000000.

Definition in_date_range (t : Z) : bool :=
  (- timeClipMax <=? t) && (t <=? timeClipMax).

(** The magnitude of the number [parseInt] reads in a field; 0 when the
    field is absent or read as NaN. *)
Definition read_number (field : option string) : Z :=
  match field with
  | Some f => match parseInt f with Some n => Z.abs n | None => 0 end
  | None => 0
  end.

(** How far from the base instant the Dates of a call of
    [calculateNextRunTime] can lie, in ms. Two days cover the shift to
    the civil time of Asia/Kolkata, the return to the start of the
    minute, the hour or the day, and the step to the next hour or day;
    the rest is what the setters are given: the minutes and the hours
    read in the first two fields, and the minutes read after [*/]. *)
Definition reach (cronExpression : string) : Z :=
  let parts := split cronExpression in
  let minute := parts !! 0%nat in
  let hour := parts !! 1%nat in
  2 * msPerDay
  + read_number hour * msPerHour
  + (read_number minute + read_number (substring 2 <$> minute)) * msPerMinute.

(** The base instants from which every Date of the call is within the
    range: there the numbers read are below 2^53, so that [parseInt] and
    the arithmetic of the code are exact, and no Date is clipped. *)
Definition date_range (cronExpression : string) (fromTime : Z) : Prop :=
  - timeClipMax + reach cronExpression <= fromTime
  /\ fromTime + reach cronExpression <= timeClipMax.

(** ** JavaScript values met in job data *)

(** A property value that may be absent ([undefined]), [null] or present. *)
Inductive JsOpt (A : Type) : Type :=
  | Undefined
  | Null
  | Val (a : A).
Arguments Undefined {A}.
Arguments Null {A}.
Arguments Val {A} a.

Global Instance JsOpt_eq_dec {A} `{EqDecision A} : EqDecision (JsOpt A).
Proof. solve_decision. Defined.

Definition JsOpt_to_option {A} (v : JsOpt A) : option (option A) :=
  match v with Undefined => None | Null => Some None | Val a => Some (Some a) end.
Definition JsOpt_of_option {A} (o : option (option A)) : JsOpt A :=
  match o with None => Undefined | Some None => Null | Some (Some a) => Val a end.

Global Instance JsOpt_countable {A} `{Countable A} : Countable (JsOpt A).
Proof.
  apply (inj_countable' JsOpt_to_option JsOpt_of_option).
  intros [| |a]; reflexivity.
Defined.

(** A JSON value; an object or array is carried by its text. *)
Inductive Json : Type :=
  | JNull
  | JBool (b : bool)
  | JNum (n : Z)
  | JStr (s : string)
  | JObj (text : string).

Global Instance Json_eq_dec : EqDecision Json.
Proof. solve_decision. Defined.

(** The empty object literal [{}]. *)
Definition emptyObject : Json := JObj "{}".

(** Truthiness, as tested by [||] and [&&]. *)
Definition truthy_str (v : JsOpt string) : bool :=
  match v with Val s => negb (String.eqb s "") | _ => false end.
Definition truthy_num (v : JsOpt Z) : bool :=
  match v with Val n => negb (n =? 0) | _ => false end.
Definition truthy_json (v : JsOpt Json) : bool :=
  match v with
  | Val JNull => false
  | Val (JBool b) => b
  | Val (JNum n) => negb (n =? 0)
  | Val (JStr s) => negb (String.eqb s "")
  | Val (JObj _) => true
  | _ => false
  end.
(** Objects ([Date], arrays) are truthy whenever present. *)
Definition truthy_obj {A} (v : JsOpt A) : bool :=
  match v with Val _ => true | _ => false end.

(** [a || b] *)
Definition js_or {A} (truthy : JsOpt A -> bool) (a b : JsOpt A) : JsOpt A :=
  if truthy a then a else b.

(** [a || b || d] with a number [d] *)
Definition num_or (a b : JsOpt Z) (d : Z) : Z :=
  match js_or truthy_num (js_or truthy_num a b) (Val d) with
  | Val n => n
  | _ => d
  end.

(** A column value read from the store: SQL NULL comes back as [null]. *)
Definition of_col {A} (o : option A) : JsOpt A :=
  match o with Some a => Val a | None => Null end.
(** A statement parameter: [undefined] and [null] are both sent as NULL. *)
Definition to_col {A} (v : JsOpt A) : option A :=
  match v with Val a => Some a | _ => None end.

(** [s.trim().length === 0] *)
Fixpoint all_whitespace (s : string) : bool :=
  match s with
  | EmptyString => true
  | String c s' => isStrWhiteSpaceChar c && all_whitespace s'
  end.

(** ** The [jobs] and [job_executions] tables (database/schema.sql) *)

Module Row.
Record t : Type := mk {
  id : string;
  name : string;
  description : option string;
  cron_expression : string;
  is_active : option bool;
  job_type : string;
  payload : option Json;
  created_at : option Z;
  updated_at : option Z;
  last_run_at : option Z;
  next_run_at : option Z;
  total_runs : option Z;
  successful_runs : option Z;
  failed_runs : option Z;
  timeout_ms : option Z;
  max_retries : option Z;
  retry_delay_ms : option Z;
  created_by : option string;
  tags : option (list string)
}.
End Row.

(** The status of an execution row: the strings admitted by the check
    constraint of [job_executions.status]. *)
Inductive ExecStatus : Type := running | completed | failed | timeout.

Global Instance ExecStatus_eq_dec : EqDecision ExecStatus.
Proof. solve_decision. Defined.

(** The object a simulated execution resolves with. *)
Record ExecResult : Type := mkExecResult {
  res_type : string;
  res_message : string;
  res_payload : Json;
  res_executedAt : Z
}.

(** The [output] column: the default [{}] or a stored result. *)
Inductive Output : Type :=
  | OutEmpty
  | OutResult (r : ExecResult).

Module ExecRow.
Record t : Type := mk {
  id : nat;
  job_id : string;
  status : ExecStatus;
  started_at : Z;
  completed_at : option Z;
  duration_ms : option Z;
  error_message : option string;
  retry_count : Z;
  output : option Output
}.
End ExecRow.

(** The store. Execution ids ([gen_random_uuid()]) are drawn from a
    counter. Constraint violations (check constraints, foreign keys,
    partitions) abort a statement and are outside the model, apart from
    NOT NULL columns and unparsable timestamps. *)
Record Database : Type := mkDatabase {
  jobs : list Row.t;
  job_executions : list ExecRow.t;
  next_uuid : nat
}.

(** ** models/Job.js: class Job *)

(** The argument [data] of the constructor: a row of the store (snake
    case keys), a request body or a spread [Job] (camel case keys). *)
Module Data.
Record t : Type := mk {
  id : JsOpt string;
  name : JsOpt string;
  description : JsOpt string;
  cron_expression : JsOpt string;
  cronExpression : JsOpt string;
  is_active : JsOpt bool;
  isActive : JsOpt bool;
  job_type : JsOpt string;
  jobType : JsOpt string;
  payload : JsOpt Json;
  created_at : JsOpt Z;
  createdAt : JsOpt Z;
  updated_at : JsOpt Z;
  updatedAt : JsOpt Z;
  last_run_at : JsOpt Z;
  lastRunAt : JsOpt Z;
  next_run_at : JsOpt Z;
  nextRunAt : JsOpt Z;
  total_runs : JsOpt Z;
  totalRuns : JsOpt Z;
  successful_runs : JsOpt Z;
  successfulRuns : JsOpt Z;
  failed_runs : JsOpt Z;
  failedRuns : JsOpt Z;
  timeout_ms : JsOpt Z;
  timeoutMs : JsOpt Z;
  max_retries : JsOpt Z;
  maxRetries : JsOpt Z;
  retry_delay_ms : JsOpt Z;
  retryDelayMs : JsOpt Z;
  created_by : JsOpt string;
  createdBy : JsOpt string;
  tags : JsOpt (list string)
}.

(** The object [pg] returns for a row. *)
Definition of_row (r : Row.t) : t :=
  {| id := Val (Row.id r);
     name := Val (Row.name r);
     description := of_col (Row.description r);
     cron_expression := Val (Row.cron_expression r);
     cronExpression := Undefined;
     is_active := of_col (Row.is_active r);
     isActive := Undefined;
     job_type := Val (Row.job_type r);
     jobType := Undefined;
     payload := of_col (Row.payload r);
     created_at := of_col (Row.created_at r);
     createdAt := Undefined;
     updated_at := of_col (Row.updated_at r);
     updatedAt := Undefined;
     last_run_at := of_col (Row.last_run_at r);
     lastRunAt := Undefined;
     next_run_at := of_col (Row.next_run_at r);
     nextRunAt := Undefined;
     total_runs := of_col (Row.total_runs r);
     totalRuns := Undefined;
     successful_runs := of_col (Row.successful_runs r);
     successfulRuns := Undefined;
     failed_runs := of_col (Row.failed_runs r);
     failedRuns := Undefined;
     timeout_ms := of_col (Row.timeout_ms r);
     timeoutMs := Undefined;
     max_retries := of_col (Row.max_retries r);
     maxRetries := Undefined;
     retry_delay_ms := of_col (Row.retry_delay_ms r);
     retryDelayMs := Undefined;
     created_by := of_col (Row.created_by r);
     createdBy := Undefined;
     tags := of_col (Row.tags r) |}.
End Data.

(** The body of a [PUT /jobs/:id] request after validation with
    [stripUnknown]: the keys of [jobUpdateSchema], each optional. *)
Module Patch.
Record t : Type := mk {
  name : option string;
  description : option string;
  cronExpression : option string;
  isActive : option bool;
  jobType : option string;
  payload : option Json;
  timeoutMs : option Z;
  maxRetries : option Z;
  retryDelayMs : option Z;
  createdBy : option string;
  tags : option (list string)
}.

Definition empty : t :=
  mk None None None None None None None None None None None.
End Patch.

Module Job.
Record t : Type := mk {
  id : JsOpt string;
  name : JsOpt string;
  description : JsOpt string;
  cronExpression : JsOpt string;
  isActive : JsOpt bool;
  jobType : string;
  payload : Json;
  createdAt : JsOpt Z;
  updatedAt : JsOpt Z;
  lastRunAt : JsOpt Z;
  nextRunAt : JsOpt Z;
  totalRuns : Z;
  successfulRuns : Z;
  failedRuns : Z;
  timeoutMs : Z;
  maxRetries : Z;
  retryDelayMs : Z;
  createdBy : JsOpt string;
  tags : list string
}.

(** [constructor(data)] *)
Definition new (data : Data.t) : t :=
  {| id := Data.id data;
     name := Data.name data;
     description := Data.description data;
     cronExpression :=
       js_or truthy_str (Data.cron_expression data) (Data.cronExpression data);
     isActive :=
       if decide (Data.is_active data = Undefined) then Data.isActive data
       else Data.is_active data;
     jobType :=
       match js_or truthy_str
               (js_or truthy_str (Data.job_type data) (Data.jobType data))
               (Val "scheduled") with
       | Val s => s
       | _ => "scheduled"
       end;
     payload :=
       match js_or truthy_json (Data.payload data) (Val emptyObject) with
       | Val j => j
       | _ => emptyObject
       end;
     createdAt := js_or truthy_obj (Data.created_at data) (Data.createdAt data);
     updatedAt := js_or truthy_obj (Data.updated_at data) (Data.updatedAt data);
     lastRunAt := js_or truthy_obj (Data.last_run_at data) (Data.lastRunAt data);
     nextRunAt := js_or truthy_obj (Data.next_run_at data) (Data.nextRunAt data);
     totalRuns := num_or (Data.total_runs data) (Data.totalRuns data) 0;
     successfulRuns :=
       num_or (Data.successful_runs data) (Data.successfulRuns data) 0;
     failedRuns := num_or (Data.failed_runs data) (Data.failedRuns data) 0;
     timeoutMs := num_or (Data.timeout_ms data) (Data.timeoutMs data) 30000;
     maxRetries := num_or (Data.max_retries data) (Data.maxRetries data) 3;
     retryDelayMs :=
       num_or (Data.retry_delay_ms data) (Data.retryDelayMs data) 5000;
     createdBy := js_or truthy_str (Data.created_by data) (Data.createdBy data);
     tags :=
       match js_or truthy_obj (Data.tags data) (Val []) with
       | Val l => l
       | _ => []
       end |}.

(** The result of [toDatabase()]; [payload] is the JSON text of the
    payload, carried here as the value it denotes. *)
Record dbData : Type := mkDbData {
  db_id : JsOpt string;
  db_name : JsOpt string;
  db_description : JsOpt string;
  db_cron_expression : JsOpt string;
  db_is_active : JsOpt bool;
  db_job_type : string;
  db_payload : Json;
  db_timeout_ms : Z;
  db_max_retries : Z;
  db_retry_delay_ms : Z;
  db_created_by : JsOpt string;
  db_tags : list string
}.

Definition toDatabase (this : t) : dbData :=
  {| db_id := id this;
     db_name := name this;
     db_description := description this;
     db_cron_expression := cronExpression this;
     db_is_active := isActive this;
     db_job_type := jobType this;
     db_payload := payload this;
     db_timeout_ms := timeoutMs this;
     db_max_retries := maxRetries this;
     db_retry_delay_ms := retryDelayMs this;
     db_created_by := createdBy this;
     db_tags := tags this |}.

(** [!s || s.trim().length === 0] *)
Definition blank (v : JsOpt string) : bool :=
  match v with
  | Val s => String.eqb s "" || all_whitespace s
  | _ => true
  end.

(** [validate()]: the list of error messages; valid when empty. *)
Definition validate (this : t) : list string :=
  (if blank (name this) then ["Name is required"] else [])
  ++ (if blank (cronExpression this) then ["Cron expression is required"]
      else [])
  ++ (if negb (timeoutMs this =? 0)
         && ((timeoutMs this <? 1000) || (300000 <? timeoutMs this))
      then ["Timeout must be between 1000ms and 300000ms"] else [])
  ++ (if negb (maxRetries this =? 0)
         && ((maxRetries this <? 0) || (10 <? maxRetries this))
      then ["Max retries must be between 0 and 10"] else []).

Definition isValid (this : t) : bool :=
  match validate this with [] => true | _ => false end.

(** [{ ...existingJob, ...updateData }]: the own properties of a [Job]
    overridden by the keys present in the patch. *)
Definition spread (j : t) (p : Patch.t) : Data.t :=
  let over {A} (o : option A) (v : JsOpt A) : JsOpt A :=
    match o with Some a => Val a | None => v end in
  {| Data.id := id j;
     Data.name := over (Patch.name p) (name j);
     Data.description := over (Patch.description p) (description j);
     Data.cron_expression := Undefined;
     Data.cronExpression := over (Patch.cronExpression p) (cronExpression j);
     Data.is_active := Undefined;
     Data.isActive := over (Patch.isActive p) (isActive j);
     Data.job_type := Undefined;
     Data.jobType := over (Patch.jobType p) (Val (jobType j));
     Data.payload := over (Patch.payload p) (Val (payload j));
     Data.created_at := Undefined;
     Data.createdAt := createdAt j;
     Data.updated_at := Undefined;
     Data.updatedAt := updatedAt j;
     Data.last_run_at := Undefined;
     Data.lastRunAt := lastRunAt j;
     Data.next_run_at := Undefined;
     Data.nextRunAt := nextRunAt j;
     Data.total_runs := Undefined;
     Data.totalRuns := Val (totalRuns j);
     Data.successful_runs := Undefined;
     Data.successfulRuns := Val (successfulRuns j);
     Data.failed_runs := Undefined;
     Data.failedRuns := Val (failedRuns j);
     Data.timeout_ms := Undefined;
     Data.timeoutMs := over (Patch.timeoutMs p) (Val (timeoutMs j));
     Data.max_retries := Undefined;
     Data.maxRetries := over (Patch.maxRetries p) (Val (maxRetries j));
     Data.retry_delay_ms := Undefined;
     Data.retryDelayMs := over (Patch.retryDelayMs p) (Val (retryDelayMs j));
     Data.created_by := Undefined;
     Data.createdBy := over (Patch.createdBy p) (createdBy j);
     Data.tags := over (Patch.tags p) (Val (tags j)) |}.
End Job.

(** ** SQL helpers *)

(** [UPDATE t SET ... WHERE p]: the rows matching [p] are replaced by
    their image under [f]. *)
Definition sql_update {A} (p : A -> bool) (f : A -> A) (rows : list A)
  : list A :=
  map (fun r => if p r then f r else r) rows.

(** [RETURNING *] of the same statement. *)
Definition sql_returning {A} (p : A -> bool) (f : A -> A) (rows : list A)
  : list A :=
  map f (filter (fun r => p r = true) rows).

(** [ORDER BY]: a stable insertion sort; [le a b] says that [a] may come
    before [b]. Rows with equal keys keep the order of the table. *)
Fixpoint insert_sorted {A} (le : A -> A -> bool) (x : A) (l : list A)
  : list A :=
  match l with
  | [] => [x]
  | y :: l' => if le x y then x :: l else y :: insert_sorted le x l'
  end.

Fixpoint order_by {A} (le : A -> A -> bool) (l : list A) : list A :=
  match l with
  | [] => []
  | x :: l' => insert_sorted le x (order_by le l')
  end.

(** [ORDER BY k DESC]: NULL first, then decreasing. *)
Definition desc_le (a b : option Z) : bool :=
  match a, b with
  | None, _ => true
  | Some _, None => false
  | Some x, Some y => y <=? x
  end.

(** [ORDER BY k ASC]: increasing, NULL last. *)
Definition asc_le (a b : option Z) : bool :=
  match a, b with
  | Some x, Some y => x <=? y
  | Some _, None => true
  | None, Some _ => false
  | None, None => true
  end.

(** [col = true] in a WHERE clause: NULL does not match. *)
Definition sql_is_true (b : option bool) : bool :=
  match b with Some true => true | _ => false end.

(** [Math.ceil(a / b)] for a count [a] and a positive [b]. *)
Definition ceil_div (a b : Z) : Z := - ((- a) / b).

(** ** database/schema.sql: calculate_next_run and the row trigger

    The row trigger [jobs_update_next_run] replaces, on every INSERT and
    on every UPDATE that changes [cron_expression], the [next_run_at] of
    the new row by [calculate_next_run(cron_expression)] taken from
    [NOW()]. Instants of the store are read in milliseconds and
    [DATE_TRUNC] is taken in a session whose time zone is UTC. *)

(** The day number of a civil date, and the civil date of a day number
    (proleptic Gregorian calendar, day 0 is 1970-01-01). *)
Definition days_from_civil (y m d : Z) : Z :=
  let y := if m <=? 2 then y - 1 else y in
  let era := y / 400 in
  let yoe := y - era * 400 in
  let mp := if 2 <? m then m - 3 else m + 9 in
  let doy := (153 * mp + 2) / 5 + d - 1 in
  let doe := yoe * 365 + yoe / 4 - yoe / 100 + doy in
  era * 146097 + doe - 719468.

Definition civil_from_days (z : Z) : Z * Z * Z :=
  let z := z + 719468 in
  let era := z / 146097 in
  let doe := z - era * 146097 in
  let yoe := (doe - doe / 1460 + doe / 36524 - doe / 146096) / 365 in
  let doy := doe - (365 * yoe + yoe / 4 - yoe / 100) in
  let mp := (5 * doy + 2) / 153 in
  let d := doy - (153 * mp + 2) / 5 + 1 in
  let m := if mp <? 10 then mp + 3 else mp - 9 in
  let y := yoe + era * 400 + (if m <=? 2 then 1 else 0) in
  (y, m, d).

(** [DATE_TRUNC('hour' | 'day' | 'week' | 'month', t)]; a week starts on
    Monday, and day 0 is a Thursday. *)
Definition date_trunc_hour (t : Z) : Z := t / msPerHour * msPerHour.
Definition date_trunc_day (t : Z) : Z := Day t * msPerDay.
Definition date_trunc_week (t : Z) : Z :=
  (Day t - (Day t + 3) mod 7) * msPerDay.
Definition date_trunc_month (t : Z) : Z :=
  let '(y, m, _) := civil_from_days (Day t) in
  days_from_civil y m 1 * msPerDay.

(** [t + INTERVAL '1 month'] for the first instant [t] of a month. *)
Definition next_month_start (t : Z) : Z :=
  let '(y, m, _) := civil_from_days (Day t) in
  (if m =? 12 then days_from_civil (y + 1) 1 1
   else days_from_civil y (m + 1) 1) * msPerDay.

(** [calculate_next_run(cron_expr, from_time)] *)
Definition calculate_next_run (cron_expr : string) (from_time : Z) : Z :=
  if String.eqb cron_expr "0 * * * *" then
    date_trunc_hour from_time + msPerHour
  else if String.eqb cron_expr "0 0 * * *" then
    date_trunc_day from_time + msPerDay
  else if String.eqb cron_expr "0 0 * * 1" then
    date_trunc_week from_time + 7 * msPerDay
  else if String.eqb cron_expr "0 0 1 * *" then
    next_month_start (date_trunc_month from_time)
  else from_time + msPerHour.

(** ** models/Job.js: class JobRepository *)

Module JobRepository.

(** The rows selected by [WHERE id = $1]. *)
Definition has_id (id : JsOpt string) (r : Row.t) : bool :=
  bool_decide (id = Val (Row.id r)).

(** [findById(id)]; [None] is [null]. *)
Definition findById (id : JsOpt string) (db : Database) : option Job.t :=
  match filter (fun r => has_id id r = true) (jobs db) with
  | r :: _ => Some (Job.new (Data.of_row r))
  | [] => None
  end.

(** The options of [findAll] used by the scheduler: [page], [limit] and
    [isActive]; the filters [jobType], [tags] and [search] are absent. *)
Record FindOptions : Type := mkFindOptions {
  opt_page : Z;
  opt_limit : Z;
  opt_isActive : option bool
}.

Record FindResult : Type := mkFindResult {
  fr_jobs : list Job.t;
  fr_total : Z;
  fr_page : Z;
  fr_limit : Z;
  fr_totalPages : Z
}.

Definition where_isActive (o : option bool) (r : Row.t) : bool :=
  match o with
  | None => true
  | Some b => bool_decide (Row.is_active r = Some b)
  end.

(** [findAll(options)]: [WHERE is_active = $1 ORDER BY created_at DESC
    LIMIT limit OFFSET (page - 1) * limit], and the count of the rows
    matching the filter. *)
Definition findAll (o : FindOptions) (db : Database) : FindResult :=
  let offset := (opt_page o - 1) * opt_limit o in
  let matching :=
    filter (fun r => where_isActive (opt_isActive o) r = true) (jobs db) in
  let sorted :=
    order_by (fun a b => desc_le (Row.created_at a) (Row.created_at b))
      matching in
  let rows := take (Z.to_nat (opt_limit o)) (drop (Z.to_nat offset) sorted) in
  {| fr_jobs := map (fun r => Job.new (Data.of_row r)) rows;
     fr_total := Z.of_nat (length matching);
     fr_page := opt_page o;
     fr_limit := opt_limit o;
     fr_totalPages := ceil_div (Z.of_nat (length matching)) (opt_limit o) |}.

(** [getActiveJobs()]: [WHERE is_active = true AND (next_run_at IS NULL
    OR next_run_at <= NOW()) ORDER BY next_run_at ASC]. *)
Definition due (dbnow : Z) (r : Row.t) : bool :=
  sql_is_true (Row.is_active r)
  && match Row.next_run_at r with
     | None => true
     | Some t => t <=? dbnow
     end.

Definition getActiveJobs (dbnow : Z) (db : Database) : list Job.t :=
  map (fun r => Job.new (Data.of_row r))
    (order_by (fun a b => asc_le (Row.next_run_at a) (Row.next_run_at b))
       (filter (fun r => due dbnow r = true) (jobs db))).

(** The SET clause of [updateJobStats]: [$2] is [new Date()], [$3] and
    [$4] are the 0/1 flags, [NOW()] is the clock of the store. *)
Definition stats_set (date dbnow : Z) (success : bool) (r : Row.t) : Row.t :=
  {| Row.id := Row.id r;
     Row.name := Row.name r;
     Row.description := Row.description r;
     Row.cron_expression := Row.cron_expression r;
     Row.is_active := Row.is_active r;
     Row.job_type := Row.job_type r;
     Row.payload := Row.payload r;
     Row.created_at := Row.created_at r;
     Row.updated_at := Some dbnow;
     Row.last_run_at := Some date;
     Row.next_run_at := Row.next_run_at r;
     Row.total_runs := (fun n => n + 1) <$> Row.total_runs r;
     Row.successful_runs :=
       (fun n => n + (if success then 1 else 0)) <$> Row.successful_runs r;
     Row.failed_runs :=
       (fun n => n + (if success then 0 else 1)) <$> Row.failed_runs r;
     Row.timeout_ms := Row.timeout_ms r;
     Row.max_retries := Row.max_retries r;
     Row.retry_delay_ms := Row.retry_delay_ms r;
     Row.created_by := Row.created_by r;
     Row.tags := Row.tags r |}.

(** The values an INTEGER column holds; NULL is held as well. *)
Definition int4_min : Z := -2147483648.
Definition int4_max : Z := 2147483647.

Definition int4 (v : option Z) : bool :=
  match v with
  | Some n => (int4_min <=? n) && (n <=? int4_max)
  | None => true
  end.

(** Whether the counters of a row fit their INTEGER columns
    [total_runs], [successful_runs] and [failed_runs]. *)
Definition counters_fit (r : Row.t) : bool :=
  int4 (Row.total_runs r) && int4 (Row.successful_runs r)
  && int4 (Row.failed_runs r).

(** [CONSTRAINT positive_runs CHECK (total_runs >= 0 AND successful_runs
    >= 0 AND failed_runs >= 0)]: a CHECK passes unless it is false, so a
    NULL counter passes. *)
Definition not_negative (v : option Z) : bool :=
  match v with
  | Some n => 0 <=? n
  | None => true
  end.

Definition positive_runs (r : Row.t) : bool :=
  not_negative (Row.total_runs r) && not_negative (Row.successful_runs r)
  && not_negative (Row.failed_runs r).

(** What [updateJobStats] ends with: the promise rejects because the
    store refuses the statement, or it resolves with the [Job] of the
    first row returned ([None] is [null], no row has the id). *)
Inductive StatsResult : Type :=
  | StatsRefused
  | StatsReturned (job : option Job.t).

(** [updateJobStats(id, stats)], with [stats.success] as a flag: the new
    store and the outcome. The store refuses the statement, and changes
    nothing, when a sum of the SET clause leaves the range of its INTEGER
    column ("integer out of range") or a new row fails [positive_runs].
    The trigger [jobs_update_next_run] leaves the new rows as they are,
    [cron_expression] being unchanged. *)
Definition updateJobStats (id : JsOpt string) (success : bool)
    (date dbnow : Z) (db : Database) : Database * StatsResult :=
  let returned :=
    sql_returning (has_id id) (stats_set date dbnow success) (jobs db) in
  if forallb (fun r => counters_fit r && positive_runs r) returned then
    ({| jobs :=
          sql_update (has_id id) (stats_set date dbnow success) (jobs db);
        job_executions := job_executions db;
        next_uuid := next_uuid db |},
     StatsReturned
       match returned with
       | r :: _ => Some (Job.new (Data.of_row r))
       | [] => None
       end)
  else (db, StatsRefused).

(** The SET clause of [update]. *)
Definition update_set (nm cron jt : string) (d : Job.dbData)
    (nextRunAt : option Z) (dbnow : Z) (r : Row.t) : Row.t :=
  {| Row.id := Row.id r;
     Row.name := nm;
     Row.description := to_col (Job.db_description d);
     Row.cron_expression := cron;
     Row.is_active := to_col (Job.db_is_active d);
     Row.job_type := jt;
     Row.payload := Some (Job.db_payload d);
     Row.created_at := Row.created_at r;
     Row.updated_at := Some dbnow;
     Row.last_run_at := Row.last_run_at r;
     Row.next_run_at := nextRunAt;
     Row.total_runs := Row.total_runs r;
     Row.successful_runs := Row.successful_runs r;
     Row.failed_runs := Row.failed_runs r;
     Row.timeout_ms := Some (Job.db_timeout_ms d);
     Row.max_retries := Some (Job.db_max_retries d);
     Row.retry_delay_ms := Some (Job.db_retry_delay_ms d);
     Row.created_by := to_col (Job.db_created_by d);
     Row.tags := Some (Job.db_tags d) |}.

(** The row trigger [jobs_update_next_run] on UPDATE ([BEFORE UPDATE ...
    FOR EACH ROW]): when the statement changes [cron_expression], the
    trigger replaces the [next_run_at] of the new row by
    [calculate_next_run(NEW.cron_expression)] taken from [NOW()] and sets
    [updated_at] to [NOW()]; otherwise the new row is stored as the
    statement made it. *)
Definition update_trigger (dbnow : Z) (old new : Row.t) : Row.t :=
  if String.eqb (Row.cron_expression old) (Row.cron_expression new) then new
  else
    {| Row.id := Row.id new;
       Row.name := Row.name new;
       Row.description := Row.description new;
       Row.cron_expression := Row.cron_expression new;
       Row.is_active := Row.is_active new;
       Row.job_type := Row.job_type new;
       Row.payload := Row.payload new;
       Row.created_at := Row.created_at new;
       Row.updated_at := Some dbnow;
       Row.last_run_at := Row.last_run_at new;
       Row.next_run_at :=
         Some (calculate_next_run (Row.cron_expression new) dbnow);
       Row.total_runs := Row.total_runs new;
       Row.successful_runs := Row.successful_runs new;
       Row.failed_runs := Row.failed_runs new;
       Row.timeout_ms := Row.timeout_ms new;
       Row.max_retries := Row.max_retries new;
       Row.retry_delay_ms := Row.retry_delay_ms new;
       Row.created_by := Row.created_by new;
       Row.tags := Row.tags new |}.

(** What the UPDATE of [update] stores for a row: the SET clause, then
    the trigger. *)
Definition update_row (nm cron jt : string) (d : Job.dbData)
    (nextRunAt : option Z) (dbnow : Z) (r : Row.t) : Row.t :=
  update_trigger dbnow r (update_set nm cron jt d nextRunAt dbnow r).

Inductive UpdateResult : Type :=
  | NotFound
  | ValidationFailed (errors : list string)
  | QueryFailed
  | Updated (job : Job.t).

Section WithValidator.
Variable validate : string -> bool.

(** [calculateNextRunTime] on a property value; node-cron rejects what is
    not a string. *)
Definition nextRunOf (cronExpression : JsOpt string) (fromTime : Z)
  : option Z :=
  match cronExpression with
  | Val s => calculateNextRunTime validate s fromTime
  | _ => Some (fromTime + 60 * 60 * 1000)
  end.

(** [update(id, updateData)]; [date] is [new Date()], [dbnow] is [NOW()].
    The statement is modelled by its SET clause followed by the row
    trigger [jobs_update_next_run] of schema.sql: a NULL name, cron
    expression or an Invalid Date parameter makes the query fail. *)
Definition update (id : JsOpt string) (updateData : Patch.t)
    (date dbnow : Z) (db : Database) : Database * UpdateResult :=
  match findById id db with
  | None => (db, NotFound)
  | Some existingJob =>
      let updatedJob := Job.new (Job.spread existingJob updateData) in
      if negb (Job.isValid updatedJob) then
        (db, ValidationFailed (Job.validate updatedJob))
      else
        let dbData := Job.toDatabase updatedJob in
        let nextRunAt : option (option Z) :=
          if decide (Job.cronExpression existingJob
                     = Job.cronExpression updatedJob)
          then Some (to_col (Job.nextRunAt existingJob))
          else match nextRunOf (Job.cronExpression updatedJob) date with
               | Some t => Some (Some t)
               | None => None
               end in
        match to_col (Job.db_name dbData),
              to_col (Job.db_cron_expression dbData),
              nextRunAt with
        | Some nm, Some cron, Some nra =>
            let f :=
              update_row nm cron (Job.db_job_type dbData) dbData nra dbnow in
            match sql_returning (has_id id) f (jobs db) with
            | r :: _ =>
                ({| jobs := sql_update (has_id id) f (jobs db);
                    job_executions := job_executions db;
                    next_uuid := next_uuid db |},
                 Updated (Job.new (Data.of_row r)))
            | [] => (db, QueryFailed) (* no row: not after [findById] found it *)
            end
        | _, _, _ => (db, QueryFailed)
        end
  end.

(** The row an INSERT of [create] stores: the listed columns from the
    statement, [id] drawn by the store, the timestamps and counters from
    the column defaults, [next_run_at] from the insert trigger. *)
Definition insert_row (newId nm cron : string) (d : Job.dbData) (dbnow : Z)
  : Row.t :=
  {| Row.id := newId;
     Row.name := nm;
     Row.description := to_col (Job.db_description d);
     Row.cron_expression := cron;
     Row.is_active := to_col (Job.db_is_active d);
     Row.job_type := Job.db_job_type d;
     Row.payload := Some (Job.db_payload d);
     Row.created_at := Some dbnow;
     Row.updated_at := Some dbnow;
     Row.last_run_at := None;
     Row.next_run_at := Some (calculate_next_run cron dbnow);
     Row.total_runs := Some 0;
     Row.successful_runs := Some 0;
     Row.failed_runs := Some 0;
     Row.timeout_ms := Some (Job.db_timeout_ms d);
     Row.max_retries := Some (Job.db_max_retries d);
     Row.retry_delay_ms := Some (Job.db_retry_delay_ms d);
     Row.created_by := to_col (Job.db_created_by d);
     Row.tags := Some (Job.db_tags d) |}.

Inductive CreateResult : Type :=
  | CreateInvalid (errors : list string)
  | CreateRefused
  | Created (job : Job.t).

(** [create(jobData)]; [newId] is the value [gen_random_uuid()] draws,
    [date] is [new Date()], [dbnow] is [NOW()]. The statement is refused
    when the name or the cron expression is NULL, when the [next_run_at]
    parameter is an Invalid Date, and when the primary key is taken;
    the check constraints of the table can refuse it as well, which the
    model leaves out. *)
Definition create (jobData : Data.t) (newId : string) (date dbnow : Z)
    (db : Database) : Database * CreateResult :=
  let job := Job.new jobData in
  if negb (Job.isValid job) then (db, CreateInvalid (Job.validate job))
  else
    let dbData := Job.toDatabase job in
    match to_col (Job.db_name dbData),
          to_col (Job.db_cron_expression dbData),
          nextRunOf (Job.cronExpression job) date with
    | Some nm, Some cron, Some _ =>
        match filter (fun r => has_id (Val newId) r = true) (jobs db) with
        | _ :: _ => (db, CreateRefused)
        | [] =>
            let row := insert_row newId nm cron dbData dbnow in
            ({| jobs := jobs db ++ [row];
                job_executions := job_executions db;
                next_uuid := next_uuid db |},
             Created (Job.new (Data.of_row row)))
        end
    | _, _, _ => (db, CreateRefused)
    end.

End WithValidator.

(** [delete(id)]: [DELETE FROM jobs WHERE id = $1 RETURNING *]; the
    executions of a deleted job go with it ([ON DELETE CASCADE]).
    [None] is [null]. *)
Definition delete (id : JsOpt string) (db : Database)
  : Database * option Job.t :=
  match filter (fun r => has_id id r = true) (jobs db) with
  | r :: _ =>
      ({| jobs := filter (fun r => has_id id r = false) (jobs db);
          job_executions :=
            filter (fun e => id <> Val (ExecRow.job_id e)) (job_executions db);
          next_uuid := next_uuid db |},
       Some (Job.new (Data.of_row r)))
  | [] => (db, None)
  end.

End JobRepository.

(** ** IEEE 754 double precision, for the statistics of the scheduler *)

Definition double : Type := spec_float.
Definition of_int (z : Z) : double := binary_normalize 53 1024 z 0 false.
Definition fadd : double -> double -> double := SFadd 53 1024.
Definition fmul : double -> double -> double := SFmul 53 1024.
Definition fdiv : double -> double -> double := SFdiv 53 1024.

Definition two_digits (b : Z) : string :=
  String (ascii_of_nat (48 + Z.to_nat (b / 10)))
    (String (ascii_of_nat (48 + Z.to_nat (b mod 10))) EmptyString).

(** The integer [n] nearest to [m * 2^e * 100], the larger one on a tie. *)
Definition scaled_round (m : positive) (e : Z) : Z :=
  if 0 <=? e then Z.pos m * 2 ^ e * 100
  else (200 * Z.pos m + 2 ^ (- e)) / 2 ^ (1 - e).

(** [x.toFixed(2)]. Magnitudes of 10^21 and more, which JavaScript
    prints in exponential notation, are printed positionally. *)
Definition toFixed2 (x : double) : string :=
  match x with
  | S754_nan => "NaN"
  | S754_infinity s => if s then "-Infinity" else "Infinity"
  | S754_zero _ => "0.00"
  | S754_finite s m e =>
      let n := scaled_round m e in
      (if s then "-" else "") +:+ pretty (n / 100) +:+ "."
      +:+ two_digits (n mod 100)
  end.

(** ** services/schedulerService.js: class SchedulerService *)

Module SchedulerService.

(** The object kept in [executionQueue] while a job runs; [e_id] is set
    once the execution row exists. *)
Record Execution : Type := mkExecution {
  e_jobId : JsOpt string;
  e_startTime : Z;
  e_status : ExecStatus;
  e_id : JsOpt nat
}.

(** A task of node-cron: its expression and the job captured by the
    callback. *)
Record Task : Type := mkTask {
  task_expression : JsOpt string;
  task_job : Job.t
}.

Record Stats : Type := mkStats {
  totalExecutions : Z;
  successfulExecutions : Z;
  failedExecutions : Z;
  averageExecutionTime : double
}.

Record t : Type := mk {
  activeTasks : gmap (JsOpt string) Task;
  executionQueue : gmap (JsOpt string) Execution;
  isRunning : bool;
  stats : Stats
}.

(** [new SchedulerService()] *)
Definition new : t :=
  {| activeTasks := ∅;
     executionQueue := ∅;
     isRunning := false;
     stats := mkStats 0 0 0 (of_int 0) |}.

(** The scheduler together with the store it works on. *)
Record World : Type := mkWorld {
  sched : t;
  db : Database
}.

Definition with_tasks (s : t) (m : gmap (JsOpt string) Task) : t :=
  {| activeTasks := m;
     executionQueue := executionQueue s;
     isRunning := isRunning s;
     stats := stats s |}.

Definition with_queue (s : t) (q : gmap (JsOpt string) Execution) : t :=
  {| activeTasks := activeTasks s;
     executionQueue := q;
     isRunning := isRunning s;
     stats := stats s |}.

Definition with_stats (s : t) (st : Stats) : t :=
  {| activeTasks := activeTasks s;
     executionQueue := executionQueue s;
     isRunning := isRunning s;
     stats := st |}.

(** [unscheduleJob(jobId)] *)
Definition unscheduleJob (jobId : JsOpt string) (s : t) : t :=
  if decide (is_Some (activeTasks s !! jobId)) then
    with_tasks s (delete jobId (activeTasks s))
  else s.

(** [updateServiceStats(duration, success)] *)
Definition updateServiceStats (duration : Z) (success : bool) (st : Stats)
  : Stats :=
  let total := totalExecutions st + 1 in
  {| totalExecutions := total;
     successfulExecutions :=
       if success then successfulExecutions st + 1
       else successfulExecutions st;
     failedExecutions :=
       if success then failedExecutions st else failedExecutions st + 1;
     averageExecutionTime :=
       fdiv (fadd (fmul (averageExecutionTime st) (of_int (total - 1)))
               (of_int duration))
         (of_int total) |}.

(** The [successRate] property: a number or a string. *)
Inductive NumOrStr : Type :=
  | JNumber (n : Z)
  | JString (s : string).

Record StatsView : Type := mkStatsView {
  v_totalExecutions : Z;
  v_successfulExecutions : Z;
  v_failedExecutions : Z;
  v_averageExecutionTime : double;
  v_isRunning : bool;
  v_activeJobs : nat;
  v_runningExecutions : nat;
  v_successRate : NumOrStr
}.

(** [getStats()] *)
Definition getStats (s : t) : StatsView :=
  {| v_totalExecutions := totalExecutions (stats s);
     v_successfulExecutions := successfulExecutions (stats s);
     v_failedExecutions := failedExecutions (stats s);
     v_averageExecutionTime := averageExecutionTime (stats s);
     v_isRunning := isRunning s;
     v_activeJobs := size (activeTasks s);
     v_runningExecutions := size (executionQueue s);
     v_successRate :=
       if 0 <? totalExecutions (stats s) then
         JString
           (toFixed2
              (fmul
                 (fdiv (of_int (successfulExecutions (stats s)))
                    (of_int (totalExecutions (stats s))))
                 (of_int 100)))
       else JNumber 0 |}.

(** [getScheduledJobs()], as a set. *)
Definition getScheduledJobs (s : t) : gset (JsOpt string) :=
  dom (activeTasks s).

(** The delay a Node.js timer really uses. *)
Definition timer_delay (d : Z) : Z :=
  if (1 <=? d) && (d <=? 2147483647) then d else 1.

(** [performJobExecution(job)]: the promise settles with a result, or is
    rejected with the message of the timeout error. [delay] is the
    simulated work, [Math.random() * 2000 + 500]; of two timers due at the
    same time the timeout, armed first, fires first. *)
Definition performJobExecution (job : Job.t) (delay executedAt : Z)
  : ExecResult + string :=
  let timeout := if Job.timeoutMs job =? 0 then 30000 else Job.timeoutMs job in
  if timer_delay timeout <=? timer_delay delay then
    inr "Job execution timeout"
  else
    let result ty msg :=
      {| res_type := ty; res_message := msg;
         res_payload := Job.payload job; res_executedAt := executedAt |} in
    inl (if String.eqb (Job.jobType job) "scheduled" then
           result "scheduled" "Scheduled job completed successfully"
         else if String.eqb (Job.jobType job) "immediate" then
           result "immediate" "Immediate job completed successfully"
         else if String.eqb (Job.jobType job) "recurring" then
           result "recurring" "Recurring job completed successfully"
         else result "default" "Job completed successfully").

(** [createExecutionRecord(jobId, status)]: the new store and the id of
    the inserted row; [None] when the query fails ([ok] is the answer of
    the store, and [job_id] is NOT NULL). *)
Definition createExecutionRecord (ok : bool) (dbnow : Z)
    (jobId : JsOpt string) (status : ExecStatus) (d : Database)
  : option (Database * nat) :=
  match ok, jobId with
  | true, Val jid =>
      let row :=
        {| ExecRow.id := next_uuid d;
           ExecRow.job_id := jid;
           ExecRow.status := status;
           ExecRow.started_at := dbnow;
           ExecRow.completed_at := None;
           ExecRow.duration_ms := None;
           ExecRow.error_message := None;
           ExecRow.retry_count := 0;
           ExecRow.output := Some OutEmpty |} in
      Some ({| jobs := jobs d;
               job_executions := job_executions d ++ [row];
               next_uuid := S (next_uuid d) |},
            next_uuid d)
  | _, _ => None
  end.

(** [updateExecutionRecord(executionId, status, duration, errorMessage,
    output)] *)
Definition updateExecutionRecord (ok : bool) (dbnow : Z) (executionId : nat)
    (status : ExecStatus) (duration : Z) (errorMessage : option string)
    (output : option ExecResult) (d : Database) : option Database :=
  if ok then
    Some {| jobs := jobs d;
            job_executions :=
              sql_update
                (fun r => bool_decide (ExecRow.id r = executionId))
                (fun r =>
                   {| ExecRow.id := ExecRow.id r;
                      ExecRow.job_id := ExecRow.job_id r;
                      ExecRow.status := status;
                      ExecRow.started_at := ExecRow.started_at r;
                      ExecRow.completed_at := Some dbnow;
                      ExecRow.duration_ms := Some duration;
                      ExecRow.error_message := errorMessage;
                      ExecRow.retry_count := ExecRow.retry_count r;
                      ExecRow.output := OutResult <$> output |})
                (job_executions d);
            next_uuid := next_uuid d |}
  else None.

(** What the environment answers during one run of [executeJob]: clock
    readings, the simulated work and the success of each query. A query
    fails when the connection does and when the store refuses its
    statement: [env_stats_ok] and [env_catch_stats_ok] are [false] for a
    call of [updateJobStats] that the store refuses. *)
Record Env : Type := mkEnv {
  env_start : Z;
  env_insert_ok : bool;
  env_insert_now : Z;
  env_delay : Z;
  env_executedAt : Z;
  env_end : Z;
  env_update_ok : bool;
  env_update_now : Z;
  env_stats_ok : bool;
  env_stats_date : Z;
  env_stats_now : Z;
  env_next_ok : bool;
  env_next_date : Z;
  env_next_now : Z;
  env_catch_end : Z;
  env_catch_update_ok : bool;
  env_catch_update_now : Z;
  env_catch_stats_ok : bool;
  env_catch_stats_date : Z;
  env_catch_stats_now : Z;
  env_query_error : string
}.

(** How a call of [executeJob] ends. *)
Inductive Outcome : Type :=
  | Skipped
  | Succeeded
  | Failed (message : string)
  | Rejected (message : string).

Section WithValidator.
Variable validate : string -> bool.

(** [cron.validate] on a property value. *)
Definition validate_js (v : JsOpt string) : bool :=
  match v with Val s => validate s | _ => false end.

(** [scheduleJob(job)] *)
Definition scheduleJob (job : Job.t) (s : t) : t :=
  if negb (validate_js (Job.cronExpression job)) then s
  else
    with_tasks s
      (<[Job.id job := mkTask (Job.cronExpression job) job]> (activeTasks s)).

(** The options of the query of [syncJobs] and [loadAndScheduleJobs]. *)
Definition activeOptions : JobRepository.FindOptions :=
  JobRepository.mkFindOptions 1 1000 (Some true).

(** [syncJobs()] runs in two stretches, with its [await] of the query in
    between, during which other calls ([stop()], handlers, timers) may
    run.

    The first stretch is the guard: [true] when the query is sent,
    [false] when the call returns at once. *)
Definition syncJobs_begin (s : t) : bool := isRunning s.

(** The second stretch runs when the query has settled, on the scheduler
    [s] as it is then; the running flag is not read again. [answer] is
    what [findAll] resolved to, [None] when it rejected (the [catch]
    logs the error). *)
Definition syncJobs_resume (answer : option JobRepository.FindResult) (s : t)
  : t :=
  match answer with
  | None => s
  | Some result =>
      let activeJobIds : gset (JsOpt string) :=
        list_to_set (map Job.id (JobRepository.fr_jobs result)) in
      let scheduledJobIds : gset (JsOpt string) := dom (activeTasks s) in
      let s1 :=
        foldl (fun s job =>
                 if decide (Job.id job ∈ scheduledJobIds) then s
                 else scheduleJob job s)
          s (JobRepository.fr_jobs result) in
      foldl (fun s jobId =>
               if decide (jobId ∈ activeJobIds) then s
               else unscheduleJob jobId s)
        s1 (elements scheduledJobIds)
  end.

(** A call of [syncJobs()] during which nothing else runs: the query is
    answered from the store of [w] ([ok] tells whether it succeeds) and
    the second stretch meets the scheduler the guard has seen. *)
Definition syncJobs (ok : bool) (w : World) : World :=
  if negb (syncJobs_begin (sched w)) then w
  else if negb ok then w
  else
    {| sched :=
         syncJobs_resume
           (Some (JobRepository.findAll activeOptions (db w))) (sched w);
       db := db w |}.

(** [updateNextRunTime(job)]: its own [try]/[catch] swallows a failing
    query, and an Invalid Date cannot be stored. *)
Definition updateNextRunTime (ok : bool) (date dbnow : Z) (job : Job.t)
    (d : Database) : Database :=
  match JobRepository.nextRunOf validate (Job.cronExpression job) date with
  | Some nextRunAt =>
      if ok then
        {| jobs :=
             sql_update (JobRepository.has_id (Job.id job))
               (fun r =>
                  {| Row.id := Row.id r;
                     Row.name := Row.name r;
                     Row.description := Row.description r;
                     Row.cron_expression := Row.cron_expression r;
                     Row.is_active := Row.is_active r;
                     Row.job_type := Row.job_type r;
                     Row.payload := Row.payload r;
                     Row.created_at := Row.created_at r;
                     Row.updated_at := Some dbnow;
                     Row.last_run_at := Row.last_run_at r;
                     Row.next_run_at := Some nextRunAt;
                     Row.total_runs := Row.total_runs r;
                     Row.successful_runs := Row.successful_runs r;
                     Row.failed_runs := Row.failed_runs r;
                     Row.timeout_ms := Row.timeout_ms r;
                     Row.max_retries := Row.max_retries r;
                     Row.retry_delay_ms := Row.retry_delay_ms r;
                     Row.created_by := Row.created_by r;
                     Row.tags := Row.tags r |})
               (jobs d);
           job_executions := job_executions d;
           next_uuid := next_uuid d |}
      else d
  | None => d
  end.

(** The [try] block of [executeJob]: the world it leaves and, when an
    error was thrown, the execution id known at that point and the
    message of the error. *)
Definition executeJob_try (env : Env) (job : Job.t) (w : World)
  : World * option (option nat * string) :=
  match createExecutionRecord (env_insert_ok env) (env_insert_now env)
          (Job.id job) running (db w) with
  | None => (w, Some (None, env_query_error env))
  | Some (d1, executionId) =>
      let q1 :=
        alter (fun e => mkExecution (e_jobId e) (e_startTime e) (e_status e)
                          (Val executionId))
          (Job.id job) (executionQueue (sched w)) in
      let w1 := {| sched := with_queue (sched w) q1; db := d1 |} in
      match performJobExecution job (env_delay env) (env_executedAt env) with
      | inr message => (w1, Some (Some executionId, message))
      | inl result =>
          let duration := env_end env - env_start env in
          match updateExecutionRecord (env_update_ok env) (env_update_now env)
                  executionId completed duration None (Some result) d1 with
          | None => (w1, Some (Some executionId, env_query_error env))
          | Some d2 =>
              let w2 := {| sched := sched w1; db := d2 |} in
              if env_stats_ok env then
                let d3 :=
                  fst (JobRepository.updateJobStats (Job.id job) true
                         (env_stats_date env) (env_stats_now env) d2) in
                let d4 :=
                  updateNextRunTime (env_next_ok env) (env_next_date env)
                    (env_next_now env) job d3 in
                ({| sched :=
                      with_stats (sched w1)
                        (updateServiceStats duration true (stats (sched w1)));
                    db := d4 |},
                 None)
              else (w2, Some (Some executionId, env_query_error env))
          end
      end
  end.

(** The [catch] block: [None] when it completes, the message of the error
    that escapes it otherwise. *)
Definition executeJob_catch (env : Env) (job : Job.t)
    (executionId : option nat) (message : string) (w : World)
  : World * option string :=
  let duration := env_catch_end env - env_start env in
  let updated : option Database :=
    match executionId with
    | Some eid =>
        updateExecutionRecord (env_catch_update_ok env)
          (env_catch_update_now env) eid failed duration (Some message) None
          (db w)
    | None => Some (db w)
    end in
  match updated with
  | None => (w, Some (env_query_error env))
  | Some d1 =>
      if env_catch_stats_ok env then
        let d2 :=
          fst (JobRepository.updateJobStats (Job.id job) false
                 (env_catch_stats_date env) (env_catch_stats_now env) d1) in
        ({| sched :=
              with_stats (sched w)
                (updateServiceStats duration false (stats (sched w)));
            db := d2 |},
         None)
      else ({| sched := sched w; db := d1 |}, Some (env_query_error env))
  end.

(** [executeJob(job)] after the guard: [try], [catch], [finally]. *)
Definition executeJob_run (env : Env) (job : Job.t) (w : World)
  : World * Outcome :=
  let '(w1, thrown) := executeJob_try env job w in
  let '(w2, outcome) :=
    match thrown with
    | None => (w1, Succeeded)
    | Some (executionId, message) =>
        match executeJob_catch env job executionId message w1 with
        | (w2, None) => (w2, Failed message)
        | (w2, Some escaped) => (w2, Rejected escaped)
        end
    end in
  ({| sched :=
        with_queue (sched w2) (delete (Job.id job) (executionQueue (sched w2)));
      db := db w2 |},
   outcome).

(** The synchronous start of [executeJob(job)]: the single-flight guard,
    then the entry in [executionQueue]. [None] when the firing is
    skipped. *)
Definition executeJob_enter (startTime : Z) (job : Job.t) (s : t)
  : option t :=
  if decide (is_Some (executionQueue s !! Job.id job)) then None
  else
    Some (with_queue s
            (<[Job.id job := mkExecution (Job.id job) startTime running
                               Undefined]> (executionQueue s))).

(** [executeJob(job)], run to completion. *)
Definition executeJob (env : Env) (job : Job.t) (w : World)
  : World * Outcome :=
  match executeJob_enter (env_start env) job (sched w) with
  | None => (w, Skipped)
  | Some s1 => executeJob_run env job {| sched := s1; db := db w |}
  end.

(** [loadAndScheduleJobs()]; [None] when the query fails, the error being
    thrown again. *)
Definition loadAndScheduleJobs (ok : bool) (w : World) : option World :=
  if negb ok then None
  else
    let result := JobRepository.findAll activeOptions (db w) in
    Some {| sched :=
              foldl (fun s job => scheduleJob job s) (sched w)
                (JobRepository.fr_jobs result);
            db := db w |}.

Definition with_running (s : t) (b : bool) : t :=
  {| activeTasks := activeTasks s;
     executionQueue := executionQueue s;
     isRunning := b;
     stats := stats s |}.

(** [start()]: the world it leaves, and whether the call rejects. The
    interval it arms is the source of the sync ticks. *)
Definition start (ok : bool) (w : World) : World * bool :=
  if isRunning (sched w) then (w, false)
  else
    let w0 := {| sched := with_running (sched w) true; db := db w |} in
    match loadAndScheduleJobs ok w0 with
    | Some w1 => (w1, false)
    | None => ({| sched := with_running (sched w0) false; db := db w |}, true)
    end.

(** [stop()], up to its wait for the running executions, which reads
    [executionQueue] and changes nothing. *)
Definition stop (w : World) : World :=
  if negb (isRunning (sched w)) then w
  else
    {| sched :=
         {| activeTasks := ∅;
            executionQueue := executionQueue (sched w);
            isRunning := false;
            stats := stats (sched w) |};
       db := db w |}.

End WithValidator.
End SchedulerService.

(** ** controllers/jobController.js: the manual trigger *)

Module JobController.

(** [POST /jobs/:id/trigger]: [None] is the 404 answer; [Some job] is the
    200 answer, with [scheduler.executeJob(job)] queued by
    [setImmediate]. *)
Definition triggerJob (id : string) (d : Database) : option Job.t :=
  JobRepository.findById (Val id) d.

End JobController.

(** ** The process: timers, triggers and pending executions

    A call of [executeJob] runs its synchronous start at once and the rest
    later, other events coming in between. [pending] lists the calls that
    have passed the guard and not yet reached [finally], each with its
    job and start time. A sync tick is one step when nothing comes
    between its guard and the answer of the store ([step_sync]); the
    second half of a tick that other events have overtaken is a step of
    its own, with any answer ([step_sync_resume]). *)

Module Process.

Record t : Type := mk {
  world : SchedulerService.World;
  pending : list (Job.t * Z)
}.

Definition initial (d : Database) : t :=
  {| world := SchedulerService.mkWorld SchedulerService.new d;
     pending := [] |}.

(** A call [executeJob(job)] at time [now]. *)
Definition fire (now : Z) (job : Job.t) (p : t) : t :=
  match SchedulerService.executeJob_enter now job
          (SchedulerService.sched (world p)) with
  | None => p
  | Some s1 =>
      {| world :=
           SchedulerService.mkWorld s1 (SchedulerService.db (world p));
         pending := (job, now) :: pending p |}
  end.

(** The executions of job [id] among the pending ones. *)
Definition flights (id : JsOpt string) (l : list (Job.t * Z))
  : list (Job.t * Z) :=
  filter (fun a => Job.id (fst a) = id) l.

Section WithValidator.
Variable validate : string -> bool.

Inductive step : t -> t -> Prop :=
  | step_timer p key task now :
      SchedulerService.activeTasks (SchedulerService.sched (world p)) !! key
      = Some task ->
      step p (fire now (SchedulerService.task_job task) p)
  | step_trigger p id job now :
      JobController.triggerJob id (SchedulerService.db (world p)) = Some job ->
      step p (fire now job p)
  | step_finish p i job env :
      pending p !! i = Some (job, SchedulerService.env_start env) ->
      step p
        {| world :=
             fst (SchedulerService.executeJob_run validate env job (world p));
           pending := delete i (pending p) |}
  | step_sync p ok :
      step p
        {| world := SchedulerService.syncJobs validate ok (world p);
           pending := pending p |}
  | step_sync_resume p answer :
      step p
        {| world :=
             SchedulerService.mkWorld
               (SchedulerService.syncJobs_resume validate answer
                  (SchedulerService.sched (world p)))
               (SchedulerService.db (world p));
           pending := pending p |}
  | step_schedule p job :
      step p
        {| world :=
             SchedulerService.mkWorld
               (SchedulerService.scheduleJob validate job
                  (SchedulerService.sched (world p)))
               (SchedulerService.db (world p));
           pending := pending p |}
  | step_unschedule p jobId :
      step p
        {| world :=
             SchedulerService.mkWorld
               (SchedulerService.unscheduleJob jobId
                  (SchedulerService.sched (world p)))
               (SchedulerService.db (world p));
           pending := pending p |}
  | step_running p b :
      step p
        {| world :=
             SchedulerService.mkWorld
               (SchedulerService.mk
                  (SchedulerService.activeTasks
                     (SchedulerService.sched (world p)))
                  (SchedulerService.executionQueue
                     (SchedulerService.sched (world p)))
                  b
                  (SchedulerService.stats (SchedulerService.sched (world p))))
               (SchedulerService.db (world p));
           pending := pending p |}
  | step_store p d :
      step p
        {| world :=
             SchedulerService.mkWorld (SchedulerService.sched (world p)) d;
           pending := pending p |}.

Inductive reachable : t -> Prop :=
  | reach_initial d : reachable (initial d)
  | reach_step p q : reachable p -> step p q -> reachable q.

End WithValidator.
End Process.

(** ** services/cacheService.js: class CacheService

    The two [Map]s are association lists in insertion order, with one
    binding per key. The readings of [Date.now()] within one call are one
    instant [now]. *)

Module CacheService.

Section WithValue.
Variable V : Type.

Record Entry : Type := mkEntry {
  value : V;
  createdAt : Z;
  lastAccessed : Z;
  expiresAt : option Z
}.

Record Stats : Type := mkStats {
  hits : Z;
  misses : Z;
  sets : Z;
  deletes : Z
}.

(** [ttlTimers] maps a key to the instant its timer is due. *)
Record t : Type := mk {
  cache : list (string * Entry);
  ttlTimers : list (string * Z);
  stats : Stats
}.

Definition new : t := mk [] [] (mkStats 0 0 0 0).

(** [Map.prototype.get] *)
Fixpoint map_get {A} (k : string) (m : list (string * A)) : option A :=
  match m with
  | [] => None
  | (k', a) :: m' => if String.eqb k k' then Some a else map_get k m'
  end.

(** [Map.prototype.has] *)
Definition map_has {A} (k : string) (m : list (string * A)) : bool :=
  match map_get k m with Some _ => true | None => false end.

(** [Map.prototype.set]: an existing key keeps its place, a new one goes
    last. *)
Fixpoint map_set {A} (k : string) (a : A) (m : list (string * A))
  : list (string * A) :=
  match m with
  | [] => [(k, a)]
  | (k', a') :: m' =>
      if String.eqb k k' then (k, a) :: m' else (k', a') :: map_set k a m'
  end.

(** [Map.prototype.delete]: no binding of the key is left. *)
Fixpoint map_delete {A} (k : string) (m : list (string * A))
  : list (string * A) :=
  match m with
  | [] => []
  | (k', a') :: m' =>
      if String.eqb k k' then map_delete k m'
      else (k', a') :: map_delete k m'
  end.

(** [delete(key)] *)
Definition delete (key : string) (s : t) : t * bool :=
  let existed := map_has key (cache s) in
  ({| cache := if existed then map_delete key (cache s) else cache s;
      ttlTimers :=
        if map_has key (ttlTimers s) then map_delete key (ttlTimers s)
        else ttlTimers s;
      stats :=
        if existed then
          mkStats (hits (stats s)) (misses (stats s)) (sets (stats s))
            (deletes (stats s) + 1)
        else stats s |},
   existed).

(** [entry.expiresAt && now > entry.expiresAt] *)
Definition expired (now : Z) (e : Entry) : bool :=
  match expiresAt e with
  | Some x => negb (x =? 0) && (x <? now)
  | None => false
  end.

(** [get(key)]; [None] is [null]. *)
Definition get (key : string) (now : Z) (s : t) : t * option V :=
  match map_get key (cache s) with
  | Some entry =>
      if expired now entry then
        let s1 := fst (delete key s) in
        ({| cache := cache s1;
            ttlTimers := ttlTimers s1;
            stats :=
              mkStats (hits (stats s1)) (misses (stats s1) + 1)
                (sets (stats s1)) (deletes (stats s1)) |},
         None)
      else
        ({| cache :=
              map_set key
                (mkEntry (value entry) (createdAt entry) now (expiresAt entry))
                (cache s);
            ttlTimers := ttlTimers s;
            stats :=
              mkStats (hits (stats s) + 1) (misses (stats s)) (sets (stats s))
                (deletes (stats s)) |},
         Some (value entry))
  | None =>
      ({| cache := cache s;
          ttlTimers := ttlTimers s;
          stats :=
            mkStats (hits (stats s)) (misses (stats s) + 1) (sets (stats s))
              (deletes (stats s)) |},
       None)
  end.

(** [evictLRU()]: the oldest tenth by last access, ties in insertion
    order ([Math.floor(n * 0.1)] is the integer quotient of [n] by 10). *)
Definition evictLRU (s : t) : t :=
  let entries := cache s in
  let sorted :=
    order_by (fun a b => lastAccessed (snd a) <=? lastAccessed (snd b))
      entries in
  let toRemove := (length entries / 10)%nat in
  foldl (fun s kv => fst (delete (fst kv) s)) s (take toRemove sorted).

(** A [ttlMs] argument that is truthy. *)
Definition ttl_given (ttlMs : option Z) : option Z :=
  match ttlMs with
  | Some n => if n =? 0 then None else Some n
  | None => None
  end.

(** The delay a Node.js timer really uses. *)
Definition timer_delay (d : Z) : Z :=
  if (1 <=? d) && (d <=? 2147483647) then d else 1.

(** [set(key, value, ttlMs)] *)
Definition set (key : string) (v : V) (ttlMs : option Z) (now : Z) (s : t)
  : t :=
  let entry :=
    {| value := v;
       createdAt := now;
       lastAccessed := now;
       expiresAt := (fun n => now + n) <$> ttl_given ttlMs |} in
  let timers1 :=
    if map_has key (ttlTimers s) then map_delete key (ttlTimers s)
    else ttlTimers s in
  let s1 :=
    {| cache := map_set key entry (cache s);
       ttlTimers :=
         match ttl_given ttlMs with
         | Some n => map_set key (now + timer_delay n) timers1
         | None => timers1
         end;
       stats :=
         mkStats (hits (stats s)) (misses (stats s)) (sets (stats s) + 1)
           (deletes (stats s)) |} in
  if (1000 <? length (cache s1))%nat then evictLRU s1 else s1.

(** The callback of the timer armed by [set]. *)
Definition timer_fired (key : string) (s : t) : t := fst (delete key s).

(** [has(key)]: [get(key) !== null]; [is_null] tells which cached values
    are [null]. *)
Definition has (is_null : V -> bool) (key : string) (now : Z) (s : t)
  : t * bool :=
  let '(s1, r) := get key now s in
  (s1, match r with Some v => negb (is_null v) | None => false end).

(** [clear()] *)
Definition clear (s : t) : t := mk [] [] (mkStats 0 0 0 0).

(** [keys()] *)
Definition keys (s : t) : list string := map fst (cache s).

(** [size()] *)
Definition size (s : t) : nat := length (cache s).

(** [cleanup()]: the entries are visited in insertion order; deleting the
    entry under visit leaves the others to be visited. *)
Definition cleanup (now : Z) (s : t) : t :=
  foldl (fun s kv => if expired now (snd kv) then fst (delete (fst kv) s) else s)
    s (cache s).

(** The calls a client and the timers make on a cache. A timer calls back
    only while it is armed. *)
Inductive Op : Type :=
  | OpGet (key : string) (now : Z)
  | OpSet (key : string) (v : V) (ttlMs : option Z) (now : Z)
  | OpDelete (key : string)
  | OpHas (key : string) (now : Z)
  | OpClear
  | OpCleanup (now : Z)
  | OpEvictLRU
  | OpTimer (key : string).

Definition step (is_null : V -> bool) (s : t) (op : Op) : t :=
  match op with
  | OpGet key now => fst (get key now s)
  | OpSet key v ttlMs now => set key v ttlMs now s
  | OpDelete key => fst (delete key s)
  | OpHas key now => fst (has is_null key now s)
  | OpClear => clear s
  | OpCleanup now => cleanup now s
  | OpEvictLRU => evictLRU s
  | OpTimer key => if map_has key (ttlTimers s) then timer_fired key s else s
  end.

(** The cache after a sequence of calls on a new one. *)
Definition exec (is_null : V -> bool) (ops : list Op) : t :=
  foldl (step is_null) new ops.

(** The number of lookups ([get], [has]) since the last [clear]. *)
Fixpoint lookups (ops : list Op) (n : Z) : Z :=
  match ops with
  | [] => n
  | OpClear :: ops' => lookups ops' 0
  | (OpGet _ _ | OpHas _ _) :: ops' => lookups ops' (n + 1)
  | _ :: ops' => lookups ops' n
  end.

End WithValue.
End CacheService.

(** ** Runs of the cache

    The states the cache goes through when its operations are called at
    instants that do not decrease; the index is the instant of the last
    call. *)

Definition cache_ok {V} (now : Z) (s : CacheService.t V) : Prop :=
  (length (CacheService.cache V s) <= 1000)%nat
  /\ forall k e, (k, e) ∈ CacheService.cache V s ->
                 CacheService.lastAccessed V e <= now.

Inductive cache_run {V} : Z -> CacheService.t V -> Prop :=
  | run_new now : cache_run now (CacheService.new V)
  | run_get now s key t :
      cache_run now s -> now <= t ->
      cache_run t (fst (CacheService.get V key t s))
  | run_set now s key v ttlMs t :
      cache_run now s -> now <= t ->
      cache_run t (CacheService.set V key v ttlMs t s)
  | run_delete now s key :
      cache_run now s -> cache_run now (fst (CacheService.delete V key s))
  | run_timer now s key :
      cache_run now s -> cache_run now (CacheService.timer_fired V key s)
  | run_wait now s t : cache_run now s -> now <= t -> cache_run t s.

(** ** The two maps and the counters of the cache hold together

    Each map has one binding per key; the cache is within its bound; a
    key has an armed timer exactly when its entry has an expiry time, and
    the timer is due when the TTL has elapsed since the entry was stored,
    or one millisecond after it was stored when the TTL is not a delay a
    timer accepts; the entries
    and the deletions counted do not exceed the number of [set]s. *)
Definition cache_consistent {V} (s : CacheService.t V) : Prop :=
  NoDup (CacheService.keys V s)
  /\ NoDup (map fst (CacheService.ttlTimers V s))
  /\ (CacheService.size V s <= 1000)%nat
  /\ (forall key d,
        CacheService.map_get key (CacheService.ttlTimers V s) = Some d ->
        exists e x,
          CacheService.map_get key (CacheService.cache V s) = Some e
          /\ CacheService.expiresAt V e = Some x
          /\ d = CacheService.createdAt V e
                 + CacheService.timer_delay (x - CacheService.createdAt V e))
  /\ (forall key e,
        CacheService.map_get key (CacheService.cache V s) = Some e ->
        is_Some (CacheService.expiresAt V e) ->
        is_Some (CacheService.map_get key (CacheService.ttlTimers V s)))
  /\ 0 <= CacheService.deletes (CacheService.stats V s)
  /\ Z.of_nat (CacheService.size V s)
     + CacheService.deletes (CacheService.stats V s)
     <= CacheService.sets (CacheService.stats V s).

(** ** The specification's reading of the cron hot paths

    The four shapes [* * * * *], [*/N * * * *], [M * * * *] and
    [M H * * *], and what it means for an instant to match one of them
    in the civil time of Asia/Kolkata (UTC+5:30). *)

Inductive HotPath : Type :=
  | EveryMinute
  | EveryN (n : Z)
  | AtMinute (m : Z)
  | DailyAt (m h : Z).

(** The number written by a string of decimal digits. *)
Fixpoint decimal_acc (acc : Z) (s : string) : Z :=
  match s with
  | EmptyString => acc
  | String c s' => decimal_acc (10 * acc + (Z.of_nat (nat_of_ascii c) - 48)) s'
  end.

Definition decimal_value (s : string) : Z := decimal_acc 0 s.

(** [expr] is the text of the hot path [p]. *)
Definition hot_path_text (p : HotPath) (expr : string) : Prop :=
  match p with
  | EveryMinute => expr = "* * * * *"
  | EveryN n =>
      exists ds, is_decimal ds = true /\ decimal_value ds = n
                 /\ expr = "*/" +:+ ds +:+ " * * * *"
  | AtMinute m =>
      exists ds, is_decimal ds = true /\ decimal_value ds = m
                 /\ expr = ds +:+ " * * * *"
  | DailyAt m h =>
      exists dm dh, is_decimal dm = true /\ decimal_value dm = m
                    /\ is_decimal dh = true /\ decimal_value dh = h
                    /\ expr = dm +:+ " " +:+ dh +:+ " * * *"
  end.

Definition istMinute (t : Z) : Z := MinFromTime (t + istOffset).
Definition istHour (t : Z) : Z := HourFromTime (t + istOffset).

(** The instant [t] is on a minute boundary (seconds and milliseconds
    zero) and its civil minute and hour satisfy the pattern. *)
Definition cron_matches (p : HotPath) (t : Z) : bool :=
  (t mod msPerMinute =? 0)
  && match p with
     | EveryMinute => true
     | EveryN n => istMinute t mod n =? 0
     | AtMinute m => istMinute t =? m
     | DailyAt m h => (istMinute t =? m) && (istHour t =? h)
     end.

(** [t1] is the smallest matching instant strictly after [t0]. *)
Definition next_after (p : HotPath) (t0 t1 : Z) : Prop :=
  t0 < t1 /\ cron_matches p t1 = true
  /\ forall t, t0 < t -> cron_matches p t = true -> t1 <= t.

(** The ranges of the numbers of a hot path; for a step, the divisors of
    60, on which the wrap into the next hour is exact. *)
Definition hot_path_ok (p : HotPath) : Prop :=
  match p with
  | EveryMinute => True
  | EveryN n => 1 <= n < 60 /\ 60 mod n = 0
  | AtMinute m => 0 <= m <= 59
  | DailyAt m h => 0 <= m <= 59 /\ 0 <= h <= 23
  end.

(** The guards of the four special-cased branches of
    [calculateNextRunTime], in the order of the source. *)
Definition special_cased (cronExpression : string) : bool :=
  let parts := split cronExpression in
  match parts !! 0%nat with
  | None => false
  | Some minute =>
      String.eqb cronExpression "* * * * *"
      || startsWith minute "*/"
      || (negb (String.eqb minute "*")
          && bool_decide (parts !! 1%nat = Some "*"))
      || (negb (String.eqb minute "*")
          && negb (bool_decide (parts !! 1%nat = Some "*"))
          && bool_decide (parts !! 2%nat = Some "*")
          && bool_decide (parts !! 3%nat = Some "*"))
  end.

(** Applying the evaluator to its own result gives a strictly later
    instant (both results being valid dates). *)
Definition advances (validate : string -> bool) (expr : string) (t : Z)
  : Prop :=
  exists t1 t2,
    calculateNextRunTime validate expr t = Some t1
    /\ calculateNextRunTime validate expr t1 = Some t2
    /\ t1 < t2.

(** The start of the civil hour after the one of [t0], as a UTC
    instant. *)
Definition next_ist_hour (t0 : Z) : Z :=
  ((t0 + istOffset) / msPerHour + 1) * msPerHour - istOffset.

(** ** The single-flight invariant of the process

    The pending executions of a job id are one when the id is in
    [executionQueue], none otherwise. *)
Definition single_flight (p : Process.t) : Prop :=
  forall id,
    length (Process.flights id (Process.pending p))
    = if decide (is_Some
                   (SchedulerService.executionQueue
                      (SchedulerService.sched (Process.world p)) !! id))
      then 1%nat else 0%nat.

(** ** The sync tick as the specification words it

    The ids that have a timer after a tick, were the active-job set loaded
    with [getActiveJobs()]: the timers whose id is in the loaded set, and
    the loaded jobs that had no timer. *)
Definition claimed_timer_ids (dbnow : Z) (w : SchedulerService.World)
  : gset (JsOpt string) :=
  let loaded : gset (JsOpt string) :=
    list_to_set (map Job.id (JobRepository.getActiveJobs dbnow
                               (SchedulerService.db w))) in
  let timers := dom (SchedulerService.activeTasks (SchedulerService.sched w)) in
  (timers ∩ loaded) ∪ (loaded ∖ timers).

(** ** A fixed-two-decimal string, and a finite double *)

Definition fixed2 (str : string) : Prop :=
  exists ip a b,
    str = ip +:+ "." +:+ String a (String b EmptyString)
    /\ is_digit a = true /\ is_digit b = true.

Definition is_finite (x : double) : Prop :=
  match x with
  | S754_zero _ | S754_finite _ _ _ => True
  | _ => False
  end.

(** ** Sample data

    A daily job at 09:00 with a one-second timeout and no retries, next
    due at 03:30:00Z; the store that holds it; the answers of an
    environment in which every query succeeds and the simulated work takes
    two seconds. *)

Definition sample_row : Row.t :=
  {| Row.id := "j1";
     Row.name := "report";
     Row.description := None;
     Row.cron_expression := "0 9 * * *";
     Row.is_active := Some true;
     Row.job_type := "scheduled";
     Row.payload := Some emptyObject;
     Row.created_at := Some 1000;
     Row.updated_at := Some 1000;
     Row.last_run_at := None;
     Row.next_run_at := Some 12600000;
     Row.total_runs := Some 0;
     Row.successful_runs := Some 0;
     Row.failed_runs := Some 0;
     Row.timeout_ms := Some 1000;
     Row.max_retries := Some 0;
     Row.retry_delay_ms := Some 5000;
     Row.created_by := Some "alice";
     Row.tags := Some [] |}.

Definition sample_db : Database := mkDatabase [sample_row] [] 0.

(** A job whose run counter has reached the end of its INTEGER column. *)
Definition sample_row_saturated : Row.t :=
  {| Row.id := "j1";
     Row.name := "report";
     Row.description := None;
     Row.cron_expression := "0 9 * * *";
     Row.is_active := Some true;
     Row.job_type := "scheduled";
     Row.payload := Some emptyObject;
     Row.created_at := Some 1000;
     Row.updated_at := Some 1000;
     Row.last_run_at := Some 900;
     Row.next_run_at := Some 12600000;
     Row.total_runs := Some 2147483647;
     Row.successful_runs := Some 2147483640;
     Row.failed_runs := Some 7;
     Row.timeout_ms := Some 1000;
     Row.max_retries := Some 0;
     Row.retry_delay_ms := Some 5000;
     Row.created_by := Some "alice";
     Row.tags := Some [] |}.

Definition sample_db_saturated : Database :=
  mkDatabase [sample_row_saturated] [] 0.

Definition sample_job : Job.t := Job.new (Data.of_row sample_row).

Definition sample_env : SchedulerService.Env :=
  {| SchedulerService.env_start := 5000;
     SchedulerService.env_insert_ok := true;
     SchedulerService.env_insert_now := 5001;
     SchedulerService.env_delay := 2000;
     SchedulerService.env_executedAt := 7001;
     SchedulerService.env_end := 7002;
     SchedulerService.env_update_ok := true;
     SchedulerService.env_update_now := 7003;
     SchedulerService.env_stats_ok := true;
     SchedulerService.env_stats_date := 7004;
     SchedulerService.env_stats_now := 7005;
     SchedulerService.env_next_ok := true;
     SchedulerService.env_next_date := 7006;
     SchedulerService.env_next_now := 7007;
     SchedulerService.env_catch_end := 6002;
     SchedulerService.env_catch_update_ok := true;
     SchedulerService.env_catch_update_now := 6003;
     SchedulerService.env_catch_stats_ok := true;
     SchedulerService.env_catch_stats_date := 6004;
     SchedulerService.env_catch_stats_now := 6005;
     SchedulerService.env_query_error := "connection terminated" |}.

(** A patch that renames the job and names nothing else. *)
Definition sample_patch : Patch.t :=
  Patch.mk (Some "renamed") None None None None None None None None None None.

(** The sample job as [update] stores it for that patch at 9001 on the
    clock of the store. *)
Definition sample_row_renamed : Row.t :=
  {| Row.id := "j1";
     Row.name := "renamed";
     Row.description := None;
     Row.cron_expression := "0 9 * * *";
     Row.is_active := Some true;
     Row.job_type := "scheduled";
     Row.payload := Some emptyObject;
     Row.created_at := Some 1000;
     Row.updated_at := Some 9001;
     Row.last_run_at := None;
     Row.next_run_at := Some 12600000;
     Row.total_runs := Some 0;
     Row.successful_runs := Some 0;
     Row.failed_runs := Some 0;
     Row.timeout_ms := Some 1000;
     Row.max_retries := Some 3;
     Row.retry_delay_ms := Some 5000;
     Row.created_by := Some "alice";
     Row.tags := Some [] |}.

(** A running scheduler without timers over the sample store. *)
Definition sample_world : SchedulerService.World :=
  SchedulerService.mkWorld
    (SchedulerService.mk ∅ ∅ true (SchedulerService.mkStats 0 0 0 (of_int 0)))
    sample_db.

(** The process after a manual trigger of the sample job at time 5000. *)
Definition sample_process : Process.t :=
  Process.fire 5000 sample_job (Process.initial sample_db).

(** ** More sample data

    The body of a request that creates an active job running every five
    minutes, and the row the store holds for it when the id drawn is
    [j2] and the clock of the store reads 9001. *)

Definition sample_body : Data.t :=
  {| Data.id := Undefined;
     Data.name := Val "nightly";
     Data.description := Undefined;
     Data.cron_expression := Undefined;
     Data.cronExpression := Val "*/5 * * * *";
     Data.is_active := Undefined;
     Data.isActive := Val true;
     Data.job_type := Undefined;
     Data.jobType := Undefined;
     Data.payload := Undefined;
     Data.created_at := Undefined;
     Data.createdAt := Undefined;
     Data.updated_at := Undefined;
     Data.updatedAt := Undefined;
     Data.last_run_at := Undefined;
     Data.lastRunAt := Undefined;
     Data.next_run_at := Undefined;
     Data.nextRunAt := Undefined;
     Data.total_runs := Undefined;
     Data.totalRuns := Undefined;
     Data.successful_runs := Undefined;
     Data.successfulRuns := Undefined;
     Data.failed_runs := Undefined;
     Data.failedRuns := Undefined;
     Data.timeout_ms := Undefined;
     Data.timeoutMs := Undefined;
     Data.max_retries := Undefined;
     Data.maxRetries := Undefined;
     Data.retry_delay_ms := Undefined;
     Data.retryDelayMs := Undefined;
     Data.created_by := Undefined;
     Data.createdBy := Undefined;
     Data.tags := Undefined |}.

Definition sample_created_row : Row.t :=
  {| Row.id := "j2";
     Row.name := "nightly";
     Row.description := None;
     Row.cron_expression := "*/5 * * * *";
     Row.is_active := Some true;
     Row.job_type := "scheduled";
     Row.payload := Some emptyObject;
     Row.created_at := Some 9001;
     Row.updated_at := Some 9001;
     Row.last_run_at := None;
     Row.next_run_at := Some 3609001;
     Row.total_runs := Some 0;
     Row.successful_runs := Some 0;
     Row.failed_runs := Some 0;
     Row.timeout_ms := Some 30000;
     Row.max_retries := Some 3;
     Row.retry_delay_ms := Some 5000;
     Row.created_by := None;
     Row.tags := Some [] |}.

(** The answers of an environment in which every query succeeds and the
    simulated work takes half a second. *)
Definition sample_env_fast : SchedulerService.Env :=
  {| SchedulerService.env_start := 5000;
     SchedulerService.env_insert_ok := true;
     SchedulerService.env_insert_now := 5001;
     SchedulerService.env_delay := 500;
     SchedulerService.env_executedAt := 5501;
     SchedulerService.env_end := 5502;
     SchedulerService.env_update_ok := true;
     SchedulerService.env_update_now := 5503;
     SchedulerService.env_stats_ok := true;
     SchedulerService.env_stats_date := 5504;
     SchedulerService.env_stats_now := 5505;
     SchedulerService.env_next_ok := true;
     SchedulerService.env_next_date := 5506;
     SchedulerService.env_next_now := 5507;
     SchedulerService.env_catch_end := 5502;
     SchedulerService.env_catch_update_ok := true;
     SchedulerService.env_catch_update_now := 5503;
     SchedulerService.env_catch_stats_ok := true;
     SchedulerService.env_catch_stats_date := 5504;
     SchedulerService.env_catch_stats_now := 5505;
     SchedulerService.env_query_error := "connection terminated" |}.

(** The answers of an environment whose store refuses the insertion of
    the execution row and answers the other queries. *)
Definition sample_env_refused : SchedulerService.Env :=
  {| SchedulerService.env_start := 5000;
     SchedulerService.env_insert_ok := false;
     SchedulerService.env_insert_now := 5001;
     SchedulerService.env_delay := 500;
     SchedulerService.env_executedAt := 5501;
     SchedulerService.env_end := 5502;
     SchedulerService.env_update_ok := true;
     SchedulerService.env_update_now := 5503;
     SchedulerService.env_stats_ok := true;
     SchedulerService.env_stats_date := 5504;
     SchedulerService.env_stats_now := 5505;
     SchedulerService.env_next_ok := true;
     SchedulerService.env_next_date := 5506;
     SchedulerService.env_next_now := 5507;
     SchedulerService.env_catch_end := 5002;
     SchedulerService.env_catch_update_ok := true;
     SchedulerService.env_catch_update_now := 5003;
     SchedulerService.env_catch_stats_ok := true;
     SchedulerService.env_catch_stats_date := 5004;
     SchedulerService.env_catch_stats_now := 5005;
     SchedulerService.env_query_error := "violates foreign key constraint" |}.

(** ** The counters of the scheduler agree *)

Definition stats_consistent (st : SchedulerService.Stats) : Prop :=
  SchedulerService.totalExecutions st
  = SchedulerService.successfulExecutions st
    + SchedulerService.failedExecutions st
  /\ 0 <= SchedulerService.successfulExecutions st
  /\ 0 <= SchedulerService.failedExecutions st.

(** ** What a run of [executeJob] may change in the store

    Between the stores [d] and [d']: an execution with the status
    [timeout] in [d'] was already in [d]; the job rows of [d] with an id
    other than [id] are at their place in [d'], and no job row is added
    or removed. *)
Definition store_frame (id : JsOpt string) (d d' : Database) : Prop :=
  (forall x, x ∈ job_executions d' -> ExecRow.status x = timeout ->
             x ∈ job_executions d)
  /\ (forall i row, jobs d !! i = Some row ->
        JobRepository.has_id id row = false -> jobs d' !! i = Some row)
  /\ length (jobs d') = length (jobs d).

(** ** A row whose [updated_at] alone is stamped *)

Definition touch (dbnow : Z) (r : Row.t) : Row.t :=
  {| Row.id := Row.id r;
     Row.name := Row.name r;
     Row.description := Row.description r;
     Row.cron_expression := Row.cron_expression r;
     Row.is_active := Row.is_active r;
     Row.job_type := Row.job_type r;
     Row.payload := Row.payload r;
     Row.created_at := Row.created_at r;
     Row.updated_at := Some dbnow;
     Row.last_run_at := Row.last_run_at r;
     Row.next_run_at := Row.next_run_at r;
     Row.total_runs := Row.total_runs r;
     Row.successful_runs := Row.successful_runs r;
     Row.failed_runs := Row.failed_runs r;
     Row.timeout_ms := Row.timeout_ms r;
     Row.max_retries := Row.max_retries r;
     Row.retry_delay_ms := Row.retry_delay_ms r;
     Row.created_by := Row.created_by r;
     Row.tags := Row.tags r |}.

(** ** controllers/jobController.js: the handlers, the store and the cache

    The handlers work on the scheduler, the store and the cache of the
    process. A handler is given the instants its clock readings return;
    the store is taken to answer every query. *)

(** [if (job.isActive)] *)
Definition truthy_bool (v : JsOpt bool) : bool :=
  match v with Val b => b | _ => false end.

Module Controller.

(** What the handlers keep in the cache: a job under [job:<id>], a page
    of jobs under [jobs:<options>]. *)
Inductive Cached : Type :=
  | CachedJob (job : Job.t)
  | CachedPage (result : JobRepository.FindResult).

Record App : Type := mkApp {
  world : SchedulerService.World;
  cache : CacheService.t Cached
}.

(** A row of the execution history, as the handlers return it. *)
Record ExecView : Type := mkExecView {
  ev_id : nat;
  ev_status : ExecStatus;
  ev_startedAt : Z;
  ev_completedAt : option Z;
  ev_durationMs : option Z;
  ev_errorMessage : option string;
  ev_retryCount : Z
}.

Record History : Type := mkHistory {
  h_executions : list ExecView;
  h_page : Z;
  h_limit : Z;
  h_total : Z;
  h_totalPages : Z
}.

(** [getJobExecutionHistory(jobId, {page, limit})]: [WHERE job_id = $1
    ORDER BY started_at DESC LIMIT limit OFFSET (page - 1) * limit], and
    the count of the executions of the job. *)
Definition getJobExecutionHistory (jobId : string) (page limit : Z)
    (d : Database) : History :=
  let offset := (page - 1) * limit in
  let matching :=
    filter (fun e => ExecRow.job_id e = jobId) (job_executions d) in
  let sorted :=
    order_by (fun a b => ExecRow.started_at b <=? ExecRow.started_at a)
      matching in
  let rows := take (Z.to_nat limit) (drop (Z.to_nat offset) sorted) in
  {| h_executions :=
       map (fun e =>
              {| ev_id := ExecRow.id e;
                 ev_status := ExecRow.status e;
                 ev_startedAt := ExecRow.started_at e;
                 ev_completedAt := ExecRow.completed_at e;
                 ev_durationMs := ExecRow.duration_ms e;
                 ev_errorMessage := ExecRow.error_message e;
                 ev_retryCount := ExecRow.retry_count e |}) rows;
     h_page := page;
     h_limit := limit;
     h_total := Z.of_nat (length matching);
     h_totalPages := ceil_div (Z.of_nat (length matching)) limit |}.

(** [invalidateJobCache(jobId)] *)
Definition invalidateJobCache (jobId : string) (c : CacheService.t Cached)
  : CacheService.t Cached :=
  fst (CacheService.delete Cached ("job:" +:+ jobId) c).

(** [invalidateJobsCache()]: the keys are listed first, then visited. *)
Definition invalidateJobsCache (c : CacheService.t Cached)
  : CacheService.t Cached :=
  foldl (fun c key =>
           if startsWith key "jobs:" then fst (CacheService.delete Cached key c)
           else c)
    c (CacheService.keys Cached c).

(** The answers of the handlers: a success with its HTTP status, 404,
    400 with the validation errors, 500. *)
Inductive Reply : Type :=
  | ReplySuccess (status : Z) (job : Job.t)
  | ReplyNotFound
  | ReplyInvalid (errors : list string)
  | ReplyError.

Inductive JobReply : Type :=
  | JobFound (job : Job.t) (executionHistory : History) (isScheduled : bool)
  | JobNotFound
  | JobError.

(** [GET /jobs/:id]; [now] is the clock at the cache lookup, [now'] at
    the cache fill. A cached value that is not a job has no [toJSON] and
    the handler answers 500. *)
Definition getJobById (id : string) (now now' : Z) (a : App)
  : App * JobReply :=
  let cacheKey := "job:" +:+ id in
  let d := SchedulerService.db (world a) in
  let '(c1, hit) := CacheService.get Cached cacheKey now (cache a) in
  let '(c2, job) :=
    match hit with
    | Some v => (c1, Some v)
    | None =>
        match JobRepository.findById (Val id) d with
        | Some j =>
            (CacheService.set Cached cacheKey (CachedJob j)
               (Some (10 * 60 * 1000)) now' c1,
             Some (CachedJob j))
        | None => (c1, None)
        end
    end in
  let a' := {| world := world a; cache := c2 |} in
  match job with
  | None => (a', JobNotFound)
  | Some (CachedJob j) =>
      (a',
       JobFound j (getJobExecutionHistory id 1 20 d)
         (bool_decide
            (Val id
             ∈ SchedulerService.getScheduledJobs
                 (SchedulerService.sched (world a)))))
  | Some (CachedPage _) => (a', JobError)
  end.

(** [DELETE /jobs/:id] *)
Definition deleteJob (id : string) (a : App) : App * Reply :=
  match JobRepository.delete (Val id) (SchedulerService.db (world a)) with
  | (_, None) => (a, ReplyNotFound)
  | (d', Some deletedJob) =>
      ({| world :=
            SchedulerService.mkWorld
              (SchedulerService.unscheduleJob (Val id)
                 (SchedulerService.sched (world a)))
              d';
          cache := invalidateJobsCache (invalidateJobCache id (cache a)) |},
       ReplySuccess 200 deletedJob)
  end.

Section WithValidator.
Variable validate : string -> bool.

(** [POST /jobs]; the arguments after the body are those of
    [JobRepository.create]. *)
Definition createJob (jobData : Data.t) (newId : string) (date dbnow : Z)
    (a : App) : App * Reply :=
  match JobRepository.create validate jobData newId date dbnow
          (SchedulerService.db (world a)) with
  | (_, JobRepository.CreateInvalid errors) => (a, ReplyInvalid errors)
  | (_, JobRepository.CreateRefused) => (a, ReplyError)
  | (d', JobRepository.Created job) =>
      let s := SchedulerService.sched (world a) in
      ({| world :=
            SchedulerService.mkWorld
              (if truthy_bool (Job.isActive job)
               then SchedulerService.scheduleJob validate job s else s)
              d';
          cache := invalidateJobsCache (cache a) |},
       ReplySuccess 201 job)
  end.

(** [PUT /jobs/:id]; the arguments after the patch are those of
    [JobRepository.update]. *)
Definition updateJob (id : string) (updateData : Patch.t) (date dbnow : Z)
    (a : App) : App * Reply :=
  match JobRepository.update validate (Val id) updateData date dbnow
          (SchedulerService.db (world a)) with
  | (_, JobRepository.NotFound) => (a, ReplyNotFound)
  | (_, JobRepository.ValidationFailed errors) => (a, ReplyInvalid errors)
  | (_, JobRepository.QueryFailed) => (a, ReplyError)
  | (d', JobRepository.Updated updatedJob) =>
      let s := SchedulerService.sched (world a) in
      ({| world :=
            SchedulerService.mkWorld
              (if truthy_bool (Job.isActive updatedJob)
               then SchedulerService.scheduleJob validate updatedJob s
               else SchedulerService.unscheduleJob (Val id) s)
              d';
          cache := invalidateJobsCache (invalidateJobCache id (cache a)) |},
       ReplySuccess 200 updatedJob)
  end.

(** The loop of [validateCronExpression]: [n] next runs, each computed
    one second after the one before. An Invalid Date as base instant
    makes every field NaN and the result an Invalid Date again. *)
Fixpoint nextRuns (n : nat) (cronExpression : string) (currentTime : option Z)
  : list (option Z) :=
  match n with
  | O => []
  | S n' =>
      let nextRun :=
        match currentTime with
        | Some t => calculateNextRunTime validate cronExpression t
        | None => None
        end in
      nextRun :: nextRuns n' cronExpression ((fun t => t + 1000) <$> nextRun)
  end.

Inductive CronReply : Type :=
  | CronMissing
  | CronInvalid
  | CronValid (runs : list (option Z)).

(** [POST /jobs/validate-cron]; [now] is [new Date()]. *)
Definition validateCronExpression (cronExpression : JsOpt string) (now : Z)
  : CronReply :=
  match cronExpression with
  | Val expr =>
      if String.eqb expr "" then CronMissing
      else if negb (validate expr) then CronInvalid
      else CronValid (nextRuns 5 expr (Some now))
  | _ => CronMissing
  end.

End WithValidator.
End Controller.

(* ===================================================================== *)
(** * Part II: properties                                                 *)
(* ===================================================================== *)

(** ** Date arithmetic *)

Ltac date_unfold :=
  unfold setSeconds, setMinutes, setMinutes3, setHours, setHours4,
    setDate_next, getHours, getMinutes, MakeDate, MakeTime, Day,
    TimeWithinDay, HourFromTime, MinFromTime, SecFromTime, msFromTime,
    msPerDay, msPerHour, msPerMinute, msPerSecond, istOffset in *.

Ltac date_arith := date_unfold; Z.div_mod_to_equations; lia.

Lemma time_decompose t :
  MakeDate (Day t)
    (MakeTime (HourFromTime t) (MinFromTime t) (SecFromTime t) (msFromTime t))
  = t.
Proof. date_arith. Qed.

Lemma setSeconds_floor t : setSeconds t 0 0 = t / msPerMinute * msPerMinute.
Proof. date_arith. Qed.

Lemma setMinutes_floor t m :
  t mod msPerMinute = 0 ->
  setMinutes t m = t / msPerHour * msPerHour + m * msPerMinute.
Proof. intros H. date_arith. Qed.

Lemma setMinutes3_floor t m :
  setMinutes3 t m 0 0 = t / msPerHour * msPerHour + m * msPerMinute.
Proof. date_arith. Qed.

Lemma setHours_next t : setHours t (getHours t + 1) = t + msPerHour.
Proof. date_arith. Qed.

Lemma setHours4_floor t h m :
  setHours4 t h m 0 0 = t / msPerDay * msPerDay + h * msPerHour + m * msPerMinute.
Proof. date_arith. Qed.

Lemma setDate_next_day t : setDate_next t = t + msPerDay.
Proof. date_arith. Qed.

(** ** Strings of digits *)

Lemma is_digit_inv c :
  is_digit c = true ->
  In c ["0"; "1"; "2"; "3"; "4"; "5"; "6"; "7"; "8"; "9"]%char.
Proof.
  intros H.
  destruct c as [[] [] [] [] [] [] [] []]; vm_compute in H;
    try discriminate H; simpl; tauto.
Qed.

Ltac digit_cases c H :=
  apply is_digit_inv in H; simpl in H;
  repeat (destruct H as [H | H]; [subst c | ]); [.. | contradiction].

Lemma digit_not_space c : is_digit c = true -> Ascii.eqb c " " = false.
Proof. intros H. digit_cases c H; reflexivity. Qed.

Lemma digit_not_star c : is_digit c = true -> Ascii.eqb c "*" = false.
Proof. intros H. digit_cases c H; reflexivity. Qed.

Lemma digit_not_white c : is_digit c = true -> isStrWhiteSpaceChar c = false.
Proof. intros H. digit_cases c H; reflexivity. Qed.

Lemma digit_radix10 c :
  is_digit c = true ->
  digit_in_radix 10 c = Some (Z.of_nat (nat_of_ascii c) - 48)
  /\ 0 <= Z.of_nat (nat_of_ascii c) - 48 <= 9.
Proof. intros H. digit_cases c H; vm_compute; intuition congruence. Qed.

Lemma decimal_acc_nonneg s acc :
  all_digits s = true -> 0 <= acc -> 0 <= decimal_acc acc s.
Proof.
  revert acc. induction s as [|c s IH]; intros acc H Hacc; simpl in *.
  - exact Hacc.
  - apply andb_true_iff in H as [Hc Hs].
    apply IH; [exact Hs|]. pose proof (digit_radix10 c Hc). lia.
Qed.

Lemma decimal_value_nonneg s : is_decimal s = true -> 0 <= decimal_value s.
Proof.
  intros H. apply decimal_acc_nonneg; [|lia].
  destruct s; [discriminate|exact H].
Qed.

Lemma parse_digits_all s acc :
  all_digits s = true ->
  parse_digits 10 (Some acc) s = Some (decimal_acc acc s).
Proof.
  revert acc. induction s as [|c s IH]; intros acc H; simpl in *.
  - reflexivity.
  - apply andb_true_iff in H as [Hc Hs].
    destruct (digit_radix10 c Hc) as [-> _]. simpl. apply IH, Hs.
Qed.

Lemma parse_digits_decimal s :
  is_decimal s = true -> parse_digits 10 None s = Some (decimal_value s).
Proof.
  destruct s as [|c s]; [discriminate|]. simpl. intros H.
  apply andb_true_iff in H as [Hc Hs].
  destruct (digit_radix10 c Hc) as [-> _]. simpl.
  rewrite parse_digits_all by exact Hs. reflexivity.
Qed.

(** [parseInt] reads a string of decimal digits as the number it writes. *)
Lemma parseInt_decimal s :
  is_decimal s = true -> parseInt s = Some (decimal_value s).
Proof.
  intros H. pose proof (parse_digits_decimal s H) as Hp.
  destruct s as [|c s]; [discriminate|].
  simpl in H. apply andb_true_iff in H as [Hc Hs].
  unfold parseInt. cbn [trimStart]. rewrite (digit_not_white c Hc).
  assert (Hone : forall v, Some (1 * v) = Some v) by (intros; f_equal; lia).
  digit_cases c Hc;
    try (cbv match; cbv beta iota; rewrite Hp; apply Hone).
  destruct s as [|d s].
  - cbv match. cbv beta iota. rewrite Hp. apply Hone.
  - simpl in Hs. apply andb_true_iff in Hs as [Hd Hs].
    digit_cases d Hd; cbv match; cbv beta iota; rewrite Hp; apply Hone.
Qed.

(** ** Splitting an expression into its fields *)

Lemma split_nonempty s : exists f fs, split s = f :: fs.
Proof.
  induction s as [|c s [f [fs IH]]]; simpl; [eauto|].
  destruct (Ascii.eqb c " "); [eauto|]. rewrite IH. eauto.
Qed.

Lemma split_field m rest :
  no_space m = true -> split (m +:+ String " " rest) = m :: split rest.
Proof.
  induction m as [|c m IH]; simpl; intros H.
  - reflexivity.
  - apply andb_true_iff in H as [Hc Hm]. apply negb_true_iff in Hc.
    rewrite Hc, (IH Hm). reflexivity.
Qed.

Lemma all_digits_no_space s : all_digits s = true -> no_space s = true.
Proof.
  induction s as [|c s IH]; simpl; intros H; [reflexivity|].
  apply andb_true_iff in H as [Hc Hs].
  rewrite (digit_not_space c Hc), (IH Hs). reflexivity.
Qed.

Lemma decimal_no_space s : is_decimal s = true -> no_space s = true.
Proof.
  intros H. apply all_digits_no_space. destruct s; [discriminate|exact H].
Qed.

Lemma decimal_not_star s rest :
  is_decimal s = true ->
  String.eqb s "*" = false
  /\ startsWith s "*/" = false
  /\ String.eqb (s +:+ rest) "* * * * *" = false.
Proof.
  destruct s as [|c s]; [discriminate|]. simpl. intros H.
  apply andb_true_iff in H as [Hc _].
  pose proof (digit_not_star c Hc) as Hs. rewrite Hs. auto.
Qed.

(** ** calculateNextRunTime *)

Section CronProperties.
Variable validate : string -> bool.

(** An expression the validator rejects takes the [catch] block. *)
Lemma calculateNextRunTime_rejected expr t0 :
  validate expr = false ->
  calculateNextRunTime validate expr t0 = Some (t0 + 3600000).
Proof. intros H. unfold calculateNextRunTime. rewrite H. reflexivity. Qed.

(** An accepted expression that no special case takes goes to the start
    of the next civil hour. *)
Lemma calculateNextRunTime_else expr t0 :
  validate expr = true -> special_cased expr = false ->
  calculateNextRunTime validate expr t0 = Some (next_ist_hour t0).
Proof.
  intros Hv Hs. unfold calculateNextRunTime, special_cased in *.
  rewrite Hv. cbn [negb].
  destruct (split_nonempty expr) as [f [fs Hsp]]. rewrite Hsp in *.
  cbn [lookup list_lookup] in *.
  repeat (apply orb_false_iff in Hs as [Hs ?]).
  rewrite Hs.
  repeat match goal with H : _ = false |- _ => rewrite H; clear H end.
  f_equal. unfold next_ist_hour. date_arith.
Qed.

Lemma next_ist_hour_bounds t0 :
  t0 < next_ist_hour t0 <= t0 + 3600000.
Proof. unfold next_ist_hour. date_arith. Qed.

(** C5, as amended: when the validator rejects the expression the result
    is the base instant plus one hour; when the expression is accepted
    and matches none of the special-cased patterns the result is the
    start of the next hour of the civil time of Asia/Kolkata, which lies
    after the base instant and at most one hour after it. *)
Theorem calculateNextRunTime_fallback expr t0 :
  validate expr = false \/ special_cased expr = false ->
  exists t1,
    calculateNextRunTime validate expr t0 = Some t1
    /\ t0 < t1 <= t0 + 3600000
    /\ (validate expr = false -> t1 = t0 + 3600000)
    /\ (validate expr = true -> t1 = next_ist_hour t0).
Proof.
  intros H. destruct (validate expr) eqn:Hv.
  - destruct H as [H|H]; [discriminate|].
    exists (next_ist_hour t0). split; [|split; [|split]].
    + apply calculateNextRunTime_else; assumption.
    + apply next_ist_hour_bounds.
    + discriminate.
    + reflexivity.
  - exists (t0 + 3600000). split; [|split; [|split]].
    + apply calculateNextRunTime_rejected; assumption.
    + lia.
    + reflexivity.
    + discriminate.
Qed.

(** C8 at the expression [0 */2 * * *] (minute 0 of every second hour):
    the branch for a daily time reads the hour with [parseInt], gets NaN
    and returns an Invalid Date, at every base instant; no instant after
    the base is returned. *)
Theorem calculateNextRunTime_hour_step_invalid t :
  validate "0 */2 * * *" = true ->
  calculateNextRunTime validate "0 */2 * * *" t = None
  /\ ~ advances validate "0 */2 * * *" t.
Proof.
  intros Hv.
  assert (Hn : calculateNextRunTime validate "0 */2 * * *" t = None).
  { unfold calculateNextRunTime. rewrite Hv. reflexivity. }
  split; [exact Hn|]. intros (t1 & t2 & H1 & _). congruence.
Qed.

(** C1 at the expression [*/7 * * * *] and the base instant
    1970-01-01T00:26:00Z (05:56 in Asia/Kolkata): the next matching instant
    is 06:00 civil time (00:30:00Z), and the function returns 06:03 civil
    time (00:33:00Z), an instant that does not match the expression. *)
Theorem calculateNextRunTime_step_overshoots :
  validate "*/7 * * * *" = true ->
  hot_path_text (EveryN 7) "*/7 * * * *"
  /\ calculateNextRunTime validate "*/7 * * * *" 1560000 = Some 1980000
  /\ next_after (EveryN 7) 1560000 1800000
  /\ cron_matches (EveryN 7) 1980000 = false.
Proof.
  intros Hv. split; [|split; [|split]].
  - exists "7". repeat split; reflexivity.
  - unfold calculateNextRunTime. rewrite Hv. reflexivity.
  - split; [lia|]. split; [reflexivity|].
    intros t Ht Hm. destruct (Z_lt_le_dec t 1800000) as [Hlt|Hle]; [|exact Hle].
    exfalso. unfold cron_matches in Hm.
    apply andb_true_iff in Hm as [Hm1 Hm2].
    apply Z.eqb_eq in Hm1.
    assert (Hc : t = 1620000 \/ t = 1680000 \/ t = 1740000).
    { unfold msPerMinute in Hm1. Z.div_mod_to_equations. lia. }
    destruct Hc as [->|[->| ->]]; vm_compute in Hm2; discriminate.
  - reflexivity.
Qed.

End CronProperties.

Lemma calculateNextRunTime_fallback_witness :
  exists t1,
    calculateNextRunTime cronPattern "* 5 * * *" 0 = Some t1
    /\ 0 < t1 <= 0 + 3600000
    /\ (cronPattern "* 5 * * *" = false -> t1 = 0 + 3600000)
    /\ (cronPattern "* 5 * * *" = true -> t1 = next_ist_hour 0).
Proof.
  apply (calculateNextRunTime_fallback cronPattern "* 5 * * *" 0).
  right. reflexivity.
Defined.

(** C5 as stated fails: [* 5 * * *] is accepted and matches no special
    case, and from the epoch the result is 00:30:00Z, half an hour
    later, not one hour. *)
Lemma calculateNextRunTime_fallback_not_one_hour :
  ~ (forall (validate : string -> bool) expr t0,
       validate expr = false \/ special_cased expr = false ->
       calculateNextRunTime validate expr t0 = Some (t0 + 3600000)).
Proof.
  intros H.
  specialize (H cronPattern "* 5 * * *" 0 (or_intror eq_refl)).
  vm_compute in H. discriminate H.
Qed.

Lemma calculateNextRunTime_hour_step_invalid_witness :
  cronPattern "0 */2 * * *" = true
  /\ calculateNextRunTime cronPattern "0 */2 * * *" 0 = None.
Proof.
  split; [reflexivity|].
  apply (calculateNextRunTime_hour_step_invalid cronPattern 0). reflexivity.
Defined.

Lemma calculateNextRunTime_step_overshoots_witness :
  cronPattern "*/7 * * * *" = true
  /\ calculateNextRunTime cronPattern "*/7 * * * *" 1560000 = Some 1980000.
Proof.
  split; [reflexivity|].
  apply (calculateNextRunTime_step_overshoots cronPattern). reflexivity.
Defined.

(** ** calculateNextRunTime on the hot paths *)

Lemma mod60_mod n d b : 0 < n -> n * d = 60 -> (b mod 60) mod n = b mod n.
Proof.
  intros Hn Hd.
  pose proof (Z.div_mod b 60 ltac:(lia)) as Hb.
  rewrite Hb at 2. rewrite <- Hd at 2.
  replace (n * d * (b / 60) + b mod 60) with (b mod 60 + (d * (b / 60)) * n)
    by ring.
  rewrite Z.mod_add by lia. reflexivity.
Qed.

Lemma step_arith n d a q b :
  0 < n -> n * d = 60 ->
  n * (q - 1) < a mod 60 + 1 <= n * q ->
  a < b -> (b mod 60) mod n = 0 ->
  60 * (a / 60) + q * n <= b.
Proof.
  intros Hn Hd Hq Hab Hb.
  rewrite (mod60_mod n d b Hn Hd) in Hb.
  apply Z.mod_divide in Hb; [|lia]. destruct Hb as [b' ->].
  pose proof (Z.div_mod a 60 ltac:(lia)) as Ha.
  set (A := a / 60) in *.
  assert (H60 : 60 * A = n * (d * A)) by (rewrite <- Hd; ring).
  assert (Hlt : n * (d * A + q - 1) < n * b') by lia.
  apply Z.mul_lt_mono_pos_l in Hlt; [|exact Hn].
  assert (Hle : n * (d * A + q) <= n * b').
  { apply Z.mul_le_mono_nonneg_l; lia. }
  lia.
Qed.

Lemma ceil_spec a n :
  0 < n -> n * (- (- a / n) - 1) < a <= n * (- (- a / n)).
Proof.
  intros Hn. pose proof (Z.div_mod (-a) n ltac:(lia)).
  pose proof (Z.mod_pos_bound (-a) n Hn). nia.
Qed.

(** The instant the step branch returns, in both of its cases. *)
Lemma step_branch_wrap ist ni :
  setMinutes
    (setHours (setSeconds ist 0 0) (getHours (setSeconds ist 0 0) + 1))
    (ni - 60)
  = (60 * (ist / 60000 / 60) + ni) * 60000.
Proof. date_arith. Qed.

Lemma step_branch_plain ist ni :
  setMinutes (setSeconds ist 0 0) ni = (60 * (ist / 60000 / 60) + ni) * 60000.
Proof. date_arith. Qed.

Lemma every_n_next n t0 :
  1 <= n -> 60 mod n = 0 ->
  next_after (EveryN n) t0
    ((60 * ((t0 + istOffset) / 60000 / 60)
      + - (- ((t0 + istOffset) / 60000 mod 60 + 1) / n) * n) * 60000
     - istOffset).
Proof.
  intros Hn Hdiv.
  assert (Hd : n * (60 / n) = 60).
  { pose proof (Z.div_mod 60 n ltac:(lia)). lia. }
  set (a := (t0 + istOffset) / 60000).
  set (q := - (- (a mod 60 + 1) / n)).
  pose proof (ceil_spec (a mod 60 + 1) n ltac:(lia)) as Hq. fold q in Hq.
  assert (Ha : 60000 * a <= t0 + istOffset < 60000 * a + 60000).
  { subst a. Z.div_mod_to_equations. lia. }
  assert (Ha60 : a = 60 * (a / 60) + a mod 60) by (apply Z.div_mod; lia).
  assert (Hoff : istOffset = 330 * 60000) by reflexivity.
  split; [|split].
  - nia.
  - unfold cron_matches. apply andb_true_iff. split.
    + apply Z.eqb_eq. unfold msPerMinute. rewrite Hoff.
      replace ((60 * (a / 60) + q * n) * 60000 - 330 * 60000)
        with ((60 * (a / 60) + q * n - 330) * 60000) by ring.
      apply Z.mod_mul. lia.
    + apply Z.eqb_eq. unfold istMinute, MinFromTime, msPerMinute.
      replace ((60 * (a / 60) + q * n) * 60000 - istOffset + istOffset)
        with ((60 * (a / 60) + q * n) * 60000) by ring.
      rewrite Z.div_mul by lia.
      rewrite (mod60_mod n (60 / n) _ ltac:(lia) Hd).
      set (D := 60 / n) in *. set (A := a / 60) in *.
      assert (H60 : 60 * A = D * A * n) by (rewrite <- Hd; ring).
      rewrite H60.
      replace (D * A * n + q * n) with (0 + (D * A + q) * n) by ring.
      rewrite Z.mod_add by lia. apply Z.mod_0_l. lia.
  - intros t Ht Hm. unfold cron_matches in Hm.
    apply andb_true_iff in Hm as [Hm1 Hm2].
    apply Z.eqb_eq in Hm1, Hm2.
    unfold istMinute, MinFromTime, msPerMinute in *.
    set (b := (t + istOffset) / 60000) in *.
    assert (Hb : t + istOffset = 60000 * b).
    { subst b. rewrite Hoff in *. Z.div_mod_to_equations. lia. }
    assert (Hab : a < b) by lia.
    pose proof (step_arith n (60 / n) a q b ltac:(lia) Hd Hq Hab Hm2).
    lia.
Qed.

Section HotPaths.
Variable validate : string -> bool.

Lemma hot_every_minute expr t0 :
  validate expr = true -> hot_path_text EveryMinute expr ->
  exists t1, calculateNextRunTime validate expr t0 = Some t1
             /\ next_after EveryMinute t0 t1.
Proof.
  intros Hv Ht. cbn in Ht. subst expr.
  unfold calculateNextRunTime. rewrite Hv.
  eexists. split; [reflexivity|].
  unfold next_after, cron_matches.
  split; [date_arith|]. split.
  - rewrite andb_true_r. apply Z.eqb_eq. date_arith.
  - intros t Ht Hm. rewrite andb_true_r in Hm. apply Z.eqb_eq in Hm.
    date_arith.
Qed.

Lemma hot_every_n n expr t0 :
  validate expr = true -> hot_path_text (EveryN n) expr ->
  hot_path_ok (EveryN n) ->
  exists t1, calculateNextRunTime validate expr t0 = Some t1
             /\ next_after (EveryN n) t0 t1.
Proof.
  intros Hv (ds & Hds & Hval & ->) [Hn Hdiv].
  unfold calculateNextRunTime. rewrite Hv. cbn [negb].
  change ("*/" +:+ ds +:+ " * * * *")
    with (("*/" +:+ ds) +:+ String " " "* * * *").
  rewrite split_field
    by (change (no_space ds = true); apply decimal_no_space, Hds).
  cbn [lookup list_lookup].
  change (("*/" +:+ ds) +:+ String " " "* * * *")
    with (String "*" (String "/" (ds +:+ " * * * *"))).
  change ("*/" +:+ ds) with (String "*" (String "/" ds)).
  cbn [String.eqb Ascii.eqb Bool.eqb startsWith andb substring].
  rewrite (parseInt_decimal ds Hds), Hval.
  unfold ceil_div_times. destruct (n =? 0) eqn:E; [lia|].
  rewrite step_branch_wrap, step_branch_plain.
  replace (getMinutes (setSeconds (t0 + istOffset) 0 0))
    with ((t0 + istOffset) / 60000 mod 60) by date_arith.
  match goal with
  | |- context [if 60 <=? ?x then _ else _] => destruct (60 <=? x)
  end; (eexists; split; [reflexivity|]); apply every_n_next; lia.
Qed.

Lemma hot_at_minute m expr t0 :
  validate expr = true -> hot_path_text (AtMinute m) expr ->
  hot_path_ok (AtMinute m) ->
  exists t1, calculateNextRunTime validate expr t0 = Some t1
             /\ next_after (AtMinute m) t0 t1.
Proof.
  intros Hv (ds & Hds & Hval & ->) Hm.
  unfold calculateNextRunTime. rewrite Hv. cbn [negb].
  destruct (decimal_not_star ds " * * * *" Hds) as (H1 & H2 & H3).
  rewrite H3.
  change (ds +:+ " * * * *") with (ds +:+ String " " "* * * *").
  rewrite split_field by (apply decimal_no_space, Hds).
  cbn [lookup list_lookup]. rewrite H2, H1.
  change (split "* * * *" !! 0%nat) with (Some "*").
  rewrite bool_decide_eq_true_2 by reflexivity. cbn [negb andb].
  rewrite (parseInt_decimal ds Hds), Hval.
  cbn [hot_path_ok] in Hm.
  rewrite setHours_next, setMinutes3_floor.
  unfold next_after, cron_matches, istMinute.
  destruct (m <=? getMinutes (t0 + istOffset)) eqn:E;
    (eexists; split; [reflexivity|]);
    (split; [date_arith|]);
    (split;
     [ apply andb_true_iff; split; apply Z.eqb_eq; date_arith
     | intros t Ht Hmt; apply andb_true_iff in Hmt as [Hm1 Hm2];
       apply Z.eqb_eq in Hm1, Hm2; date_arith ]).
Qed.

Lemma hot_daily_at m h expr t0 :
  validate expr = true -> hot_path_text (DailyAt m h) expr ->
  hot_path_ok (DailyAt m h) ->
  exists t1, calculateNextRunTime validate expr t0 = Some t1
             /\ next_after (DailyAt m h) t0 t1.
Proof.
  intros Hv (dm & dh & Hdm & Hvm & Hdh & Hvh & ->) [Hm Hh].
  unfold calculateNextRunTime. rewrite Hv. cbn [negb].
  destruct (decimal_not_star dm (" " +:+ dh +:+ " * * *") Hdm)
    as (H1 & H2 & H3).
  destruct (decimal_not_star dh "" Hdh) as (H4 & _ & _).
  rewrite H3.
  change (dm +:+ " " +:+ dh +:+ " * * *")
    with (dm +:+ String " " (dh +:+ String " " "* * *")).
  rewrite split_field by (apply decimal_no_space, Hdm).
  rewrite split_field by (apply decimal_no_space, Hdh).
  cbn [lookup list_lookup]. rewrite H2, H1.
  change (split "* * *") with ["*"; "*"; "*"].
  cbn [lookup list_lookup].
  rewrite (bool_decide_eq_false_2 (Some dh = Some "*")).
  2:{ intros E. injection E as ->. discriminate H4. }
  rewrite !bool_decide_eq_true_2 by reflexivity. cbn [negb andb].
  rewrite (parseInt_decimal dh Hdh), (parseInt_decimal dm Hdm), Hvh, Hvm.
  rewrite setDate_next_day, setHours4_floor.
  unfold next_after, cron_matches, istMinute, istHour.
  match goal with |- context [if ?c then _ else _] => destruct c eqn:E end;
    (eexists; split; [reflexivity|]);
    (split; [date_arith|]);
    (split;
     [ apply andb_true_iff; split;
       [|apply andb_true_iff; split]; apply Z.eqb_eq; date_arith
     | intros t Ht Hmt; apply andb_true_iff in Hmt as [Hm1 Hm2];
       apply andb_true_iff in Hm2 as [Hm2 Hm3];
       apply Z.eqb_eq in Hm1, Hm2, Hm3; date_arith ]).
Qed.

(** On the four hot paths, with a step that divides 60, the function
    returns the smallest instant strictly after the base instant whose
    civil time in Asia/Kolkata matches the expression. *)
Lemma calculateNextRunTime_hot_paths p expr t0 :
  validate expr = true -> hot_path_text p expr -> hot_path_ok p ->
  exists t1, calculateNextRunTime validate expr t0 = Some t1
             /\ next_after p t0 t1.
Proof.
  destruct p as [|n|m|m h]; intros Hv Ht Hok.
  - apply hot_every_minute; assumption.
  - apply hot_every_n; assumption.
  - apply hot_at_minute; assumption.
  - apply hot_daily_at; assumption.
Qed.

End HotPaths.

(** ** calculateNextRunTime on the repository's grammar *)

Lemma char_in_digit lo hi c :
  is_digit lo = true -> is_digit hi = true -> char_in lo hi c = true ->
  is_digit c = true.
Proof.
  unfold is_digit, char_in. intros Hlo Hhi Hc.
  apply andb_true_iff in Hlo as [Hlo _]. apply andb_true_iff in Hhi as [_ Hhi].
  apply andb_true_iff in Hc as [Hc1 Hc2].
  apply Nat.leb_le in Hlo, Hhi, Hc1, Hc2.
  apply andb_true_iff. split; apply Nat.leb_le; lia.
Qed.

Lemma opt_lead_digit_decimal lo hi f :
  is_digit lo = true -> is_digit hi = true ->
  opt_lead_digit lo hi f = true -> is_decimal f = true.
Proof.
  intros Hlo Hhi. destruct f as [|a [|c [|? ?]]]; cbn; try discriminate.
  - intros ->. reflexivity.
  - intros H. apply andb_true_iff in H as [Ha Hc].
    rewrite (char_in_digit lo hi a Hlo Hhi Ha), Hc. reflexivity.
Qed.

Lemma lead_range_decimal a lo hi f :
  is_digit a = true -> is_digit lo = true -> is_digit hi = true ->
  lead_range a lo hi f = true -> is_decimal f = true.
Proof.
  intros Ha Hlo Hhi. destruct f as [|x [|c [|? ?]]]; cbn; try discriminate.
  intros H. apply andb_true_iff in H as [Hx Hc].
  apply Ascii.eqb_eq in Hx. subst x.
  rewrite Ha, (char_in_digit lo hi c Hlo Hhi Hc). reflexivity.
Qed.

Lemma startsWith_step_inv f :
  startsWith f "*/" = true -> exists r, f = String "*" (String "/" r).
Proof.
  destruct f as [|c1 [|c2 r]]; cbn; try discriminate.
  - rewrite andb_false_r. discriminate.
  - intros H. apply andb_true_iff in H as [H1 H2].
    apply andb_true_iff in H2 as [H2 _].
    apply Ascii.eqb_eq in H1, H2. subst. eauto.
Qed.

Lemma parseInt_star s : parseInt (String "*" s) = None.
Proof. reflexivity. Qed.

(** A minute field of the grammar that is neither a star nor a step is a
    number. *)
Lemma minute_field_number mi :
  minute_field mi = true -> String.eqb mi "*" = false ->
  startsWith mi "*/" = false -> is_decimal mi = true.
Proof.
  unfold minute_field, is_star, is_step. intros H Hs Hp.
  rewrite Hs, Hp in H. cbn in H. rewrite orb_false_r in H.
  apply (opt_lead_digit_decimal "0" "5"); auto.
Qed.

(** An hour field of the grammar other than a star is a number or is
    read as NaN. *)
Lemma hour_field_number h :
  hour_field h = true -> String.eqb h "*" = false ->
  is_decimal h = true \/ parseInt h = None.
Proof.
  unfold hour_field, is_star, is_step. intros H Hs.
  rewrite Hs in H. cbn in H.
  apply orb_true_iff in H as [H|H].
  - apply orb_true_iff in H as [H|H]; left.
    + apply (opt_lead_digit_decimal "0" "1"); auto.
    + apply (lead_range_decimal "2" "0" "3"); auto.
  - apply andb_true_iff in H as [H _].
    destruct (startsWith_step_inv h H) as [r ->]. right. apply parseInt_star.
Qed.

Section AfterBase.
Variable validate : string -> bool.

(** For every expression of the repository's grammar on which a valid
    date is returned, the date is strictly after the base instant; so
    applying the function again moves strictly further. *)
Lemma calculateNextRunTime_after expr t r :
  cronPattern expr = true ->
  calculateNextRunTime validate expr t = Some r -> t < r.
Proof.
  intros Hg Hc. unfold cronPattern in Hg.
  destruct (split expr) as [|mi [|h [|d [|mo [|dw [|? ?]]]]]] eqn:Hs;
    try discriminate.
  repeat (apply andb_true_iff in Hg as [Hg ?]).
  rename Hg into Hmi. rename H2 into Hh.
  unfold calculateNextRunTime in Hc.
  destruct (validate expr); cbn [negb] in Hc; [|injection Hc as <-; lia].
  rewrite Hs in Hc. cbn [lookup list_lookup] in Hc.
  destruct (String.eqb expr "* * * * *").
  { injection Hc as <-. date_arith. }
  destruct (startsWith mi "*/") eqn:Est.
  { unfold minute_field in Hmi.
    apply orb_true_iff in Hmi as [Hmi|Hmi].
    - apply orb_true_iff in Hmi as [Hmi|Hmi].
      + unfold is_star in Hmi. apply String.eqb_eq in Hmi. subst mi.
        discriminate Est.
      + apply (opt_lead_digit_decimal "0" "5") in Hmi; auto.
        destruct (decimal_not_star mi "" Hmi) as (_ & E & _). congruence.
    - unfold is_step in Hmi. apply andb_true_iff in Hmi as [_ Hd].
      rewrite (parseInt_decimal _ Hd) in Hc.
      pose proof (decimal_value_nonneg _ Hd) as Hv.
      set (n := decimal_value (substring 2 mi)) in *.
      unfold ceil_div_times in Hc. destruct (n =? 0) eqn:E; [discriminate|].
      rewrite step_branch_wrap, step_branch_plain in Hc.
      replace (getMinutes (setSeconds (t + istOffset) 0 0))
        with ((t + istOffset) / 60000 mod 60) in Hc by date_arith.
      pose proof (ceil_spec ((t + istOffset) / 60000 mod 60 + 1) n
                    ltac:(lia)) as Hq.
      set (q := - (- ((t + istOffset) / 60000 mod 60 + 1) / n)) in *.
      assert (Hr : r = (60 * ((t + istOffset) / 60000 / 60) + q * n) * 60000
                       - istOffset).
      { destruct (60 <=? q * n); injection Hc as <-; reflexivity. }
      subst r.
      assert (Hqn : (t + istOffset) / 60000 mod 60 + 1 <= q * n) by lia.
      clearbody q. clear Hq Hc. date_unfold.
      Z.div_mod_to_equations. lia. }
  destruct (String.eqb mi "*") eqn:Estar; cbn [negb andb] in Hc.
  { injection Hc as <-. date_arith. }
  pose proof (minute_field_number mi Hmi Estar Est) as Hdm.
  rewrite (parseInt_decimal mi Hdm) in Hc.
  pose proof (decimal_value_nonneg mi Hdm) as Hm0.
  set (m := decimal_value mi) in *. clearbody m.
  destruct (bool_decide (Some h = Some "*")) eqn:Eh; cbn [negb andb] in Hc.
  { destruct (m <=? getMinutes (t + istOffset)) eqn:E;
      injection Hc as <-; date_arith. }
  destruct (bool_decide (Some d = Some "*") && bool_decide (Some mo = Some "*")).
  2:{ injection Hc as <-. date_arith. }
  apply bool_decide_eq_false in Eh.
  assert (Ehs : String.eqb h "*" = false).
  { apply String.eqb_neq. congruence. }
  destruct (hour_field_number h Hh Ehs) as [Hdh|Hnan].
  - rewrite (parseInt_decimal h Hdh) in Hc.
    pose proof (decimal_value_nonneg h Hdh) as Hh0.
    set (hh := decimal_value h) in *. clearbody hh.
    destruct (setHours4 (t + istOffset) hh m 0 0 <=? t + istOffset) eqn:E;
      injection Hc as <-; date_arith.
  - rewrite Hnan in Hc. discriminate Hc.
Qed.

(** On the repository's grammar the evaluator advances whenever it
    returns valid dates. *)
Lemma calculateNextRunTime_advances expr t t1 t2 :
  cronPattern expr = true ->
  calculateNextRunTime validate expr t = Some t1 ->
  calculateNextRunTime validate expr t1 = Some t2 ->
  advances validate expr t.
Proof.
  intros Hg H1 H2. exists t1, t2. split; [exact H1|]. split; [exact H2|].
  exact (calculateNextRunTime_after expr t1 t2 Hg H2).
Qed.

End AfterBase.

(** ** JobRepository *)

Lemma lookup_map {A B} (f : A -> B) (l : list A) (i : nat) :
  map f l !! i = f <$> (l !! i).
Proof.
  revert i. induction l as [|x l IH]; intros [|i]; simpl; try reflexivity.
  apply IH.
Qed.

Lemma sql_update_lookup {A} (p : A -> bool) (f : A -> A) rows i r :
  rows !! i = Some r ->
  sql_update p f rows !! i = Some (if p r then f r else r).
Proof. intros H. unfold sql_update. rewrite lookup_map, H. reflexivity. Qed.

Lemma sql_returning_nonempty {A} (p : A -> bool) (f : A -> A) rows r :
  r ∈ rows -> p r = true -> sql_returning p f rows <> [].
Proof.
  intros Hin Hp. unfold sql_returning.
  induction rows as [|x rows IH]; [inversion Hin|].
  rewrite filter_cons. destruct (decide (p x = true)) as [Hx|Hx].
  - simpl. discriminate.
  - apply IH. apply elem_of_cons in Hin as [->|Hin]; [contradiction|exact Hin].
Qed.

Lemma forallb_same {A} (P : A -> bool) (y : A) (l : list A) :
  l <> [] -> (forall x, x ∈ l -> x = y) -> forallb P l = P y.
Proof.
  induction l as [|x l IH]; [congruence|]. intros _ Hall. cbn [forallb].
  rewrite (Hall x) by left. destruct l as [|x' l].
  - cbn. apply andb_true_r.
  - rewrite IH; [apply andb_diag|discriminate|].
    intros z Hz. apply Hall. right. exact Hz.
Qed.

Lemma sql_returning_same {A} (p : A -> bool) (f : A -> A) rows r :
  (forall x, x ∈ rows -> p x = true -> x = r) ->
  forall y, y ∈ sql_returning p f rows -> y = f r.
Proof.
  intros Hpk y Hy. unfold sql_returning in Hy.
  apply list_elem_of_In, in_map_iff in Hy as (x & <- & Hx).
  apply list_elem_of_In, list_elem_of_filter in Hx as [Hp Hx].
  f_equal. apply Hpk; assumption.
Qed.

Lemma updateJobStats_execs id success date dbnow d :
  job_executions (fst (JobRepository.updateJobStats id success date dbnow d))
  = job_executions d.
Proof.
  unfold JobRepository.updateJobStats. destruct (forallb _ _); reflexivity.
Qed.

Lemma updateJobStats_next_uuid id success date dbnow d :
  next_uuid (fst (JobRepository.updateJobStats id success date dbnow d))
  = next_uuid d.
Proof.
  unfold JobRepository.updateJobStats. destruct (forallb _ _); reflexivity.
Qed.

(** The jobs [updateJobStats] leaves depend on the [jobs] table alone. *)
Lemma updateJobStats_jobs id success date dbnow d1 d2 :
  jobs d1 = jobs d2 ->
  jobs (fst (JobRepository.updateJobStats id success date dbnow d1))
  = jobs (fst (JobRepository.updateJobStats id success date dbnow d2)).
Proof.
  intros E. unfold JobRepository.updateJobStats. rewrite E.
  destruct (forallb _ _); cbn [fst jobs]; congruence.
Qed.

(** The statement of [updateJobStats] on a table where the job [r] is the
    only one with its id: it is accepted exactly when the new row fits the
    columns and passes [positive_runs]. *)
Lemma updateJobStats_unique (d : Database) (r : Row.t) (success : bool)
    (date dbnow : Z) :
  r ∈ jobs d ->
  (forall x, x ∈ jobs d -> Row.id x = Row.id r -> x = r) ->
  let r' := JobRepository.stats_set date dbnow success r in
  JobRepository.updateJobStats (Val (Row.id r)) success date dbnow d
  = if JobRepository.counters_fit r' && JobRepository.positive_runs r' then
      ({| jobs :=
            sql_update (JobRepository.has_id (Val (Row.id r)))
              (JobRepository.stats_set date dbnow success) (jobs d);
          job_executions := job_executions d;
          next_uuid := next_uuid d |},
       JobRepository.StatsReturned (Some (Job.new (Data.of_row r'))))
    else (d, JobRepository.StatsRefused).
Proof.
  intros Hin Hpk r'.
  assert (Hid : JobRepository.has_id (Val (Row.id r)) r = true).
  { unfold JobRepository.has_id. apply bool_decide_eq_true. reflexivity. }
  assert (Hsame : forall y,
             y ∈ sql_returning (JobRepository.has_id (Val (Row.id r)))
                   (JobRepository.stats_set date dbnow success) (jobs d) ->
             y = r').
  { apply sql_returning_same. intros x Hx Hp. apply Hpk; [exact Hx|].
    unfold JobRepository.has_id in Hp. apply bool_decide_eq_true in Hp.
    congruence. }
  assert (Hne : sql_returning (JobRepository.has_id (Val (Row.id r)))
                  (JobRepository.stats_set date dbnow success) (jobs d)
                <> []).
  { apply sql_returning_nonempty with (r := r); assumption. }
  unfold JobRepository.updateJobStats.
  rewrite (forallb_same _ r' _ Hne Hsame).
  destruct (sql_returning _ _ _) as [|y l] eqn:E; [congruence|].
  rewrite (Hsame y) by left. reflexivity.
Qed.

(** C4, as amended. The job [r], stored at position [i], is the only one
    with its id (the primary key), and its counters [total], [succ] and
    [fail] are values of a row of the table: not negative
    ([positive_runs]) and at most 2147483647 (the columns are INTEGER).
    Let [bumped] be the counter that [success] selects. When [total] and
    [bumped] are below 2147483647, [updateJobStats(id, {success})] leaves
    at that position the same job with [total_runs] one more,
    [successful_runs] one more exactly when [success] holds,
    [failed_runs] one more exactly when it does not, [last_run_at] the
    current time and every other stored field but [updated_at] as before;
    jobs with another id are untouched, the [Job] of the new row is
    returned, and [successful_runs + failed_runs <= total_runs] is
    preserved. When [total] or [bumped] is 2147483647 the store refuses
    the statement: nothing is incremented and the promise rejects. Under
    [successful_runs + failed_runs <= total_runs] this happens exactly
    when [total] is 2147483647. *)
Theorem updateJobStats_counters (d : Database) (i : nat) (r : Row.t)
    (success : bool) (date dbnow total succ fail : Z) :
  jobs d !! i = Some r ->
  (forall x, x ∈ jobs d -> Row.id x = Row.id r -> x = r) ->
  Row.total_runs r = Some total ->
  Row.successful_runs r = Some succ ->
  Row.failed_runs r = Some fail ->
  0 <= total <= JobRepository.int4_max ->
  0 <= succ <= JobRepository.int4_max ->
  0 <= fail <= JobRepository.int4_max ->
  let res :=
    JobRepository.updateJobStats (Val (Row.id r)) success date dbnow d in
  let bumped := if success then succ else fail in
  (total < JobRepository.int4_max -> bumped < JobRepository.int4_max ->
   exists r',
     jobs (fst res) !! i = Some r'
     /\ Row.total_runs r' = Some (total + 1)
     /\ Row.successful_runs r' = Some (if success then succ + 1 else succ)
     /\ Row.failed_runs r' = Some (if success then fail else fail + 1)
     /\ Row.last_run_at r' = Some date
     /\ Row.updated_at r' = Some dbnow
     /\ (Row.id r' = Row.id r /\ Row.name r' = Row.name r
         /\ Row.description r' = Row.description r
         /\ Row.cron_expression r' = Row.cron_expression r
         /\ Row.is_active r' = Row.is_active r
         /\ Row.job_type r' = Row.job_type r
         /\ Row.payload r' = Row.payload r
         /\ Row.created_at r' = Row.created_at r
         /\ Row.next_run_at r' = Row.next_run_at r
         /\ Row.timeout_ms r' = Row.timeout_ms r
         /\ Row.max_retries r' = Row.max_retries r
         /\ Row.retry_delay_ms r' = Row.retry_delay_ms r
         /\ Row.created_by r' = Row.created_by r
         /\ Row.tags r' = Row.tags r)
     /\ (forall j r2, jobs d !! j = Some r2 -> Row.id r2 <> Row.id r ->
                      jobs (fst res) !! j = Some r2)
     /\ length (jobs (fst res)) = length (jobs d)
     /\ job_executions (fst res) = job_executions d
     /\ snd res = JobRepository.StatsReturned (Some (Job.new (Data.of_row r')))
     /\ (succ + fail <= total ->
         (if success then succ + 1 else succ)
         + (if success then fail else fail + 1) <= total + 1))
  /\ (total = JobRepository.int4_max \/ bumped = JobRepository.int4_max ->
      res = (d, JobRepository.StatsRefused))
  /\ (succ + fail <= total -> total < JobRepository.int4_max ->
      bumped < JobRepository.int4_max).
Proof.
  intros Hi Hpk Ht Hs Hf Bt Bs Bf res bumped.
  assert (Hin : r ∈ jobs d) by (apply list_elem_of_lookup; eauto).
  assert (Hid : JobRepository.has_id (Val (Row.id r)) r = true).
  { unfold JobRepository.has_id. apply bool_decide_eq_true. reflexivity. }
  pose proof (updateJobStats_unique d r success date dbnow Hin Hpk) as Hres.
  cbn zeta in Hres. fold res in Hres.
  assert (Hacc :
    JobRepository.counters_fit (JobRepository.stats_set date dbnow success r)
    && JobRepository.positive_runs
         (JobRepository.stats_set date dbnow success r)
    = (total <? JobRepository.int4_max)
      && (bumped <? JobRepository.int4_max)).
  { unfold JobRepository.counters_fit, JobRepository.positive_runs,
      JobRepository.int4, JobRepository.not_negative,
      JobRepository.int4_min, JobRepository.int4_max in *.
    cbn [JobRepository.stats_set Row.total_runs Row.successful_runs
         Row.failed_runs].
    rewrite Ht, Hs, Hf. cbn [fmap option_fmap option_map].
    subst bumped. destruct success; apply eq_true_iff_eq;
      rewrite !andb_true_iff, !Z.leb_le, !Z.ltb_lt; lia. }
  rewrite Hacc in Hres. clear Hacc.
  split; [|split].
  - intros Lt Lb.
    apply Z.ltb_lt in Lt. apply Z.ltb_lt in Lb.
    rewrite Lt, Lb in Hres. cbn [andb] in Hres.
    exists (JobRepository.stats_set date dbnow success r).
    rewrite Hres. cbn [fst snd jobs job_executions].
    repeat split.
    + rewrite (sql_update_lookup _ _ _ _ _ Hi), Hid. reflexivity.
    + simpl. rewrite Ht. reflexivity.
    + simpl. rewrite Hs. destruct success; simpl; f_equal; lia.
    + simpl. rewrite Hf. destruct success; simpl; f_equal; lia.
    + intros j r2 Hj Hne.
      rewrite (sql_update_lookup _ _ _ _ _ Hj).
      unfold JobRepository.has_id.
      rewrite bool_decide_eq_false_2; [reflexivity|]. congruence.
    + unfold sql_update. apply length_map.
    + destruct success; lia.
  - intros Hmax.
    assert (E : (total <? JobRepository.int4_max)
                && (bumped <? JobRepository.int4_max) = false).
    { apply andb_false_iff. rewrite !Z.ltb_ge.
      destruct Hmax as [->| ->]; [left|right]; lia. }
    rewrite E in Hres. exact Hres.
  - intros Hinv Lt. subst bumped. destruct success; lia.
Qed.

Lemma findById_unique (d : Database) (r : Row.t) :
  r ∈ jobs d ->
  (forall x, x ∈ jobs d -> Row.id x = Row.id r -> x = r) ->
  JobRepository.findById (Val (Row.id r)) d = Some (Job.new (Data.of_row r)).
Proof.
  intros Hin Hpk. unfold JobRepository.findById.
  destruct (filter _ (jobs d)) as [|x l] eqn:E.
  - exfalso. assert (Hf : r ∈ filter
      (fun r0 => JobRepository.has_id (Val (Row.id r)) r0 = true) (jobs d)).
    { apply list_elem_of_filter. split; [|exact Hin].
      apply bool_decide_eq_true. reflexivity. }
    rewrite E in Hf. inversion Hf.
  - assert (Hx : x ∈ filter
      (fun r0 => JobRepository.has_id (Val (Row.id r)) r0 = true) (jobs d)).
    { rewrite E. apply elem_of_cons. left. reflexivity. }
    apply list_elem_of_filter in Hx as [Hid Hx].
    apply bool_decide_eq_true in Hid. injection Hid as Hid.
    rewrite (Hpk x Hx (eq_sym Hid)). reflexivity.
Qed.

(** The trigger touches [next_run_at] and [updated_at] only, and only
    when the cron expression changes. *)
Lemma update_trigger_keeps (dbnow : Z) (old new : Row.t) :
  let r := JobRepository.update_trigger dbnow old new in
  Row.id r = Row.id new /\ Row.name r = Row.name new
  /\ Row.description r = Row.description new
  /\ Row.cron_expression r = Row.cron_expression new
  /\ Row.is_active r = Row.is_active new
  /\ Row.job_type r = Row.job_type new
  /\ Row.payload r = Row.payload new
  /\ Row.created_at r = Row.created_at new
  /\ Row.last_run_at r = Row.last_run_at new
  /\ Row.total_runs r = Row.total_runs new
  /\ Row.successful_runs r = Row.successful_runs new
  /\ Row.failed_runs r = Row.failed_runs new
  /\ Row.timeout_ms r = Row.timeout_ms new
  /\ Row.max_retries r = Row.max_retries new
  /\ Row.retry_delay_ms r = Row.retry_delay_ms new
  /\ Row.created_by r = Row.created_by new
  /\ Row.tags r = Row.tags new.
Proof.
  unfold JobRepository.update_trigger. cbn zeta.
  destruct (String.eqb _ _); repeat split.
Qed.

Lemma update_trigger_same (dbnow : Z) (old new : Row.t) :
  Row.cron_expression old = Row.cron_expression new ->
  JobRepository.update_trigger dbnow old new = new.
Proof.
  intros H. unfold JobRepository.update_trigger.
  rewrite H, String.eqb_refl. reflexivity.
Qed.

Lemma update_trigger_changed (dbnow : Z) (old new : Row.t) :
  Row.cron_expression old <> Row.cron_expression new ->
  Row.next_run_at (JobRepository.update_trigger dbnow old new)
  = Some (calculate_next_run (Row.cron_expression new) dbnow)
  /\ Row.updated_at (JobRepository.update_trigger dbnow old new)
     = Some dbnow.
Proof.
  intros H. unfold JobRepository.update_trigger.
  apply String.eqb_neq in H. rewrite H. split; reflexivity.
Qed.

Lemma update_row_has_id id nm cron jt dd nra dbnow x :
  JobRepository.has_id id (JobRepository.update_row nm cron jt dd nra dbnow x)
  = JobRepository.has_id id x.
Proof.
  unfold JobRepository.has_id, JobRepository.update_row.
  destruct (update_trigger_keeps dbnow x
              (JobRepository.update_set nm cron jt dd nra dbnow x))
    as [H _].
  cbn zeta in H. rewrite H. reflexivity.
Qed.

(** What a successful [update] stores. *)
Lemma update_Updated validate (d d' : Database) (r : Row.t) (p : Patch.t)
    (date dbnow : Z) (j : Job.t) :
  r ∈ jobs d ->
  (forall x, x ∈ jobs d -> Row.id x = Row.id r -> x = r) ->
  JobRepository.update validate (Val (Row.id r)) p date dbnow d
  = (d', JobRepository.Updated j) ->
  let existing := Job.new (Data.of_row r) in
  let updated := Job.new (Job.spread existing p) in
  exists nm cron nra,
    to_col (Job.name updated) = Some nm
    /\ to_col (Job.cronExpression updated) = Some cron
    /\ (if decide (Job.cronExpression existing = Job.cronExpression updated)
        then Some (to_col (Job.nextRunAt existing))
        else match JobRepository.nextRunOf validate
                     (Job.cronExpression updated) date with
             | Some t => Some (Some t)
             | None => None
             end) = Some nra
    /\ jobs d'
       = sql_update (JobRepository.has_id (Val (Row.id r)))
           (JobRepository.update_row nm cron (Job.jobType updated)
              (Job.toDatabase updated) nra dbnow)
           (jobs d).
Proof.
  intros Hin Hpk Hu existing updated. unfold JobRepository.update in Hu.
  rewrite (findById_unique d r Hin Hpk) in Hu.
  fold existing in Hu. fold updated in Hu.
  destruct (negb (Job.isValid updated)); [discriminate|].
  cbn [Job.toDatabase Job.db_name Job.db_cron_expression Job.db_job_type] in Hu.
  destruct (to_col (Job.name updated)) as [nm|]; [|discriminate].
  destruct (to_col (Job.cronExpression updated)) as [cron|]; [|discriminate].
  match type of Hu with
  | context [match ?n with Some _ => _ | None => _ end] =>
      destruct n as [nra|] eqn:En; [|discriminate]
  end.
  destruct (sql_returning _ _ _); [discriminate|].
  injection Hu as Hd _. exists nm, cron, nra.
  repeat split; try reflexivity. rewrite <- Hd. reflexivity.
Qed.

(** C6 at a job stored with [max_retries = 0] and a patch that does not
    name [maxRetries]: whenever [update] succeeds, every stored job with
    that id has [max_retries = 3] afterwards. The constructor reads the
    stored 0 through [data.max_retries || data.maxRetries || 3]. *)
Theorem update_resets_zero_max_retries validate (d d' : Database)
    (r : Row.t) (p : Patch.t) (date dbnow : Z) (j : Job.t) :
  r ∈ jobs d ->
  (forall x, x ∈ jobs d -> Row.id x = Row.id r -> x = r) ->
  Row.max_retries r = Some 0 ->
  Patch.maxRetries p = None ->
  JobRepository.update validate (Val (Row.id r)) p date dbnow d
  = (d', JobRepository.Updated j) ->
  forall r', r' ∈ jobs d' -> Row.id r' = Row.id r ->
             Row.max_retries r' = Some 3.
Proof.
  intros Hin Hpk Hm Hp Hu r' Hr' Hid.
  destruct (update_Updated validate d d' r p date dbnow j Hin Hpk Hu)
    as (nm & cron & nra & _ & _ & _ & Hj).
  rewrite Hj in Hr'. unfold sql_update in Hr'.
  apply list_elem_of_In, in_map_iff in Hr' as [x [Hx _]].
  destruct (JobRepository.has_id (Val (Row.id r)) x) eqn:E.
  - subst r'. unfold JobRepository.update_row.
    destruct (update_trigger_keeps dbnow x
                (JobRepository.update_set nm cron
                   (Job.jobType (Job.new (Job.spread
                      (Job.new (Data.of_row r)) p)))
                   (Job.toDatabase (Job.new (Job.spread
                      (Job.new (Data.of_row r)) p))) nra dbnow x))
      as (_ & _ & _ & _ & _ & _ & _ & _ & _ & _ & _ & _ & _ & Hk & _).
    cbn zeta in Hk. rewrite Hk. cbn. rewrite Hm, Hp. reflexivity.
  - subst r'. apply bool_decide_eq_false in E. congruence.
Qed.

(** Where the patch leaves [cronExpression] out, a successful [update]
    stores the [next_run_at] the job had, and stamps [updated_at]. *)
Lemma update_keeps_next_run_at validate (d d' : Database)
    (r : Row.t) (p : Patch.t) (date dbnow : Z) (j : Job.t) :
  r ∈ jobs d ->
  (forall x, x ∈ jobs d -> Row.id x = Row.id r -> x = r) ->
  Patch.cronExpression p = None ->
  JobRepository.update validate (Val (Row.id r)) p date dbnow d
  = (d', JobRepository.Updated j) ->
  forall r', r' ∈ jobs d' -> Row.id r' = Row.id r ->
             Row.next_run_at r' = Row.next_run_at r
             /\ Row.updated_at r' = Some dbnow
             /\ Row.cron_expression r' = Row.cron_expression r.
Proof.
  intros Hin Hpk Hp Hu r' Hr' Hid.
  destruct (update_Updated validate d d' r p date dbnow j Hin Hpk Hu)
    as (nm & cron & nra & _ & Hc & Hn & Hj).
  rewrite Hj in Hr'. unfold sql_update in Hr'.
  apply list_elem_of_In, in_map_iff in Hr' as [x [Hx Hxin]].
  destruct (JobRepository.has_id (Val (Row.id r)) x) eqn:E.
  - apply bool_decide_eq_true in E. injection E as E.
    apply list_elem_of_In in Hxin.
    rewrite (Hpk x Hxin (eq_sym E)) in Hx. subst r'.
    cbn in Hn, Hc. rewrite Hp in Hn, Hc.
    rewrite decide_True in Hn by reflexivity.
    injection Hn as <-.
    assert (Hcron : cron = Row.cron_expression r).
    { unfold js_or, truthy_str in Hc.
      destruct (negb (Row.cron_expression r =? "")%string);
        cbn in Hc; congruence. }
    unfold JobRepository.update_row.
    rewrite update_trigger_same by (cbn; congruence). cbn.
    split; [|split; [reflexivity|]].
    + destruct (Row.next_run_at r); reflexivity.
    + exact Hcron.
  - subst r'. apply bool_decide_eq_false in E. congruence.
Qed.

(** Where the patch names a cron expression other than the stored one,
    a successful [update] sends the instant [calculateNextRunTime] gives
    for the new expression from the current time (a valid date, or the
    statement is refused), but the store keeps what the trigger puts in
    its place: [calculate_next_run] of the new expression from the clock
    of the store. *)
Lemma update_recomputes_next_run_at validate (d d' : Database)
    (r : Row.t) (p : Patch.t) (c : string) (date dbnow : Z) (j : Job.t) :
  r ∈ jobs d ->
  (forall x, x ∈ jobs d -> Row.id x = Row.id r -> x = r) ->
  Patch.cronExpression p = Some c ->
  c <> Row.cron_expression r ->
  JobRepository.update validate (Val (Row.id r)) p date dbnow d
  = (d', JobRepository.Updated j) ->
  is_Some (calculateNextRunTime validate c date)
  /\ forall r', r' ∈ jobs d' -> Row.id r' = Row.id r ->
        Row.next_run_at r' = Some (calculate_next_run c dbnow)
        /\ Row.cron_expression r' = c
        /\ Row.updated_at r' = Some dbnow.
Proof.
  intros Hin Hpk Hp Hne Hu.
  destruct (update_Updated validate d d' r p date dbnow j Hin Hpk Hu)
    as (nm & cron & nra & _ & Hc & Hn & Hj).
  cbn in Hn, Hc. rewrite Hp in Hn, Hc. cbn in Hc. injection Hc as <-.
  rewrite decide_False in Hn.
  2:{ unfold js_or, truthy_str.
      destruct (negb (Row.cron_expression r =? "")%string); cbn; congruence. }
  cbn in Hn. split.
  { destruct (calculateNextRunTime validate c date); [eauto|discriminate]. }
  intros r' Hr' Hid.
  rewrite Hj in Hr'. unfold sql_update in Hr'.
  apply list_elem_of_In, in_map_iff in Hr' as [x [Hx Hxin]].
  destruct (JobRepository.has_id (Val (Row.id r)) x) eqn:E.
  - apply bool_decide_eq_true in E. injection E as E.
    apply list_elem_of_In in Hxin.
    rewrite (Hpk x Hxin (eq_sym E)) in Hx. subst r'.
    unfold JobRepository.update_row.
    match goal with
    | |- context [JobRepository.update_trigger dbnow r ?new] =>
        destruct (update_trigger_changed dbnow r new) as [T1 T2];
          [cbn; congruence|];
        destruct (update_trigger_keeps dbnow r new)
          as (_ & _ & _ & T3 & _)
    end.
    cbn zeta in T3. rewrite T1, T2, T3. cbn. auto.
  - subst r'. apply bool_decide_eq_false in E. congruence.
Qed.

(** ** SchedulerService.executeJob: the single-flight guard *)

Section SchedulerProperties.
Variable validate : string -> bool.

Import SchedulerService.

Lemma executeJob_skips env job w :
  is_Some (executionQueue (sched w) !! Job.id job) ->
  executeJob validate env job w = (w, Skipped).
Proof.
  intros H. unfold executeJob, executeJob_enter.
  rewrite decide_True by exact H. reflexivity.
Qed.

Lemma executeJob_try_queue env job w :
  executionQueue (sched (fst (executeJob_try validate env job w)))
  = executionQueue (sched w)
  \/ exists f,
      executionQueue (sched (fst (executeJob_try validate env job w)))
      = alter f (Job.id job) (executionQueue (sched w)).
Proof.
  unfold executeJob_try.
  destruct (createExecutionRecord _ _ _ _ _) as [[d1 eid]|]; [|left; reflexivity].
  right. eexists.
  destruct (performJobExecution _ _ _); [|reflexivity].
  destruct (updateExecutionRecord _ _ _ _ _ _ _ _); [|reflexivity].
  destruct (env_stats_ok env); reflexivity.
Qed.

Lemma executeJob_catch_queue env job eid msg w :
  executionQueue (sched (fst (executeJob_catch env job eid msg w)))
  = executionQueue (sched w).
Proof.
  unfold executeJob_catch.
  destruct (match eid with Some _ => _ | None => _ end); [|reflexivity].
  destruct (env_catch_stats_ok env); reflexivity.
Qed.

(** The rest of [executeJob] touches [executionQueue] only at the id of
    its job, which it removes in the [finally] block. *)
Lemma executeJob_run_queue env job w :
  executionQueue (sched (fst (executeJob_run validate env job w)))
  = delete (Job.id job) (executionQueue (sched w)).
Proof.
  unfold executeJob_run.
  pose proof (executeJob_try_queue env job w) as Ht.
  destruct (executeJob_try validate env job w) as [w1 thrown].
  cbn [fst] in Ht.
  assert (Hd : delete (Job.id job) (executionQueue (sched w1))
               = delete (Job.id job) (executionQueue (sched w))).
  { destruct Ht as [->|[f ->]]; [reflexivity|]. apply delete_alter_eq. }
  destruct thrown as [[eid msg]|]; [|exact Hd].
  pose proof (executeJob_catch_queue env job eid msg w1) as Hc.
  destruct (executeJob_catch env job eid msg w1) as [w2 [esc|]];
    cbn [fst] in Hc |- *; cbn [sched with_queue executionQueue];
    rewrite Hc; exact Hd.
Qed.

Lemma scheduleJob_queue job s :
  executionQueue (scheduleJob validate job s) = executionQueue s.
Proof. unfold scheduleJob. destruct (negb _); reflexivity. Qed.

Lemma unscheduleJob_queue jobId s :
  executionQueue (unscheduleJob jobId s) = executionQueue s.
Proof. unfold unscheduleJob. destruct (decide _); reflexivity. Qed.

(** The second stretch of [syncJobs] never modifies the
    running-executions map, the statistics or the running flag. *)
Lemma syncJobs_resume_frame answer s :
  executionQueue (syncJobs_resume validate answer s) = executionQueue s
  /\ stats (syncJobs_resume validate answer s) = stats s
  /\ isRunning (syncJobs_resume validate answer s) = isRunning s.
Proof.
  destruct answer as [result|]; [|auto]. unfold syncJobs_resume.
  set (S0 := dom (activeTasks s)).
  set (A := list_to_set _ : gset (JsOpt string)).
  assert (H1 : forall l s,
    let s1 := foldl (fun s job =>
                       if decide (Job.id job ∈ S0) then s
                       else scheduleJob validate job s) s l in
    executionQueue s1 = executionQueue s /\ stats s1 = stats s
    /\ isRunning s1 = isRunning s).
  { induction l as [|j l IH]; intros s0; [auto|]. cbn [foldl].
    destruct (IH (if decide (Job.id j ∈ S0) then s0
                  else scheduleJob validate j s0)) as (-> & -> & ->).
    destruct (decide _); [auto|]. unfold scheduleJob.
    destruct (negb _); auto. }
  assert (H2 : forall l s,
    let s2 := foldl (fun s jobId =>
                       if decide (jobId ∈ A) then s
                       else unscheduleJob jobId s) s l in
    executionQueue s2 = executionQueue s /\ stats s2 = stats s
    /\ isRunning s2 = isRunning s).
  { induction l as [|j l IH]; intros s0; [auto|]. cbn [foldl].
    destruct (IH (if decide (j ∈ A) then s0 else unscheduleJob j s0))
      as (-> & -> & ->).
    destruct (decide _); [auto|]. unfold unscheduleJob.
    destruct (decide _); auto. }
  destruct (H2 (elements S0)
              (foldl (fun s job =>
                        if decide (Job.id job ∈ S0) then s
                        else scheduleJob validate job s) s
                 (JobRepository.fr_jobs result)))
    as (-> & -> & ->).
  destruct (H1 (JobRepository.fr_jobs result) s) as (-> & -> & ->).
  auto.
Qed.

(** [syncJobs] never modifies the running-executions map, the statistics,
    the running flag or the store. *)
Lemma syncJobs_frame ok w :
  executionQueue (sched (syncJobs validate ok w)) = executionQueue (sched w)
  /\ stats (sched (syncJobs validate ok w)) = stats (sched w)
  /\ isRunning (sched (syncJobs validate ok w)) = isRunning (sched w)
  /\ db (syncJobs validate ok w) = db w.
Proof.
  unfold syncJobs.
  destruct (negb (syncJobs_begin (sched w))); [auto|].
  destruct (negb ok); [auto|]. cbn [sched db].
  destruct (syncJobs_resume_frame
              (Some (JobRepository.findAll activeOptions (db w))) (sched w))
    as (-> & -> & ->).
  auto.
Qed.

Lemma flights_cons id a l :
  Process.flights id (a :: l)
  = if decide (Job.id (fst a) = id) then a :: Process.flights id l
    else Process.flights id l.
Proof. unfold Process.flights. rewrite filter_cons. reflexivity. Qed.

Lemma flights_delete id (l : list (Job.t * Z)) i a :
  l !! i = Some a ->
  length (Process.flights id l)
  = ((if decide (Job.id (fst a) = id) then 1 else 0)
     + length (Process.flights id (delete i l)))%nat.
Proof.
  revert i. induction l as [|b l IH]; intros [|i] H; try discriminate.
  - injection H as ->. change (delete 0%nat (a :: l)) with l.
    rewrite flights_cons. destruct (decide _); reflexivity.
  - change (delete (S i) (b :: l)) with (b :: delete i l).
    rewrite !flights_cons. cbn in H. specialize (IH i H).
    destruct (decide (Job.id (fst b) = id)); cbn [length]; lia.
Qed.

Lemma single_flight_initial d : single_flight (Process.initial d).
Proof.
  intros id. cbn. rewrite lookup_empty.
  rewrite decide_False by (intros [? ?]; discriminate). reflexivity.
Qed.

Lemma single_flight_fire now job p :
  single_flight p -> single_flight (Process.fire now job p).
Proof.
  intros Hinv. unfold Process.fire, executeJob_enter.
  destruct (decide (is_Some _)) as [Hs|Hn]; [exact Hinv|].
  intros id. cbn [Process.pending Process.world sched with_queue executionQueue].
  rewrite flights_cons. cbn [fst]. specialize (Hinv id).
  destruct (decide (Job.id job = id)) as [E|Hne].
  - subst id. rewrite lookup_insert_eq.
    rewrite decide_True by eauto. cbn [length]. rewrite Hinv.
    rewrite decide_False by exact Hn. reflexivity.
  - rewrite lookup_insert_ne by exact Hne. exact Hinv.
Qed.

Lemma single_flight_step p q :
  single_flight p -> Process.step validate p q -> single_flight q.
Proof.
  intros Hinv Hstep. destruct Hstep.
  - apply single_flight_fire, Hinv.
  - apply single_flight_fire, Hinv.
  - intros id. cbn [Process.pending Process.world].
    rewrite executeJob_run_queue. specialize (Hinv id).
    rewrite (flights_delete id _ _ _ H) in Hinv. cbn [fst] in Hinv.
    destruct (decide (Job.id job = id)) as [E|Hne].
    + subst id. rewrite lookup_delete_eq.
      rewrite decide_False by (intros [? ?]; discriminate).
      destruct (decide (is_Some _)); lia.
    + rewrite lookup_delete_ne by exact Hne. exact Hinv.
  - intros id. cbn [Process.pending Process.world].
    destruct (syncJobs_frame ok (Process.world p)) as (-> & _). apply Hinv.
  - intros id. cbn [Process.pending Process.world sched].
    destruct (syncJobs_resume_frame answer (sched (Process.world p)))
      as (-> & _).
    apply Hinv.
  - intros id. cbn [Process.pending Process.world sched].
    rewrite scheduleJob_queue. apply Hinv.
  - intros id. cbn [Process.pending Process.world sched].
    rewrite unscheduleJob_queue. apply Hinv.
  - intros id. apply Hinv.
  - intros id. apply Hinv.
Qed.

Lemma single_flight_reachable p :
  Process.reachable validate p -> single_flight p.
Proof.
  induction 1 as [d|p q _ IH Hstep].
  - apply single_flight_initial.
  - exact (single_flight_step p q IH Hstep).
Qed.

(** C2: in every reachable state of the process, if the id of [job] is in
    [executionQueue], a call [executeJob(job)], from a timer or from the
    manual trigger, returns at the guard: no execution row is created, no
    job row is updated and the scheduler is left as it was; and at every
    moment each job id has at most one execution between the guard and
    its [finally] block. *)
Theorem executeJob_single_flight p env job :
  Process.reachable validate p ->
  is_Some (executionQueue (sched (Process.world p)) !! Job.id job) ->
  executeJob validate env job (Process.world p) = (Process.world p, Skipped)
  /\ Process.fire (env_start env) job p = p
  /\ (forall id,
        (length (Process.flights id (Process.pending p)) <= 1)%nat)
  /\ (forall q, Process.reachable validate q ->
        forall id,
          (length (Process.flights id (Process.pending q)) <= 1)%nat).
Proof.
  intros Hr Hq.
  assert (Hall : forall q, Process.reachable validate q -> forall id,
            (length (Process.flights id (Process.pending q)) <= 1)%nat).
  { intros q Hrq id. rewrite (single_flight_reachable q Hrq id).
    destruct (decide _); lia. }
  split; [apply executeJob_skips, Hq|]. split; [|split].
  - unfold Process.fire, executeJob_enter.
    rewrite decide_True by exact Hq. reflexivity.
  - apply Hall, Hr.
  - exact Hall.
Qed.

End SchedulerProperties.

(** ** SchedulerService.executeJob: a run that times out *)

Section TimeoutProperties.
Variable validate : string -> bool.

Import SchedulerService.

Lemma performJobExecution_timeout job delay executedAt :
  1 <= (if Job.timeoutMs job =? 0 then 30000 else Job.timeoutMs job) ->
  (if Job.timeoutMs job =? 0 then 30000 else Job.timeoutMs job) < delay ->
  delay <= 2147483647 ->
  performJobExecution job delay executedAt = inr "Job execution timeout".
Proof.
  intros H1 H2 H3. unfold performJobExecution.
  set (timeout := if Job.timeoutMs job =? 0 then 30000 else Job.timeoutMs job)
    in *.
  assert (Ht : timer_delay timeout = timeout).
  { unfold timer_delay.
    destruct (1 <=? timeout) eqn:E1; [|lia].
    destruct (timeout <=? 2147483647) eqn:E2; [reflexivity|lia]. }
  assert (Hd : timer_delay delay = delay).
  { unfold timer_delay.
    destruct (1 <=? delay) eqn:E1; [|lia].
    destruct (delay <=? 2147483647) eqn:E2; [reflexivity|lia]. }
  rewrite Ht, Hd.
  destruct (timeout <=? delay) eqn:E; [reflexivity|lia].
Qed.

Lemma sql_update_none {A} (p : A -> bool) (f : A -> A) rows :
  (forall x, x ∈ rows -> p x = false) -> sql_update p f rows = rows.
Proof.
  unfold sql_update. induction rows as [|x rows IH]; intros H; [reflexivity|].
  cbn [map]. rewrite (H x) by (apply elem_of_cons; auto).
  rewrite IH; [reflexivity|]. intros y Hy. apply H, elem_of_cons. auto.
Qed.

(** C3 on the code: when the executor exceeds the timeout of the job (and
    the queries that create and close the execution row succeed), the row
    written for the attempt carries the status [failed], with the message
    of the timeout error, its completion time and its duration; the
    status [timeout] is not written. *)
Theorem executeJob_timeout_recorded_failed env job w jid :
  Job.id job = Val jid ->
  executionQueue (sched w) !! Val jid = None ->
  env_insert_ok env = true ->
  env_catch_update_ok env = true ->
  1 <= (if Job.timeoutMs job =? 0 then 30000 else Job.timeoutMs job) ->
  (if Job.timeoutMs job =? 0 then 30000 else Job.timeoutMs job)
  < env_delay env ->
  env_delay env <= 2147483647 ->
  (forall x, x ∈ job_executions (db w) -> ExecRow.id x <> next_uuid (db w)) ->
  job_executions (db (fst (executeJob validate env job w)))
  = (job_executions (db w)
     ++ [ {| ExecRow.id := next_uuid (db w);
             ExecRow.job_id := jid;
             ExecRow.status := failed;
             ExecRow.started_at := env_insert_now env;
             ExecRow.completed_at := Some (env_catch_update_now env);
             ExecRow.duration_ms := Some (env_catch_end env - env_start env);
             ExecRow.error_message := Some "Job execution timeout";
             ExecRow.retry_count := 0;
             ExecRow.output := None |} ])%list
  /\ failed <> timeout.
Proof.
  intros Hid Hq Hins Hupd H1 H2 H3 Hfresh. split; [|discriminate].
  unfold executeJob, executeJob_enter. rewrite Hid.
  rewrite decide_False by (rewrite Hq; intros [? ?]; discriminate).
  unfold executeJob_run, executeJob_try. rewrite Hid.
  unfold createExecutionRecord. rewrite Hins.
  cbn [db sched].
  rewrite (performJobExecution_timeout job _ _ H1 H2 H3).
  unfold executeJob_catch. cbn [db sched].
  unfold updateExecutionRecord. rewrite Hupd. cbn [job_executions].
  assert (Hrows :
    sql_update (fun r => bool_decide (ExecRow.id r = next_uuid (db w)))
      (fun r =>
         {| ExecRow.id := ExecRow.id r;
            ExecRow.job_id := ExecRow.job_id r;
            ExecRow.status := failed;
            ExecRow.started_at := ExecRow.started_at r;
            ExecRow.completed_at := Some (env_catch_update_now env);
            ExecRow.duration_ms := Some (env_catch_end env - env_start env);
            ExecRow.error_message := Some "Job execution timeout";
            ExecRow.retry_count := ExecRow.retry_count r;
            ExecRow.output := OutResult <$> None |})
      (job_executions (db w)
       ++ [ {| ExecRow.id := next_uuid (db w);
               ExecRow.job_id := jid;
               ExecRow.status := running;
               ExecRow.started_at := env_insert_now env;
               ExecRow.completed_at := None;
               ExecRow.duration_ms := None;
               ExecRow.error_message := None;
               ExecRow.retry_count := 0;
               ExecRow.output := Some OutEmpty |} ])%list
    = (job_executions (db w)
       ++ [ {| ExecRow.id := next_uuid (db w);
               ExecRow.job_id := jid;
               ExecRow.status := failed;
               ExecRow.started_at := env_insert_now env;
               ExecRow.completed_at := Some (env_catch_update_now env);
               ExecRow.duration_ms := Some (env_catch_end env - env_start env);
               ExecRow.error_message := Some "Job execution timeout";
               ExecRow.retry_count := 0;
               ExecRow.output := None |} ])%list).
  { unfold sql_update at 1. rewrite map_app.
    fold (sql_update (fun r => bool_decide (ExecRow.id r = next_uuid (db w)))
            (fun r =>
               {| ExecRow.id := ExecRow.id r;
                  ExecRow.job_id := ExecRow.job_id r;
                  ExecRow.status := failed;
                  ExecRow.started_at := ExecRow.started_at r;
                  ExecRow.completed_at := Some (env_catch_update_now env);
                  ExecRow.duration_ms :=
                    Some (env_catch_end env - env_start env);
                  ExecRow.error_message := Some "Job execution timeout";
                  ExecRow.retry_count := ExecRow.retry_count r;
                  ExecRow.output := OutResult <$> None |})
            (job_executions (db w))).
    rewrite sql_update_none.
    - cbn [map ExecRow.id]. rewrite bool_decide_eq_true_2 by reflexivity.
      reflexivity.
    - intros x Hx. apply bool_decide_eq_false_2, Hfresh, Hx. }
  destruct (env_catch_stats_ok env); cbn [fst db];
    rewrite ?updateJobStats_execs; exact Hrows.
Qed.

End TimeoutProperties.

(** ** SchedulerService.syncJobs *)

Lemma insert_sorted_elem {A} (le : A -> A -> bool) (x y : A) (l : list A) :
  y ∈ insert_sorted le x l <-> y = x \/ y ∈ l.
Proof.
  induction l as [|z l IH]; cbn [insert_sorted].
  - rewrite list_elem_of_singleton. split; [auto|].
    intros [H|H]; [exact H|inversion H].
  - destruct (le x z).
    + rewrite elem_of_cons. reflexivity.
    + rewrite !elem_of_cons, IH. tauto.
Qed.

Lemma order_by_elem {A} (le : A -> A -> bool) (y : A) (l : list A) :
  y ∈ order_by le l <-> y ∈ l.
Proof.
  induction l as [|x l IH]; cbn [order_by]; [reflexivity|].
  rewrite insert_sorted_elem, elem_of_cons, IH. reflexivity.
Qed.

Lemma insert_sorted_length {A} (le : A -> A -> bool) (x : A) (l : list A) :
  length (insert_sorted le x l) = S (length l).
Proof.
  induction l as [|z l IH]; cbn [insert_sorted]; [reflexivity|].
  destruct (le x z); cbn [length]; [reflexivity|]. rewrite IH. reflexivity.
Qed.

Lemma order_by_length {A} (le : A -> A -> bool) (l : list A) :
  length (order_by le l) = length l.
Proof.
  induction l as [|x l IH]; cbn [order_by]; [reflexivity|].
  rewrite insert_sorted_length, IH. reflexivity.
Qed.

Section SyncProperties.
Variable validate : string -> bool.

Import SchedulerService.

(** The jobs [syncJobs] loads: the active rows, newest first, at most
    1000 of them. *)
Lemma loaded_jobs_active (d : Database) (job : Job.t) :
  job ∈ JobRepository.fr_jobs (JobRepository.findAll activeOptions d) ->
  exists r, r ∈ jobs d /\ Row.is_active r = Some true
            /\ job = Job.new (Data.of_row r).
Proof.
  unfold JobRepository.findAll. cbn [JobRepository.fr_jobs].
  intros H. apply list_elem_of_In, in_map_iff in H as [r [<- Hr]].
  apply list_elem_of_In in Hr.
  apply elem_of_take in Hr as [i [Hr _]].
  apply list_elem_of_lookup_2 in Hr.
  change (drop (Z.to_nat ((1 - 1) * 1000))) with (@drop Row.t 0) in Hr.
  rewrite drop_0 in Hr.
  apply order_by_elem, list_elem_of_filter in Hr as [Ha Hr].
  exists r. split; [exact Hr|]. split; [|reflexivity].
  apply bool_decide_eq_true in Ha. exact Ha.
Qed.

Lemma loaded_jobs_complete (d : Database) (r : Row.t) :
  r ∈ jobs d -> Row.is_active r = Some true ->
  (length (filter (fun r => Row.is_active r = Some true) (jobs d)) <= 1000)%nat ->
  Job.new (Data.of_row r)
  ∈ JobRepository.fr_jobs (JobRepository.findAll activeOptions d).
Proof.
  intros Hr Ha Hlen. unfold JobRepository.findAll.
  cbn [JobRepository.fr_jobs].
  apply list_elem_of_In, in_map_iff. exists r. split; [reflexivity|].
  apply list_elem_of_In.
  change (drop (Z.to_nat ((1 - 1) * 1000))) with (@drop Row.t 0).
  rewrite drop_0.
  assert (Hf : filter
            (fun r0 => JobRepository.where_isActive (Some true) r0 = true)
            (jobs d)
          = filter (fun r => Row.is_active r = Some true) (jobs d)).
  { apply list_filter_iff. intros x. unfold JobRepository.where_isActive.
    rewrite bool_decide_eq_true. reflexivity. }
  cbn [JobRepository.opt_isActive JobRepository.opt_limit activeOptions].
  rewrite Hf. rewrite take_ge.
  - apply order_by_elem, list_elem_of_filter. auto.
  - rewrite order_by_length.
    change (Z.to_nat 1000) with 1000%nat. exact Hlen.
Qed.

Lemma unscheduleJob_tasks jobId s :
  activeTasks (unscheduleJob jobId s) = delete jobId (activeTasks s).
Proof.
  unfold unscheduleJob. destruct (decide _) as [H|H]; [reflexivity|].
  symmetry. apply delete_id. destruct (activeTasks s !! jobId) eqn:E; [|done].
  exfalso. apply H. eauto.
Qed.

Lemma scheduleJob_tasks job s :
  activeTasks (scheduleJob validate job s)
  = if validate_js validate (Job.cronExpression job)
    then <[Job.id job := mkTask (Job.cronExpression job) job]> (activeTasks s)
    else activeTasks s.
Proof.
  unfold scheduleJob. destruct (validate_js _ _); reflexivity.
Qed.

Lemma unschedule_fold (A : gset (JsOpt string)) l s id :
  activeTasks
    (foldl (fun s jobId =>
              if decide (jobId ∈ A) then s else unscheduleJob jobId s) s l)
  !! id
  = if decide (id ∈ l /\ id ∉ A) then None else activeTasks s !! id.
Proof.
  revert s. induction l as [|x l IH]; intros s; cbn [foldl].
  - rewrite decide_False; [reflexivity|]. intros [H _]. inversion H.
  - rewrite IH. destruct (decide (x ∈ A)) as [Hx|Hx].
    + destruct (decide (id ∈ l /\ id ∉ A)) as [[H1 H2]|Hn].
      * rewrite decide_True; [reflexivity|]. split; [|exact H2].
        apply elem_of_cons. auto.
      * destruct (decide (id ∈ x :: l /\ id ∉ A)) as [[H1 H2]|Hn2];
          [|reflexivity].
        exfalso. apply elem_of_cons in H1 as [->|H1]; [contradiction|].
        apply Hn. auto.
    + rewrite unscheduleJob_tasks.
      destruct (decide (id ∈ l /\ id ∉ A)) as [[H1 H2]|Hn].
      * rewrite decide_True; [reflexivity|]. split; [|exact H2].
        apply elem_of_cons. auto.
      * destruct (decide (id = x)) as [->|Hne].
        -- rewrite lookup_delete_eq. rewrite decide_True; [reflexivity|].
           split; [apply elem_of_cons; auto|exact Hx].
        -- rewrite lookup_delete_ne by congruence.
           destruct (decide (id ∈ x :: l /\ id ∉ A)) as [[H1 H2]|Hn2];
             [|reflexivity].
           exfalso. apply elem_of_cons in H1 as [->|H1]; [contradiction|].
           apply Hn. auto.
Qed.

Lemma schedule_fold (S0 : gset (JsOpt string)) l s :
  let s1 :=
    foldl (fun s job =>
             if decide (Job.id job ∈ S0) then s
             else scheduleJob validate job s) s l in
  (forall id, id ∈ S0 -> activeTasks s1 !! id = activeTasks s !! id)
  /\ (forall id t, id ∉ S0 -> activeTasks s1 !! id = Some t ->
        activeTasks s !! id = Some t
        \/ exists job, job ∈ l /\ Job.id job = id
                       /\ validate_js validate (Job.cronExpression job) = true
                       /\ t = mkTask (Job.cronExpression job) job)
  /\ (forall id, id ∉ S0 ->
        is_Some (activeTasks s !! id)
        \/ (exists job, job ∈ l /\ Job.id job = id
                        /\ validate_js validate (Job.cronExpression job) = true) ->
        is_Some (activeTasks s1 !! id)).
Proof.
  revert s. induction l as [|j l IH]; intros s; cbn [foldl].
  - split; [auto|]. split; [auto|].
    intros id _ [H|[job [H _]]]; [exact H|inversion H].
  - destruct (IH (if decide (Job.id j ∈ S0) then s
                  else scheduleJob validate j s)) as (I1 & I2 & I3).
    destruct (decide (Job.id j ∈ S0)) as [Hj|Hj].
    + split; [exact I1|]. split.
      * intros id t Hid Ht. destruct (I2 id t Hid Ht) as [H|[job [H1 H2]]];
          [auto|]. right. exists job. split; [|exact H2].
        apply elem_of_cons. auto.
      * intros id Hid [H|[job [H1 [H2 H3]]]]; apply (I3 id Hid); [auto|].
        apply elem_of_cons in H1 as [->|H1]; [congruence|].
        right. exists job. auto.
    + pose proof (scheduleJob_tasks j s) as Hs.
      destruct (validate_js validate (Job.cronExpression j)) eqn:Hv.
      * split; [|split].
        -- intros id Hid. rewrite (I1 id Hid), Hs.
           apply lookup_insert_ne. congruence.
        -- intros id t Hid Ht. destruct (I2 id t Hid Ht) as [H|[job [H1 H2]]].
           ++ rewrite Hs in H. destruct (decide (Job.id j = id)) as [E|E].
              ** subst id. rewrite lookup_insert_eq in H. injection H as <-.
                 right. exists j. split; [apply elem_of_cons; auto|]. auto.
              ** rewrite lookup_insert_ne in H by exact E. auto.
           ++ right. exists job. split; [|exact H2]. apply elem_of_cons. auto.
        -- intros id Hid H. apply (I3 id Hid). rewrite Hs.
           destruct (decide (Job.id j = id)) as [E|E].
           ++ subst id. left. rewrite lookup_insert_eq. eauto.
           ++ rewrite lookup_insert_ne by exact E.
              destruct H as [H|[job [H1 [H2 H3]]]]; [auto|].
              apply elem_of_cons in H1 as [->|H1]; [congruence|].
              right. exists job. auto.
      * split; [|split].
        -- intros id Hid. rewrite (I1 id Hid), Hs. reflexivity.
        -- intros id t Hid Ht. destruct (I2 id t Hid Ht) as [H|[job [H1 H2]]].
           ++ rewrite Hs in H. auto.
           ++ right. exists job. split; [|exact H2]. apply elem_of_cons. auto.
        -- intros id Hid [H|[job [H1 [H2 H3]]]]; apply (I3 id Hid).
           ++ rewrite Hs. auto.
           ++ apply elem_of_cons in H1 as [->|H1]; [congruence|].
              right. exists job. auto.
Qed.

(** The second stretch of [syncJobs], on a job id that has no timer: it
    gets one exactly when a loaded job with that id has a cron
    expression that validates. *)
Lemma syncJobs_resume_fresh (result : JobRepository.FindResult) (s : t) id :
  activeTasks s !! id = None ->
  (is_Some (activeTasks (syncJobs_resume validate (Some result) s) !! id)
   <-> exists job, job ∈ JobRepository.fr_jobs result /\ Job.id job = id
         /\ validate_js validate (Job.cronExpression job) = true).
Proof.
  intros Hid. unfold syncJobs_resume. rewrite unschedule_fold.
  assert (Hd : id ∉ dom (activeTasks s)).
  { rewrite elem_of_dom, Hid. intros [? ?]; discriminate. }
  rewrite decide_False
    by (intros [He _]; apply Hd; apply elem_of_elements in He; exact He).
  destruct (schedule_fold (dom (activeTasks s)) (JobRepository.fr_jobs result)
              s) as (_ & I2 & I3).
  split.
  - intros [t Ht]. destruct (I2 id t Hd Ht) as [H|[job (H1 & H2 & H3 & _)]].
    + congruence.
    + exists job. auto.
  - intros H. apply (I3 id Hd). right. exact H.
Qed.

(** A call of [syncJobs()] that starts on a scheduler that is not
    running, or whose query fails while nothing else runs, leaves
    everything as it was. *)
Lemma syncJobs_idle ok (w : World) :
  isRunning (sched w) = false \/ ok = false -> syncJobs validate ok w = w.
Proof.
  intros [H|H]; unfold syncJobs, syncJobs_begin; rewrite H; [reflexivity|].
  destruct (negb (isRunning (sched w))); reflexivity.
Qed.


End SyncProperties.

(** ** getStats *)

Lemma two_digits_digits b :
  0 <= b < 100 ->
  exists x y, two_digits b = String x (String y EmptyString)
              /\ is_digit x = true /\ is_digit y = true.
Proof.
  intros H. unfold two_digits. eexists _, _. split; [reflexivity|].
  assert (H1 : 0 <= b / 10 < 10) by (Z.div_mod_to_equations; lia).
  assert (H2 : 0 <= b mod 10 < 10) by (Z.div_mod_to_equations; lia).
  assert (Hd : forall k, 0 <= k < 10 ->
                 is_digit (ascii_of_nat (48 + Z.to_nat k)) = true).
  { intros k Hk.
    assert (Hc : k = 0 \/ k = 1 \/ k = 2 \/ k = 3 \/ k = 4 \/ k = 5 \/ k = 6
                 \/ k = 7 \/ k = 8 \/ k = 9) by lia.
    repeat (destruct Hc as [->|Hc]; [reflexivity|]). subst k. reflexivity. }
  split; apply Hd; assumption.
Qed.

(** The output of [toFixed(2)] on a finite double has exactly two
    decimals. *)
Lemma toFixed2_fixed2 x : is_finite x -> fixed2 (toFixed2 x).
Proof.
  destruct x as [s| | |s m e]; cbn [is_finite]; try contradiction; intros _.
  - exists "0", "0"%char, "0"%char. repeat split.
  - cbn [toFixed2].
    destruct (two_digits_digits (scaled_round m e mod 100)) as (a & b & -> & Ha & Hb).
    { Z.div_mod_to_equations. lia. }
    exists ((if s then "-" else "") +:+ pretty (scaled_round m e / 100)), a, b.
    split; [|auto]. destruct s; reflexivity.
Qed.

(** C9, as amended: in every state of the scheduler, [activeJobs] and
    [runningExecutions] are the sizes of the timer map and of the
    running-executions map; when at least one execution has been counted,
    [successRate] is the string [(successful / total * 100).toFixed(2)],
    with exactly two decimals whenever that double is finite; when no
    execution has been counted, [successRate] is the number 0, not a
    string. *)
Theorem getStats_view (s : SchedulerService.t) :
  let v := SchedulerService.getStats s in
  let st := SchedulerService.stats s in
  let rate :=
    fmul (fdiv (of_int (SchedulerService.successfulExecutions st))
            (of_int (SchedulerService.totalExecutions st)))
      (of_int 100) in
  SchedulerService.v_activeJobs v = size (SchedulerService.activeTasks s)
  /\ SchedulerService.v_runningExecutions v
     = size (SchedulerService.executionQueue s)
  /\ ((0 < SchedulerService.totalExecutions st
       /\ SchedulerService.v_successRate v
          = SchedulerService.JString (toFixed2 rate)
       /\ (is_finite rate -> fixed2 (toFixed2 rate)))
      \/ (SchedulerService.totalExecutions st <= 0
          /\ SchedulerService.v_successRate v = SchedulerService.JNumber 0)).
Proof.
  intros v st rate. split; [reflexivity|]. split; [reflexivity|].
  subst v. unfold SchedulerService.getStats.
  cbn [SchedulerService.v_successRate]. fold st.
  destruct (0 <? SchedulerService.totalExecutions st) eqn:E.
  - left. split; [lia|]. split; [reflexivity|]. apply toFixed2_fixed2.
  - right. split; [lia|reflexivity].
Qed.

(** C9 as stated fails in the state where no execution has run yet:
    [successRate] is then the number 0 and no string at all. *)
Lemma getStats_successRate_not_string :
  ~ (forall s : SchedulerService.t,
       exists str,
         SchedulerService.v_successRate (SchedulerService.getStats s)
         = SchedulerService.JString str
         /\ fixed2 str).
Proof.
  intros H. destruct (H SchedulerService.new) as [str [Hs _]].
  vm_compute in Hs. discriminate Hs.
Qed.

Example getStats_one_third :
  SchedulerService.v_successRate
    (SchedulerService.getStats
       (SchedulerService.mk ∅ ∅ true
          (SchedulerService.mkStats 3 1 2 (of_int 0))))
  = SchedulerService.JString "33.33".
Proof. vm_compute. reflexivity. Qed.

(** ** The properties at the sample data *)

Lemma sample_process_reachable validate :
  Process.reachable validate sample_process.
Proof.
  apply (Process.reach_step validate (Process.initial sample_db)).
  - apply Process.reach_initial.
  - apply (Process.step_trigger validate (Process.initial sample_db) "j1"
             sample_job 5000).
    reflexivity.
Defined.

Lemma sample_process_running :
  is_Some
    (SchedulerService.executionQueue
       (SchedulerService.sched (Process.world sample_process))
     !! Job.id sample_job).
Proof.
  unfold sample_process, Process.fire, SchedulerService.executeJob_enter.
  cbn [Process.world Process.initial SchedulerService.sched
       SchedulerService.new SchedulerService.executionQueue].
  rewrite lookup_empty.
  rewrite decide_False by (intros [? ?]; discriminate).
  cbn [Process.world SchedulerService.sched SchedulerService.with_queue
       SchedulerService.executionQueue].
  rewrite lookup_insert_eq. eauto.
Defined.

Lemma executeJob_single_flight_witness :
  SchedulerService.executeJob cronPattern sample_env sample_job
    (Process.world sample_process)
  = (Process.world sample_process, SchedulerService.Skipped).
Proof.
  apply (executeJob_single_flight cronPattern sample_process sample_env
           sample_job (sample_process_reachable cronPattern)
           sample_process_running).
Defined.



Lemma executeJob_timeout_recorded_failed_witness :
  exists row,
    job_executions
      (SchedulerService.db
         (fst (SchedulerService.executeJob cronPattern sample_env sample_job
                 sample_world)))
    = [row]
    /\ ExecRow.status row = failed
    /\ ExecRow.error_message row = Some "Job execution timeout".
Proof.
  eexists. split; [|split].
  - apply (executeJob_timeout_recorded_failed cronPattern sample_env
             sample_job sample_world "j1").
    + reflexivity.
    + reflexivity.
    + reflexivity.
    + reflexivity.
    + vm_compute. discriminate.
    + reflexivity.
    + vm_compute. discriminate.
    + intros x Hx. inversion Hx.
  - reflexivity.
  - reflexivity.
Defined.

Lemma sample_db_primary_key (x : Row.t) :
  x ∈ jobs sample_db -> Row.id x = Row.id sample_row -> x = sample_row.
Proof.
  intros Hx _. apply list_elem_of_In in Hx.
  destruct Hx as [<-|[]]. reflexivity.
Qed.

Lemma updateJobStats_counters_witness :
  exists r',
    jobs (fst (JobRepository.updateJobStats (Val "j1") true 7004 7005
                 sample_db)) !! 0%nat = Some r'
    /\ Row.total_runs r' = Some 1
    /\ Row.successful_runs r' = Some 1
    /\ Row.failed_runs r' = Some 0.
Proof.
  destruct (updateJobStats_counters sample_db 0 sample_row true 7004 7005
              0 0 0 eq_refl sample_db_primary_key eq_refl eq_refl eq_refl
              ltac:(vm_compute; split; discriminate)
              ltac:(vm_compute; split; discriminate)
              ltac:(vm_compute; split; discriminate))
    as (Hok & _).
  destruct (Hok eq_refl eq_refl) as (r' & H1 & H2 & H3 & H4 & _).
  exists r'. auto.
Defined.

(** C4 as stated fails at the end of the INTEGER range: for the job with
    [total_runs] 2147483647, 2147483640 of them successful and 7 failed,
    [updateJobStats(id, {success: true})] is refused by the store, and
    [total_runs] is as before, not one more. *)
Lemma updateJobStats_not_incremented :
  ~ (forall (d : Database) (i : nat) (r : Row.t) (success : bool)
            (date dbnow total succ fail : Z),
       jobs d !! i = Some r ->
       Row.total_runs r = Some total ->
       Row.successful_runs r = Some succ ->
       Row.failed_runs r = Some fail ->
       succ + fail <= total ->
       exists r',
         jobs (fst (JobRepository.updateJobStats (Val (Row.id r)) success
                      date dbnow d)) !! i = Some r'
         /\ Row.total_runs r' = Some (total + 1)).
Proof.
  intros H.
  destruct (H sample_db_saturated 0%nat sample_row_saturated true 7004 7005
              2147483647 2147483640 7 eq_refl eq_refl eq_refl eq_refl
              ltac:(lia))
    as (r' & Hr' & Ht).
  vm_compute in Hr'. injection Hr' as <-. discriminate Ht.
Qed.

(** The instance of [update] at the sample job, stored with
    [max_retries = 0], and a patch that only renames it. *)
Example update_sample_max_retries validate :
  Row.max_retries
  <$> jobs (fst (JobRepository.update validate (Val "j1") sample_patch
                   9000 9001 sample_db))
  = [Some 3].
Proof. vm_compute. reflexivity. Qed.

Lemma update_resets_zero_max_retries_witness :
  JobRepository.update cronPattern (Val "j1") sample_patch 9000 9001 sample_db
  = (mkDatabase [sample_row_renamed] [] 0,
     JobRepository.Updated (Job.new (Data.of_row sample_row_renamed)))
  /\ Row.max_retries sample_row = Some 0
  /\ Row.max_retries sample_row_renamed = Some 3.
Proof.
  assert (Hu : JobRepository.update cronPattern (Val "j1") sample_patch
                 9000 9001 sample_db
               = (mkDatabase [sample_row_renamed] [] 0,
                  JobRepository.Updated
                    (Job.new (Data.of_row sample_row_renamed)))).
  { vm_compute. reflexivity. }
  split; [exact Hu|]. split; [reflexivity|].
  apply (update_resets_zero_max_retries cronPattern sample_db
           (mkDatabase [sample_row_renamed] [] 0)
           sample_row sample_patch 9000 9001
           (Job.new (Data.of_row sample_row_renamed))).
  - apply elem_of_cons. left. reflexivity.
  - intros x Hx _. apply elem_of_cons in Hx as [Hx|Hx]; [exact Hx|].
    inversion Hx.
  - reflexivity.
  - reflexivity.
  - exact Hu.
  - apply elem_of_cons. left. reflexivity.
  - reflexivity.
Defined.

(** ** CacheService *)

Section MapProperties.
Context {A : Type}.
Implicit Types (m : list (string * A)) (k : string).

Lemma map_get_set_eq k (a : A) m :
  CacheService.map_get k (CacheService.map_set k a m) = Some a.
Proof.
  induction m as [|[k' a'] m IH]; cbn.
  - rewrite String.eqb_refl. reflexivity.
  - destruct (String.eqb k k') eqn:E; cbn.
    + rewrite String.eqb_refl. reflexivity.
    + rewrite E. exact IH.
Qed.

Lemma map_get_set_ne k k' (a : A) m :
  k <> k' ->
  CacheService.map_get k' (CacheService.map_set k a m)
  = CacheService.map_get k' m.
Proof.
  intros Hne. assert (Hk : String.eqb k' k = false).
  { apply String.eqb_neq. congruence. }
  induction m as [|[k2 a2] m IH]; cbn.
  - rewrite Hk. reflexivity.
  - destruct (String.eqb k k2) eqn:E; cbn.
    + apply String.eqb_eq in E. subst k2. rewrite Hk. reflexivity.
    + rewrite IH. reflexivity.
Qed.

Lemma map_get_delete_eq k m :
  CacheService.map_get k (CacheService.map_delete k m) = None.
Proof.
  induction m as [|[k' a'] m IH]; cbn; [reflexivity|].
  destruct (String.eqb k k') eqn:E; cbn; [exact IH|].
  rewrite E. exact IH.
Qed.

Lemma map_get_delete_ne k k' m :
  k <> k' ->
  CacheService.map_get k' (CacheService.map_delete k m)
  = CacheService.map_get k' m.
Proof.
  intros Hne. induction m as [|[k2 a2] m IH]; cbn; [reflexivity|].
  destruct (String.eqb k k2) eqn:E; cbn.
  - apply String.eqb_eq in E. subst k2.
    assert (Hk : String.eqb k' k = false) by (apply String.eqb_neq; congruence).
    rewrite Hk. exact IH.
  - rewrite IH. reflexivity.
Qed.

Lemma map_set_absent k (a : A) m :
  CacheService.map_get k m = None ->
  CacheService.map_set k a m = (m ++ [(k, a)])%list.
Proof.
  induction m as [|[k' a'] m IH]; cbn; [reflexivity|].
  destruct (String.eqb k k'); [discriminate|].
  intros H. rewrite (IH H). reflexivity.
Qed.

Lemma map_set_present_length k (a : A) m :
  CacheService.map_get k m <> None ->
  length (CacheService.map_set k a m) = length m.
Proof.
  induction m as [|[k' a'] m IH]; cbn; [congruence|].
  destruct (String.eqb k k'); [reflexivity|].
  intros H. cbn. rewrite (IH H). reflexivity.
Qed.

Lemma map_get_elem k (a : A) m :
  (k, a) ∈ m -> CacheService.map_get k m <> None.
Proof.
  induction m as [|[k' a'] m IH]; intros H; [inversion H|]. cbn.
  destruct (String.eqb k k') eqn:E; [discriminate|].
  apply elem_of_cons in H as [H|H]; [|exact (IH H)].
  injection H as -> _. rewrite String.eqb_refl in E. discriminate.
Qed.

End MapProperties.

Lemma order_by_snoc {A} (le : A -> A -> bool) (l : list A) (x : A) :
  (forall y, y ∈ l -> le y x = true) ->
  order_by le (l ++ [x]) = (order_by le l ++ [x])%list.
Proof.
  assert (Hins : forall y s, le y x = true ->
            insert_sorted le y (s ++ [x]) = (insert_sorted le y s ++ [x])%list).
  { intros y s Hy. induction s as [|z s IH]; cbn.
    - rewrite Hy. reflexivity.
    - destruct (le y z); [reflexivity|]. rewrite IH. reflexivity. }
  induction l as [|y l IH]; intros H; cbn; [reflexivity|].
  rewrite IH by (intros z Hz; apply H, elem_of_cons; auto).
  apply Hins, H, elem_of_cons. auto.
Qed.

Section CacheProperties.
Context {V : Type}.
Implicit Types (s : CacheService.t V) (k key : string).

Lemma cache_delete_get key k s :
  CacheService.map_get k
    (CacheService.cache V (fst (CacheService.delete V key s)))
  = if String.eqb key k then None
    else CacheService.map_get k (CacheService.cache V s).
Proof.
  unfold CacheService.delete, CacheService.map_has.
  cbn [fst CacheService.cache].
  destruct (String.eqb key k) eqn:E.
  - apply String.eqb_eq in E. subst k.
    destruct (CacheService.map_get key (CacheService.cache V s)) eqn:G.
    + apply map_get_delete_eq.
    + exact G.
  - apply String.eqb_neq in E.
    destruct (CacheService.map_get key (CacheService.cache V s)).
    + apply map_get_delete_ne, E.
    + reflexivity.
Qed.

Lemma cache_delete_timers key s :
  CacheService.map_get key
    (CacheService.ttlTimers V (fst (CacheService.delete V key s))) = None.
Proof.
  unfold CacheService.delete, CacheService.map_has.
  cbn [fst CacheService.ttlTimers].
  destruct (CacheService.map_get key (CacheService.ttlTimers V s)) eqn:G.
  - apply map_get_delete_eq.
  - exact G.
Qed.

Lemma evict_keeps k s (l : list (string * CacheService.Entry V)) :
  (forall kv, kv ∈ l -> fst kv <> k) ->
  CacheService.map_get k
    (CacheService.cache V
       (foldl (fun s kv => fst (CacheService.delete V (fst kv) s)) s l))
  = CacheService.map_get k (CacheService.cache V s).
Proof.
  revert s. induction l as [|kv l IH]; intros s H; cbn [foldl]; [reflexivity|].
  rewrite IH by (intros x Hx; apply H, elem_of_cons; auto).
  rewrite cache_delete_get.
  assert (Hne : fst kv <> k) by (apply H, elem_of_cons; auto).
  apply String.eqb_neq in Hne. rewrite Hne. reflexivity.
Qed.

(** [set] leaves the stored entry in the cache: the eviction it may
    trigger removes older keys only. *)
Lemma cache_set_get key (v : V) ttlMs now s :
  (length (CacheService.cache V s) <= 1000)%nat ->
  (forall k e, (k, e) ∈ CacheService.cache V s ->
               CacheService.lastAccessed V e <= now) ->
  CacheService.map_get key
    (CacheService.cache V (CacheService.set V key v ttlMs now s))
  = Some (CacheService.mkEntry V v now now
            ((fun n => now + n) <$> CacheService.ttl_given ttlMs)).
Proof.
  intros Hlen Hclock. unfold CacheService.set.
  set (entry := CacheService.mkEntry V v now now _).
  set (s1 := CacheService.mk V _ _ _).
  assert (Hs1 : CacheService.map_get key (CacheService.cache V s1) = Some entry)
    by apply map_get_set_eq.
  destruct (1000 <? length (CacheService.cache V s1))%nat eqn:E;
    [|exact Hs1].
  apply Nat.ltb_lt in E.
  destruct (CacheService.map_get key (CacheService.cache V s)) eqn:G.
  { exfalso. subst s1. cbn [CacheService.cache] in E.
    rewrite map_set_present_length in E by congruence. lia. }
  unfold CacheService.evictLRU. rewrite evict_keeps; [exact Hs1|].
  subst s1. cbn [CacheService.cache] in E |- *.
  rewrite (map_set_absent key entry _ G) in E |- *.
  rewrite length_app in E. cbn [length] in E.
  rewrite order_by_snoc.
  - intros kv Hkv. rewrite length_app in Hkv. cbn [length] in Hkv.
    rewrite take_app_le in Hkv.
    + apply elem_of_take in Hkv as [i [Hkv _]].
      apply list_elem_of_lookup_2, order_by_elem in Hkv.
      intros Heq. destruct kv as [k e]. cbn [fst] in Heq. subst k.
      exact (map_get_elem key e _ Hkv G).
    + rewrite order_by_length.
      apply Nat.Div0.div_le_upper_bound. lia.
  - intros [k e] Hy. cbn [snd]. subst entry. cbn [CacheService.lastAccessed].
    apply Z.leb_le. exact (Hclock k e Hy).
Qed.

Lemma timers_delete_get key k s :
  CacheService.map_get k
    (CacheService.ttlTimers V (fst (CacheService.delete V key s)))
  = if String.eqb key k then None
    else CacheService.map_get k (CacheService.ttlTimers V s).
Proof.
  unfold CacheService.delete, CacheService.map_has.
  cbn [fst CacheService.ttlTimers].
  destruct (String.eqb key k) eqn:E.
  - apply String.eqb_eq in E. subst k.
    destruct (CacheService.map_get key (CacheService.ttlTimers V s)) eqn:G.
    + apply map_get_delete_eq.
    + exact G.
  - apply String.eqb_neq in E.
    destruct (CacheService.map_get key (CacheService.ttlTimers V s)).
    + apply map_get_delete_ne, E.
    + reflexivity.
Qed.

Lemma evict_keeps_timer k s (l : list (string * CacheService.Entry V)) :
  (forall kv, kv ∈ l -> fst kv <> k) ->
  CacheService.map_get k
    (CacheService.ttlTimers V
       (foldl (fun s kv => fst (CacheService.delete V (fst kv) s)) s l))
  = CacheService.map_get k (CacheService.ttlTimers V s).
Proof.
  revert s. induction l as [|kv l IH]; intros s H; cbn [foldl]; [reflexivity|].
  rewrite IH by (intros x Hx; apply H, elem_of_cons; auto).
  rewrite timers_delete_get.
  assert (Hne : fst kv <> k) by (apply H, elem_of_cons; auto).
  apply String.eqb_neq in Hne. rewrite Hne. reflexivity.
Qed.

(** [set] with a TTL leaves the timer of the key armed, due when the
    delay the timer really uses has elapsed: the eviction [set] may
    trigger removes older keys only. *)
Lemma cache_set_timer key (v : V) ttl now s :
  (length (CacheService.cache V s) <= 1000)%nat ->
  (forall k e, (k, e) ∈ CacheService.cache V s ->
               CacheService.lastAccessed V e <= now) ->
  ttl <> 0 ->
  CacheService.map_get key
    (CacheService.ttlTimers V (CacheService.set V key v (Some ttl) now s))
  = Some (now + CacheService.timer_delay ttl).
Proof.
  intros Hlen Hclock Httl. unfold CacheService.set.
  assert (Hg : CacheService.ttl_given (Some ttl) = Some ttl).
  { unfold CacheService.ttl_given. destruct (ttl =? 0) eqn:E; [lia|].
    reflexivity. }
  rewrite Hg.
  set (entry := CacheService.mkEntry V v now now _).
  set (s1 := CacheService.mk V _ _ _).
  assert (Hs1 : CacheService.map_get key (CacheService.ttlTimers V s1)
                = Some (now + CacheService.timer_delay ttl))
    by apply map_get_set_eq.
  destruct (1000 <? length (CacheService.cache V s1))%nat eqn:E;
    [|exact Hs1].
  apply Nat.ltb_lt in E.
  destruct (CacheService.map_get key (CacheService.cache V s)) eqn:G.
  { exfalso. subst s1. cbn [CacheService.cache] in E.
    rewrite map_set_present_length in E by congruence. lia. }
  unfold CacheService.evictLRU. rewrite evict_keeps_timer; [exact Hs1|].
  subst s1. cbn [CacheService.cache] in E |- *.
  rewrite (map_set_absent key entry _ G) in E |- *.
  rewrite length_app in E. cbn [length] in E.
  rewrite order_by_snoc.
  - intros kv Hkv. rewrite length_app in Hkv. cbn [length] in Hkv.
    rewrite take_app_le in Hkv.
    + apply elem_of_take in Hkv as [i [Hkv _]].
      apply list_elem_of_lookup_2, order_by_elem in Hkv.
      intros Heq. destruct kv as [k e]. cbn [fst] in Heq. subst k.
      exact (map_get_elem key e _ Hkv G).
    + rewrite order_by_length.
      apply Nat.Div0.div_le_upper_bound. lia.
  - intros [k e] Hy. cbn [snd]. subst entry. cbn [CacheService.lastAccessed].
    apply Z.leb_le. exact (Hclock k e Hy).
Qed.

End CacheProperties.

(** ** The bound and the clock of the cache are invariants of its runs *)

Section CacheRuns.
Context {V : Type}.
Implicit Types (s : CacheService.t V) (k key : string).

Lemma map_delete_elem {A} k (x : string * A) m :
  x ∈ CacheService.map_delete k m -> x ∈ m.
Proof.
  induction m as [|[k' a'] m IH]; cbn; [auto|].
  destruct (String.eqb k k').
  - intros H. apply elem_of_cons. right. exact (IH H).
  - intros H. apply elem_of_cons in H as [H|H]; apply elem_of_cons; auto.
Qed.

Lemma map_delete_length {A} k (m : list (string * A)) :
  (length (CacheService.map_delete k m) <= length m)%nat.
Proof.
  induction m as [|[k' a'] m IH]; cbn; [lia|].
  destruct (String.eqb k k'); cbn; lia.
Qed.

Lemma map_delete_present_length {A} k (m : list (string * A)) :
  CacheService.map_get k m <> None ->
  (length (CacheService.map_delete k m) < length m)%nat.
Proof.
  induction m as [|[k' a'] m IH]; cbn; [congruence|].
  destruct (String.eqb k k'); cbn.
  - intros _. pose proof (map_delete_length k m). lia.
  - intros H. specialize (IH H). lia.
Qed.

Lemma map_set_elem {A} k (a : A) (x : string * A) m :
  x ∈ CacheService.map_set k a m -> x = (k, a) \/ x ∈ m.
Proof.
  induction m as [|[k' a'] m IH]; cbn.
  - intros H. apply list_elem_of_singleton in H. auto.
  - destruct (String.eqb k k').
    + intros H. apply elem_of_cons in H as [H|H]; [auto|].
      right. apply elem_of_cons. auto.
    + intros H. apply elem_of_cons in H as [H|H].
      * right. apply elem_of_cons. auto.
      * destruct (IH H) as [E|E]; [auto|]. right. apply elem_of_cons. auto.
Qed.

Lemma map_set_length {A} k (a : A) (m : list (string * A)) :
  (length (CacheService.map_set k a m) <= S (length m))%nat.
Proof.
  induction m as [|[k' a'] m IH]; cbn; [lia|].
  destruct (String.eqb k k'); cbn; lia.
Qed.

Lemma cache_delete_ok key now s :
  cache_ok now s -> cache_ok now (fst (CacheService.delete V key s)).
Proof.
  intros [Hl Hc]. unfold CacheService.delete. cbn [fst].
  destruct (CacheService.map_has key (CacheService.cache V s)); split;
    cbn [CacheService.cache]; auto.
  - pose proof (map_delete_length key (CacheService.cache V s)). lia.
  - intros k e H. apply (Hc k e). exact (map_delete_elem key _ _ H).
Qed.

Lemma cache_delete_length key s :
  (length (CacheService.cache V (fst (CacheService.delete V key s)))
   <= length (CacheService.cache V s))%nat.
Proof.
  unfold CacheService.delete. cbn [fst CacheService.cache].
  destruct (CacheService.map_has key (CacheService.cache V s)); [|lia].
  apply map_delete_length.
Qed.

Lemma cache_delete_subset key s x :
  x ∈ CacheService.cache V (fst (CacheService.delete V key s)) ->
  x ∈ CacheService.cache V s.
Proof.
  unfold CacheService.delete. cbn [fst CacheService.cache].
  destruct (CacheService.map_has key (CacheService.cache V s)); [|auto].
  apply map_delete_elem.
Qed.

Lemma evict_fold_length s (l : list (string * CacheService.Entry V)) :
  (length (CacheService.cache V
             (foldl (fun s kv => fst (CacheService.delete V (fst kv) s)) s l))
   <= length (CacheService.cache V s))%nat.
Proof.
  revert s. induction l as [|kv l IH]; intros s; cbn [foldl]; [lia|].
  etransitivity; [apply IH|]. apply cache_delete_length.
Qed.

Lemma evict_fold_subset s (l : list (string * CacheService.Entry V)) x :
  x ∈ CacheService.cache V
        (foldl (fun s kv => fst (CacheService.delete V (fst kv) s)) s l) ->
  x ∈ CacheService.cache V s.
Proof.
  revert s. induction l as [|kv l IH]; intros s; cbn [foldl]; [auto|].
  intros H. apply (cache_delete_subset (fst kv)). exact (IH _ H).
Qed.

(** An eviction of a cache of more than 1000 entries removes at least
    one of them. *)
Lemma evictLRU_length s :
  (1000 < length (CacheService.cache V s))%nat ->
  (length (CacheService.cache V (CacheService.evictLRU V s))
   < length (CacheService.cache V s))%nat.
Proof.
  intros Hlen. unfold CacheService.evictLRU.
  set (sorted := order_by _ (CacheService.cache V s)).
  assert (Hs : length sorted = length (CacheService.cache V s))
    by apply order_by_length.
  assert (Hn : (1 <= length (CacheService.cache V s) / 10)%nat).
  { apply Nat.div_le_lower_bound; lia. }
  destruct (length (CacheService.cache V s) / 10)%nat as [|n] eqn:En; [lia|].
  destruct sorted as [|kv rest] eqn:Es; [cbn in Hs; lia|].
  cbn [take foldl].
  eapply Nat.le_lt_trans; [apply evict_fold_length|].
  unfold CacheService.delete, CacheService.map_has. cbn [fst CacheService.cache].
  assert (Hin : kv ∈ CacheService.cache V s).
  { apply (order_by_elem
             (fun a b => CacheService.lastAccessed V (snd a)
                         <=? CacheService.lastAccessed V (snd b))).
    fold sorted. rewrite Es. apply elem_of_cons. auto. }
  destruct kv as [k e]. cbn [fst].
  pose proof (map_get_elem k e _ Hin) as Hg.
  destruct (CacheService.map_get k (CacheService.cache V s)) eqn:G;
    [|congruence].
  apply map_delete_present_length. congruence.
Qed.

Lemma cache_set_ok key (v : V) ttlMs now t s :
  cache_ok now s -> now <= t ->
  cache_ok t (CacheService.set V key v ttlMs t s).
Proof.
  intros [Hl Hc] Ht. unfold CacheService.set.
  set (entry := CacheService.mkEntry V v t t _).
  set (s1 := CacheService.mk V _ _ _).
  assert (Hl1 : (length (CacheService.cache V s1) <= 1001)%nat).
  { subst s1. cbn [CacheService.cache].
    pose proof (map_set_length key entry (CacheService.cache V s)). lia. }
  assert (Hc1 : forall k e, (k, e) ∈ CacheService.cache V s1 ->
                            CacheService.lastAccessed V e <= t).
  { subst s1. cbn [CacheService.cache]. intros k e H.
    apply map_set_elem in H as [H|H].
    - injection H as _ ->. cbn. lia.
    - pose proof (Hc k e H). lia. }
  destruct (1000 <? length (CacheService.cache V s1))%nat eqn:E.
  - apply Nat.ltb_lt in E. split.
    + pose proof (evictLRU_length s1 E). lia.
    + intros k e H. apply (Hc1 k e).
      unfold CacheService.evictLRU in H. exact (evict_fold_subset _ _ _ H).
  - apply Nat.ltb_ge in E. split; [exact E|exact Hc1].
Qed.

Lemma cache_get_ok key now t s :
  cache_ok now s -> now <= t ->
  cache_ok t (fst (CacheService.get V key t s)).
Proof.
  intros [Hl Hc] Ht.
  assert (Hw : cache_ok t s).
  { split; [exact Hl|]. intros k e H. pose proof (Hc k e H). lia. }
  unfold CacheService.get.
  destruct (CacheService.map_get key (CacheService.cache V s)) as [e|] eqn:G;
    [|exact Hw].
  destruct (CacheService.expired V t e); cbn [fst].
  - destruct (cache_delete_ok key t s Hw) as [H1 H2]. split; assumption.
  - split; cbn [CacheService.cache].
    + rewrite map_set_present_length by congruence. exact Hl.
    + intros k x H. apply map_set_elem in H as [H|H].
      * injection H as _ ->. cbn. lia.
      * pose proof (Hc k x H). lia.
Qed.

(** Every state of a run is within the bound of 1000 entries, and none of
    its entries was accessed after the instant of the last call. *)
Lemma cache_run_ok now s : cache_run now s -> cache_ok now s.
Proof.
  induction 1 as [now|now s key t _ IH Ht|now s key v ttlMs t _ IH Ht
                  |now s key _ IH|now s key _ IH|now s t _ IH Ht].
  - split; [cbn; lia|]. intros k e H. inversion H.
  - exact (cache_get_ok key now t s IH Ht).
  - exact (cache_set_ok key v ttlMs now t s IH Ht).
  - exact (cache_delete_ok key now s IH).
  - exact (cache_delete_ok key now s IH).
  - destruct IH as [Hl Hc]. split; [exact Hl|].
    intros k e H. pose proof (Hc k e H). lia.
Qed.

End CacheRuns.

Section CacheGet.
Context {V : Type}.
Implicit Types (s : CacheService.t V) (k key : string).

(** [get] of a key without an entry: a miss. *)
Lemma cache_get_absent s key t :
  CacheService.map_get key (CacheService.cache V s) = None ->
  let r := CacheService.get V key t s in
  snd r = None
  /\ CacheService.misses (CacheService.stats V (fst r))
     = CacheService.misses (CacheService.stats V s) + 1
  /\ CacheService.hits (CacheService.stats V (fst r))
     = CacheService.hits (CacheService.stats V s)
  /\ CacheService.cache V (fst r) = CacheService.cache V s.
Proof.
  intros H. unfold CacheService.get. rewrite H. cbn. auto.
Qed.

(** [get] of an entry whose expiry time has passed: the entry and its
    timer are deleted, and it is a miss. *)
Lemma cache_get_expired s key e x t :
  CacheService.map_get key (CacheService.cache V s) = Some e ->
  CacheService.expiresAt V e = Some x -> x <> 0 -> x < t ->
  let r := CacheService.get V key t s in
  snd r = None
  /\ CacheService.map_get key (CacheService.cache V (fst r)) = None
  /\ CacheService.map_get key (CacheService.ttlTimers V (fst r)) = None
  /\ CacheService.misses (CacheService.stats V (fst r))
     = CacheService.misses (CacheService.stats V s) + 1
  /\ CacheService.hits (CacheService.stats V (fst r))
     = CacheService.hits (CacheService.stats V s)
  /\ CacheService.deletes (CacheService.stats V (fst r))
     = CacheService.deletes (CacheService.stats V s) + 1
  /\ forall k, k <> key ->
       CacheService.map_get k (CacheService.cache V (fst r))
       = CacheService.map_get k (CacheService.cache V s).
Proof.
  intros He Hx Hx0 Hlt. unfold CacheService.get. rewrite He.
  assert (Hexp : CacheService.expired V t e = true).
  { unfold CacheService.expired. rewrite Hx.
    apply andb_true_iff. split; [apply negb_true_iff|]; lia. }
  rewrite Hexp. cbn [fst snd CacheService.cache CacheService.ttlTimers
                     CacheService.stats CacheService.misses CacheService.hits
                     CacheService.deletes].
  split; [reflexivity|]. split.
  { rewrite cache_delete_get, String.eqb_refl. reflexivity. }
  split; [apply cache_delete_timers|].
  unfold CacheService.delete, CacheService.map_has. rewrite He.
  cbn [fst CacheService.stats CacheService.misses CacheService.hits
       CacheService.deletes CacheService.cache].
  repeat split. intros k Hk. apply map_get_delete_ne. congruence.
Qed.

(** [get] of an entry that has not expired: a hit that returns the
    stored value and stamps the entry with the time of the access. *)
Lemma cache_get_live s key e t :
  CacheService.map_get key (CacheService.cache V s) = Some e ->
  (forall x, CacheService.expiresAt V e = Some x -> t <= x) ->
  let r := CacheService.get V key t s in
  snd r = Some (CacheService.value V e)
  /\ CacheService.map_get key (CacheService.cache V (fst r))
     = Some (CacheService.mkEntry V (CacheService.value V e)
               (CacheService.createdAt V e) t (CacheService.expiresAt V e))
  /\ CacheService.hits (CacheService.stats V (fst r))
     = CacheService.hits (CacheService.stats V s) + 1
  /\ CacheService.misses (CacheService.stats V (fst r))
     = CacheService.misses (CacheService.stats V s)
  /\ forall k, k <> key ->
       CacheService.map_get k (CacheService.cache V (fst r))
       = CacheService.map_get k (CacheService.cache V s).
Proof.
  intros He Hx. unfold CacheService.get. rewrite He.
  assert (Hexp : CacheService.expired V t e = false).
  { unfold CacheService.expired.
    destruct (CacheService.expiresAt V e) as [x|]; [|reflexivity].
    specialize (Hx x eq_refl). apply andb_false_iff. right. lia. }
  rewrite Hexp. cbn [fst snd CacheService.cache CacheService.stats
                     CacheService.misses CacheService.hits].
  split; [reflexivity|]. split; [apply map_get_set_eq|].
  repeat split. intros k Hk. apply map_get_set_ne. congruence.
Qed.

(** A TTL that is a delay a timer accepts, 1 to 2147483647 ms. Let [key]
    be set with such a TTL at time [now], in any state of a run of the
    cache. The timer of the key is due at the expiry time
    [now + ttl], and does not run before: [fired] tells whether it has
    run when [get(key)] is called at [t]. Before the expiry time the
    [get] returns exactly the stored value, counts one hit and sets the
    last-accessed time of the entry to the time of the access; after it
    the [get] returns [null], leaves no entry for the key and counts one
    miss, whether the entry is still there or its timer has removed it;
    at the expiry time itself it is the first if the timer has not run
    and the second if it has. A [get] of a key that has no entry returns
    [null] and counts one miss. *)
Lemma cache_get_after_set s key (v : V) ttl now0 now t (fired : bool) :
  cache_run now0 s -> now0 <= now ->
  0 <= now -> 1 <= ttl <= 2147483647 ->
  (fired = true -> now + ttl <= t) ->
  let s1 := CacheService.set V key v (Some ttl) now s in
  let s2 := if fired then CacheService.timer_fired V key s1 else s1 in
  let r := CacheService.get V key t s2 in
  CacheService.map_get key (CacheService.ttlTimers V s1) = Some (now + ttl)
  /\ (now + ttl < t \/ fired = true ->
      snd r = None
      /\ CacheService.map_get key (CacheService.cache V (fst r)) = None
      /\ CacheService.misses (CacheService.stats V (fst r))
         = CacheService.misses (CacheService.stats V s1) + 1
      /\ CacheService.hits (CacheService.stats V (fst r))
         = CacheService.hits (CacheService.stats V s1))
  /\ (t < now + ttl \/ (t = now + ttl /\ fired = false) ->
      snd r = Some v
      /\ CacheService.map_get key (CacheService.cache V (fst r))
         = Some (CacheService.mkEntry V v now t (Some (now + ttl)))
      /\ CacheService.hits (CacheService.stats V (fst r))
         = CacheService.hits (CacheService.stats V s1) + 1
      /\ CacheService.misses (CacheService.stats V (fst r))
         = CacheService.misses (CacheService.stats V s1))
  /\ (forall s' k,
        CacheService.map_get k (CacheService.cache V s') = None ->
        let r := CacheService.get V k t s' in
        snd r = None
        /\ CacheService.misses (CacheService.stats V (fst r))
           = CacheService.misses (CacheService.stats V s') + 1
        /\ CacheService.hits (CacheService.stats V (fst r))
           = CacheService.hits (CacheService.stats V s')
        /\ CacheService.cache V (fst r) = CacheService.cache V s').
Proof.
  intros Hrun Hnow0 Hnow Httl Hfired s1 s2 r.
  destruct (cache_run_ok now s (run_wait now0 s now Hrun Hnow0))
    as [Hlen Hclock].
  assert (He : CacheService.map_get key (CacheService.cache V s1)
               = Some (CacheService.mkEntry V v now now (Some (now + ttl)))).
  { subst s1. rewrite (cache_set_get key v (Some ttl) now s Hlen Hclock).
    unfold CacheService.ttl_given.
    destruct (ttl =? 0) eqn:E; [lia|reflexivity]. }
  assert (Hgone : CacheService.map_get key
            (CacheService.cache V (CacheService.timer_fired V key s1))
            = None).
  { unfold CacheService.timer_fired. rewrite cache_delete_get.
    rewrite String.eqb_refl. reflexivity. }
  assert (Hst : CacheService.misses
                  (CacheService.stats V (CacheService.timer_fired V key s1))
                = CacheService.misses (CacheService.stats V s1)
                /\ CacheService.hits
                     (CacheService.stats V (CacheService.timer_fired V key s1))
                   = CacheService.hits (CacheService.stats V s1)).
  { unfold CacheService.timer_fired, CacheService.delete.
    cbn [fst CacheService.stats].
    destruct (CacheService.map_has key (CacheService.cache V s1));
      split; reflexivity. }
  split; [|split; [|split]].
  - subst s1. rewrite (cache_set_timer key v ttl now s Hlen Hclock) by lia.
    unfold CacheService.timer_delay.
    replace ((1 <=? ttl) && (ttl <=? 2147483647)) with true; [reflexivity|].
    symmetry. apply andb_true_iff. split; apply Z.leb_le; lia.
  - intros Hcase. subst r s2. destruct fired.
    + destruct (cache_get_absent _ key t Hgone) as (H1 & H2 & H3 & H4).
      destruct Hst as [Hm Hh].
      split; [exact H1|]. split; [rewrite H4; exact Hgone|].
      split; [rewrite H2, Hm; reflexivity|rewrite H3, Hh; reflexivity].
    + destruct Hcase as [Ht|Hf]; [|discriminate Hf].
      destruct (cache_get_expired s1 key _ (now + ttl) t He eq_refl)
        as (H1 & H2 & _ & H4 & H5 & _); [lia|lia|]. auto.
  - intros Hcase. subst r s2.
    assert (Hf : fired = false).
    { destruct fired; [|reflexivity]. specialize (Hfired eq_refl).
      destruct Hcase as [Ht|[_ Hf]]; [lia|exact Hf]. }
    rewrite Hf.
    destruct (cache_get_live s1 key _ t He) as (H1 & H2 & H3 & H4 & _).
    { cbn. intros x Hx. injection Hx as <-. lia. }
    auto.
  - intros s' k Hk. exact (cache_get_absent s' k t Hk).
Qed.

(** C10 on the code, at a TTL above 2147483647 ms, which is not a delay
    a timer accepts: the timer armed by [set] is due one millisecond
    after the call. Let [key] be set with such a TTL at time [now], in any
    state of a run of the cache, and let [t] be an instant from
    [now + 1] on and before the expiry time [now + ttl]. The entry is
    stored with the expiry time [now + ttl], and at [t] it has not
    expired; yet its timer is due at [now + 1], and once it has run
    [get(key)] at [t] returns [null] and counts a miss, not a hit: the
    entry is gone. *)
Theorem cache_large_ttl_dropped s key (v : V) ttl now0 now t :
  cache_run now0 s -> now0 <= now ->
  0 <= now -> 2147483647 < ttl ->
  now + 1 <= t -> t < now + ttl ->
  let s1 := CacheService.set V key v (Some ttl) now s in
  let entry := CacheService.mkEntry V v now now (Some (now + ttl)) in
  let r := CacheService.get V key t (CacheService.timer_fired V key s1) in
  CacheService.map_get key (CacheService.cache V s1) = Some entry
  /\ CacheService.expired V t entry = false
  /\ CacheService.map_get key (CacheService.ttlTimers V s1) = Some (now + 1)
  /\ CacheService.map_get key
       (CacheService.cache V (CacheService.timer_fired V key s1)) = None
  /\ snd r = None
  /\ CacheService.misses (CacheService.stats V (fst r))
     = CacheService.misses (CacheService.stats V s1) + 1
  /\ CacheService.hits (CacheService.stats V (fst r))
     = CacheService.hits (CacheService.stats V s1)
  /\ CacheService.map_get key (CacheService.cache V (fst r)) = None.
Proof.
  intros Hrun Hnow0 Hnow Httl Ht1 Ht2 s1 entry r.
  destruct (cache_run_ok now s (run_wait now0 s now Hrun Hnow0))
    as [Hlen Hclock].
  assert (Hgone : CacheService.map_get key
            (CacheService.cache V (CacheService.timer_fired V key s1))
            = None).
  { unfold CacheService.timer_fired. rewrite cache_delete_get.
    rewrite String.eqb_refl. reflexivity. }
  destruct (cache_get_absent _ key t Hgone) as (H1 & H2 & H3 & H4).
  fold r in H1, H2, H3, H4.
  split; [|split; [|split; [|split; [|split; [|split; [|split]]]]]].
  - subst s1 entry. rewrite (cache_set_get key v (Some ttl) now s Hlen Hclock).
    unfold CacheService.ttl_given.
    destruct (ttl =? 0) eqn:E; [lia|reflexivity].
  - unfold CacheService.expired. subst entry. cbn [CacheService.expiresAt].
    apply andb_false_iff. right. apply Z.ltb_ge. lia.
  - subst s1. rewrite (cache_set_timer key v ttl now s Hlen Hclock) by lia.
    unfold CacheService.timer_delay.
    replace ((1 <=? ttl) && (ttl <=? 2147483647)) with false; [reflexivity|].
    symmetry. apply andb_false_iff. right. apply Z.leb_gt. lia.
  - exact Hgone.
  - exact H1.
  - rewrite H2. unfold CacheService.timer_fired, CacheService.delete.
    cbn [fst CacheService.stats].
    destruct (CacheService.map_has key (CacheService.cache V s1)); reflexivity.
  - rewrite H3. unfold CacheService.timer_fired, CacheService.delete.
    cbn [fst CacheService.stats].
    destruct (CacheService.map_has key (CacheService.cache V s1)); reflexivity.
  - rewrite H4. exact Hgone.
Qed.

End CacheGet.

Lemma cache_large_ttl_dropped_witness :
  CacheService.map_get "job:j1"
    (CacheService.ttlTimers Json
       (CacheService.set Json "job:j1" (JStr "report") (Some 2147483648)
          1000 (CacheService.new Json)))
  = Some 1001
  /\ snd (CacheService.get Json "job:j1" 1002
            (CacheService.timer_fired Json "job:j1"
               (CacheService.set Json "job:j1" (JStr "report")
                  (Some 2147483648) 1000 (CacheService.new Json))))
     = None.
Proof.
  destruct (cache_large_ttl_dropped (CacheService.new Json) "job:j1"
              (JStr "report") 2147483648 0 1000 1002 (run_new 0)
              ltac:(lia) ltac:(lia) ltac:(lia) ltac:(lia) ltac:(lia))
    as (_ & _ & H3 & _ & H5 & _).
  split; [exact H3|exact H5].
Defined.

Lemma getStats_view_witness :
  SchedulerService.v_successRate
    (SchedulerService.getStats
       (SchedulerService.mk ∅ ∅ true
          (SchedulerService.mkStats 3 1 2 (of_int 0))))
  = SchedulerService.JString "33.33"
  /\ fixed2 "33.33".
Proof.
  destruct (getStats_view
              (SchedulerService.mk ∅ ∅ true
                 (SchedulerService.mkStats 3 1 2 (of_int 0))))
    as (_ & _ & [(_ & Hs & Hf)|(Hle & _)]).
  - split; [exact Hs|]. apply Hf. vm_compute. exact I.
  - vm_compute in Hle. exfalso. apply Hle. reflexivity.
Defined.

(** ** Evaluations of calculateNextRunTime *)

Example nextRun_every_minute :
  calculateNextRunTime cronPattern "* * * * *" 0 = Some 60000.
Proof. vm_compute. reflexivity. Qed.

Example nextRun_every_five :
  calculateNextRunTime cronPattern "*/5 * * * *" 1560000 = Some 1800000.
Proof. vm_compute. reflexivity. Qed.

Example nextRun_daily :
  calculateNextRunTime cronPattern "0 9 * * *" 0 = Some 12600000.
Proof. vm_compute. reflexivity. Qed.

Example nextRun_weekdays :
  calculateNextRunTime (fun _ => true) "0 9 * * 1-5" 0 = Some 12600000.
Proof. vm_compute. reflexivity. Qed.

(* ===================================================================== *)
(** * Part III: further properties of the code                            *)
(* ===================================================================== *)

(** ** ORDER BY, LIMIT and OFFSET *)

Lemma insert_sorted_perm {A} (le : A -> A -> bool) (x : A) (l : list A) :
  insert_sorted le x l ≡ₚ x :: l.
Proof.
  induction l as [|y l IH]; cbn [insert_sorted]; [reflexivity|].
  destruct (le x y); [reflexivity|].
  rewrite IH. apply Permutation_swap.
Qed.

Lemma order_by_perm {A} (le : A -> A -> bool) (l : list A) :
  order_by le l ≡ₚ l.
Proof.
  induction l as [|x l IH]; cbn [order_by]; [reflexivity|].
  rewrite insert_sorted_perm, IH. reflexivity.
Qed.

Section Sorting.
Context {A : Type} (le : A -> A -> bool).
Hypothesis le_total : forall a b, le a b = false -> le b a = true.
Hypothesis le_trans :
  forall a b c, le a b = true -> le b c = true -> le a c = true.

Lemma insert_sorted_sorted x l :
  StronglySorted (fun a b => le a b = true) l ->
  StronglySorted (fun a b => le a b = true) (insert_sorted le x l).
Proof.
  induction 1 as [|y l Hs IH Hy]; cbn [insert_sorted].
  - repeat constructor.
  - destruct (le x y) eqn:E.
    + constructor; [constructor; assumption|].
      constructor; [exact E|].
      rewrite Forall_forall in Hy |- *. intros z Hz.
      exact (le_trans x y z E (Hy z Hz)).
    + constructor; [exact IH|].
      rewrite Forall_forall in Hy |- *. intros z Hz.
      apply insert_sorted_elem in Hz as [->|Hz]; [|exact (Hy z Hz)].
      apply le_total, E.
Qed.

Lemma order_by_sorted l :
  StronglySorted (fun a b => le a b = true) (order_by le l).
Proof.
  induction l as [|x l IH]; cbn [order_by]; [constructor|].
  apply insert_sorted_sorted, IH.
Qed.

End Sorting.

(** The pages of a list: page [p] (from 0) of size [n] is
    [take n (drop (p * n) l)]; the first [k] pages make up the first
    [k * n] elements. *)
Lemma pages_concat {A} (l : list A) (n k : nat) :
  flat_map (fun p => take n (drop (p * n) l)) (seq 0 k) = take (k * n) l.
Proof.
  induction k as [|k IH]; [reflexivity|].
  rewrite seq_S, flat_map_app, IH. cbn [flat_map plus]. rewrite app_nil_r.
  rewrite take_take_drop. f_equal. lia.
Qed.

(** ** JobRepository.findAll: pagination *)

(** For a page size of at least 1 and any filter on [isActive]: every
    page reports the same [total] (the number of matching jobs) and
    [totalPages] (the least number of pages that hold them), and carries
    at most [limit] jobs; the pages 1 .. [totalPages], one after the
    other, are exactly the matching jobs, newest first, each once; a page
    after the last is empty. *)
Theorem findAll_pages_cover (d : Database) (limit : Z)
    (isActive : option bool) :
  1 <= limit ->
  let page p :=
    JobRepository.findAll
      (JobRepository.mkFindOptions (Z.of_nat p) limit isActive) d in
  let matching :=
    filter (fun r => JobRepository.where_isActive isActive r = true) (jobs d) in
  let total := Z.of_nat (length matching) in
  let pages := ceil_div total limit in
  (forall p, (1 <= p)%nat ->
     JobRepository.fr_total (page p) = total
     /\ JobRepository.fr_totalPages (page p) = pages
     /\ (length (JobRepository.fr_jobs (page p)) <= Z.to_nat limit)%nat)
  /\ limit * (pages - 1) < total <= limit * pages
  /\ flat_map (fun p => JobRepository.fr_jobs (page p))
       (seq 1 (Z.to_nat pages))
     = map (fun r => Job.new (Data.of_row r))
         (order_by (fun a b => desc_le (Row.created_at a) (Row.created_at b))
            matching)
  /\ (forall p, (Z.to_nat pages < p)%nat ->
        JobRepository.fr_jobs (page p) = []).
Proof.
  intros Hl page matching total pages.
  set (sorted :=
         order_by (fun a b => desc_le (Row.created_at a) (Row.created_at b))
           matching).
  set (n := Z.to_nat limit).
  assert (Hn : (1 <= n)%nat) by (subst n; lia).
  assert (Hc : limit * (pages - 1) < total <= limit * pages).
  { subst pages. unfold ceil_div. apply ceil_spec. lia. }
  assert (Hp0 : 0 <= pages) by nia.
  assert (Hrows : forall p, (1 <= p)%nat ->
            JobRepository.fr_jobs (page p)
            = map (fun r => Job.new (Data.of_row r))
                (take n (drop ((p - 1) * n) sorted))).
  { intros p Hp. subst page. unfold JobRepository.findAll.
    cbn [JobRepository.fr_jobs JobRepository.opt_page JobRepository.opt_limit
         JobRepository.opt_isActive].
    fold matching. fold sorted. fold n. do 3 f_equal. subst n. nia. }
  assert (Hlen : length sorted = Z.to_nat total).
  { subst sorted total. rewrite order_by_length. lia. }
  split; [|split; [exact Hc|split]].
  - intros p Hp. split; [reflexivity|]. split; [reflexivity|].
    rewrite (Hrows p Hp), length_map, length_take. lia.
  - rewrite <- seq_shift, flat_map_concat_map, map_map.
    rewrite (map_ext_in _
               (fun p => map (fun r => Job.new (Data.of_row r))
                           (take n (drop (p * n) sorted)))).
    2:{ intros p _. rewrite (Hrows (S p)) by lia. do 3 f_equal. lia. }
    rewrite <- (map_map (fun p => take n (drop (p * n) sorted))
                  (map (fun r => Job.new (Data.of_row r)))).
    rewrite <- concat_map, <- flat_map_concat_map, pages_concat.
    rewrite take_ge; [reflexivity|]. rewrite Hlen. subst n. nia.
  - intros p Hp. rewrite (Hrows p) by lia.
    rewrite drop_ge; [rewrite take_nil; reflexivity|].
    rewrite Hlen. subst n.
    assert (Hz : total <= Z.of_nat (p - 1) * limit) by nia.
    apply Nat2Z.inj_le. rewrite Nat2Z.inj_mul. lia.
Qed.

Lemma findAll_pages_cover_witness :
  flat_map
    (fun p =>
       JobRepository.fr_jobs
         (JobRepository.findAll
            (JobRepository.mkFindOptions (Z.of_nat p) 1 (Some true))
            sample_db))
    (seq 1 1)
  = [sample_job].
Proof.
  destruct (findAll_pages_cover sample_db 1 (Some true) ltac:(lia))
    as (_ & _ & H & _).
  exact H.
Defined.

(** ** JobRepository.getActiveJobs *)

Lemma asc_le_total a b : asc_le a b = false -> asc_le b a = true.
Proof.
  destruct a as [x|], b as [y|]; cbn; try congruence.
  intros H. apply Z.leb_le. apply Z.leb_gt in H. lia.
Qed.

Lemma asc_le_trans a b c :
  asc_le a b = true -> asc_le b c = true -> asc_le a c = true.
Proof.
  destruct a as [x|], b as [y|], c as [z|]; cbn; try congruence.
  rewrite !Z.leb_le. lia.
Qed.

(** [getActiveJobs()] returns the jobs of exactly the rows that are
    active and due (no [next_run_at], or one that is not after the clock
    of the store), each row once, ordered by [next_run_at] with the rows
    without one last. *)
Theorem getActiveJobs_due_sorted (dbnow : Z) (d : Database) :
  exists rows,
    JobRepository.getActiveJobs dbnow d
    = map (fun r => Job.new (Data.of_row r)) rows
    /\ rows ≡ₚ filter (fun r => JobRepository.due dbnow r = true) (jobs d)
    /\ StronglySorted
         (fun a b => asc_le (Row.next_run_at a) (Row.next_run_at b) = true)
         rows
    /\ (forall r, r ∈ rows <->
          r ∈ jobs d /\ Row.is_active r = Some true
          /\ (Row.next_run_at r = None
              \/ exists t, Row.next_run_at r = Some t /\ t <= dbnow)).
Proof.
  eexists. split; [reflexivity|]. split; [apply order_by_perm|]. split.
  - apply (order_by_sorted
             (fun a b => asc_le (Row.next_run_at a) (Row.next_run_at b))).
    + intros a b. apply asc_le_total.
    + intros a b c. apply asc_le_trans.
  - intros r. rewrite order_by_elem, list_elem_of_filter.
    unfold JobRepository.due, sql_is_true. split.
    + intros [H Hin]. apply andb_true_iff in H as [Ha Hn].
      split; [exact Hin|]. split.
      * destruct (Row.is_active r) as [[]|]; congruence.
      * destruct (Row.next_run_at r) as [t|]; [|auto].
        right. exists t. split; [reflexivity|]. lia.
    + intros (Hin & Ha & Hn). split; [|exact Hin]. rewrite Ha. cbn.
      destruct Hn as [->|[t [-> Ht]]]; [reflexivity|]. lia.
Qed.

(** ** JobRepository.delete, create and update *)

Lemma has_id_other id id' r :
  id' <> id -> JobRepository.has_id id' r = true ->
  JobRepository.has_id id r = false.
Proof.
  unfold JobRepository.has_id. intros Hne H.
  apply bool_decide_eq_true in H. apply bool_decide_eq_false. congruence.
Qed.

Lemma filter_has_id_other id id' (rows : list Row.t) :
  id' <> id ->
  filter (fun r => JobRepository.has_id id' r = true)
    (filter (fun r => JobRepository.has_id id r = false) rows)
  = filter (fun r => JobRepository.has_id id' r = true) rows.
Proof.
  intros Hne. rewrite list_filter_filter. apply list_filter_iff.
  intros r. split; [tauto|]. intros H. split; [exact H|].
  exact (has_id_other id id' r Hne H).
Qed.

(** [delete(id)] returns the job [findById(id)] would have returned, or
    [null] when there is none, and then changes nothing. After it
    [findById(id)] finds nothing, every other id is found as before, the
    jobs that are left keep their order, and the executions of the
    deleted job are gone while all others stay. *)
Theorem delete_removes_job (id : JsOpt string) (d : Database) :
  let r := JobRepository.delete id d in
  snd r = JobRepository.findById id d
  /\ JobRepository.findById id (fst r) = None
  /\ (forall id', id' <> id ->
        JobRepository.findById id' (fst r) = JobRepository.findById id' d)
  /\ (snd r = None -> fst r = d)
  /\ (is_Some (snd r) ->
        jobs (fst r)
        = filter (fun x => JobRepository.has_id id x = false) (jobs d)
        /\ job_executions (fst r)
           = filter (fun e => id <> Val (ExecRow.job_id e)) (job_executions d))
  /\ sublist (jobs (fst r)) (jobs d).
Proof.
  unfold JobRepository.delete, JobRepository.findById.
  destruct (filter (fun r => JobRepository.has_id id r = true) (jobs d))
    as [|x l] eqn:E; cbn [fst snd jobs job_executions].
  - rewrite E. split; [reflexivity|]. split; [reflexivity|].
    split; [reflexivity|]. split; [reflexivity|].
    split; [intros [? ?]; discriminate|reflexivity].
  - split; [reflexivity|]. split; [|split; [|split; [|split]]].
    + destruct (filter _ (filter _ (jobs d))) as [|y l'] eqn:F; [reflexivity|].
      exfalso.
      assert (Hy : y ∈ filter (fun r => JobRepository.has_id id r = true)
                     (filter (fun r => JobRepository.has_id id r = false)
                        (jobs d))).
      { rewrite F. apply elem_of_cons. auto. }
      apply list_elem_of_filter in Hy as [H1 Hy].
      apply list_elem_of_filter in Hy as [H2 _]. congruence.
    + intros id' Hne. rewrite (filter_has_id_other id id' (jobs d) Hne).
      reflexivity.
    + discriminate.
    + intros _. split; reflexivity.
    + apply sublist_filter.
Qed.

Lemma job_new_settings (data : Data.t) :
  Job.timeoutMs (Job.new data) <> 0
  /\ Job.maxRetries (Job.new data) <> 0
  /\ Job.retryDelayMs (Job.new data) <> 0
  /\ Job.jobType (Job.new data) <> ""
  /\ truthy_json (Val (Job.payload (Job.new data))) = true.
Proof.
  assert (Hn : forall a b dflt, dflt <> 0 -> num_or a b dflt <> 0).
  { intros a b dflt Hd. unfold num_or, js_or.
    destruct (truthy_num a) eqn:Ea.
    - rewrite Ea. destruct a as [| |n]; try discriminate.
      cbn in Ea. apply negb_true_iff, Z.eqb_neq in Ea. exact Ea.
    - destruct (truthy_num b) eqn:Eb.
      + destruct b as [| |n]; try discriminate.
        cbn in Eb. apply negb_true_iff, Z.eqb_neq in Eb. exact Eb.
      + cbn. destruct (negb (dflt =? 0)); exact Hd. }
  split; [apply Hn; lia|]. split; [apply Hn; lia|]. split; [apply Hn; lia|].
  cbn [Job.new Job.jobType Job.payload]. split.
  - unfold js_or.
    destruct (truthy_str (Data.job_type data)) eqn:E1.
    + rewrite E1. destruct (Data.job_type data) as [| |s]; try discriminate.
      cbn in E1. apply negb_true_iff, String.eqb_neq in E1. exact E1.
    + destruct (truthy_str (Data.jobType data)) eqn:E2.
      * destruct (Data.jobType data) as [| |s]; try discriminate.
        cbn in E2. apply negb_true_iff, String.eqb_neq in E2. exact E2.
      * cbn. discriminate.
  - unfold js_or. destruct (truthy_json (Data.payload data)) eqn:E.
    + destruct (Data.payload data) as [| |j]; try discriminate. exact E.
    + reflexivity.
Qed.

(** What [validate()] accepts, for a job built by the constructor. *)
Lemma job_isValid_inv (data : Data.t) :
  Job.isValid (Job.new data) = true ->
  Job.blank (Job.name (Job.new data)) = false
  /\ Job.blank (Job.cronExpression (Job.new data)) = false
  /\ 1000 <= Job.timeoutMs (Job.new data) <= 300000
  /\ 1 <= Job.maxRetries (Job.new data) <= 10.
Proof.
  destruct (job_new_settings data) as (Ht & Hm & _).
  unfold Job.isValid, Job.validate.
  set (job := Job.new data) in *.
  apply Z.eqb_neq in Ht, Hm. rewrite Ht, Hm. cbn [negb andb].
  destruct (Job.blank (Job.name job)); [discriminate|].
  destruct (Job.blank (Job.cronExpression job)); [discriminate|].
  destruct (Job.timeoutMs job <? 1000) eqn:E1; [discriminate|].
  destruct (300000 <? Job.timeoutMs job) eqn:E2; [discriminate|].
  destruct (Job.maxRetries job <? 0) eqn:E3; [discriminate|].
  destruct (10 <? Job.maxRetries job) eqn:E4; [discriminate|].
  intros _. apply Z.eqb_neq in Hm. lia.
Qed.

Lemma job_isValid_intro (data : Data.t) :
  Job.blank (Job.name (Job.new data)) = false ->
  Job.blank (Job.cronExpression (Job.new data)) = false ->
  1000 <= Job.timeoutMs (Job.new data) <= 300000 ->
  1 <= Job.maxRetries (Job.new data) <= 10 ->
  Job.isValid (Job.new data) = true.
Proof.
  intros Hn Hc Ht Hm. unfold Job.isValid, Job.validate. rewrite Hn, Hc.
  replace (Job.timeoutMs (Job.new data) <? 1000) with false by lia.
  replace (300000 <? Job.timeoutMs (Job.new data)) with false by lia.
  replace (Job.maxRetries (Job.new data) <? 0) with false by lia.
  replace (10 <? Job.maxRetries (Job.new data)) with false by lia.
  rewrite !andb_false_r. reflexivity.
Qed.

(** A job built by the constructor passes [validate()] exactly when its
    name and its cron expression are present and not blank, its timeout
    lies in [1000, 300000] and its retry count in [1, 10]: the defaults
    of the constructor leave neither setting at 0, so the range checks
    are never skipped and a valid job never has zero retries. A job that
    is not valid carries at least one error message. *)
Theorem job_validate_constructed (data : Data.t) :
  let job := Job.new data in
  (Job.isValid job = true <->
     Job.blank (Job.name job) = false
     /\ Job.blank (Job.cronExpression job) = false
     /\ 1000 <= Job.timeoutMs job <= 300000
     /\ 1 <= Job.maxRetries job <= 10)
  /\ (Job.isValid job = false <-> Job.validate job <> []).
Proof.
  intros job. split; [split|].
  - apply job_isValid_inv.
  - intros (Hn & Hc & Ht & Hm). apply job_isValid_intro; assumption.
  - unfold Job.isValid. destruct (Job.validate job); split; congruence.
Qed.

Lemma num_or_val n dflt : n <> 0 -> num_or (Val n) Undefined dflt = n.
Proof.
  intros H. unfold num_or, js_or. cbn.
  apply Z.eqb_neq in H. rewrite H. cbn. rewrite H. reflexivity.
Qed.

Lemma not_blank_truthy s : Job.blank (Val s) = false -> truthy_str (Val s) = true.
Proof.
  cbn. intros H. apply orb_false_iff in H as [H _]. rewrite H. reflexivity.
Qed.

Lemma to_col_Some {A} (v : JsOpt A) a : to_col v = Some a -> v = Val a.
Proof. destruct v; cbn; congruence. Qed.

Lemma create_then_findById_given validate (data : Data.t) (newId : string)
    (date dbnow : Z) (d d' : Database) (job : Job.t) :
  JobRepository.create validate data newId date dbnow d
  = (d', JobRepository.Created job) ->
  let given := Job.new data in
  JobRepository.findById (Val newId) d = None
  /\ JobRepository.findById (Val newId) d' = Some job
  /\ (forall id, id <> Val newId ->
        JobRepository.findById id d' = JobRepository.findById id d)
  /\ (exists row,
        jobs d' = (jobs d ++ [row])%list /\ Row.id row = newId
        /\ Row.created_at row = Some dbnow /\ Row.last_run_at row = None
        /\ Row.total_runs row = Some 0 /\ Row.successful_runs row = Some 0
        /\ Row.failed_runs row = Some 0
        /\ job = Job.new (Data.of_row row))
  /\ job_executions d' = job_executions d
  /\ Job.isValid given = true
  /\ Job.id job = Val newId
  /\ Job.name job = Job.name given
  /\ Job.cronExpression job = Job.cronExpression given
  /\ Job.jobType job = Job.jobType given
  /\ Job.payload job = Job.payload given
  /\ Job.timeoutMs job = Job.timeoutMs given
  /\ Job.maxRetries job = Job.maxRetries given
  /\ Job.retryDelayMs job = Job.retryDelayMs given
  /\ Job.tags job = Job.tags given
  /\ truthy_bool (Job.isActive job) = truthy_bool (Job.isActive given)
  /\ Job.totalRuns job = 0 /\ Job.successfulRuns job = 0
  /\ Job.failedRuns job = 0.
Proof.
  intros H given. unfold JobRepository.create in H. fold given in H.
  destruct (Job.isValid given) eqn:Hv; cbn [negb] in H; [|discriminate].
  cbn [Job.toDatabase Job.db_name Job.db_cron_expression] in H.
  destruct (to_col (Job.name given)) as [nm|] eqn:En; [|discriminate].
  destruct (to_col (Job.cronExpression given)) as [cron|] eqn:Ec;
    [|discriminate].
  destruct (JobRepository.nextRunOf validate (Job.cronExpression given) date);
    [|discriminate].
  destruct (filter (fun r => JobRepository.has_id (Val newId) r = true)
              (jobs d)) as [|x l] eqn:Ef; [|discriminate].
  injection H as Hd Hj.
  set (row := JobRepository.insert_row newId nm cron _ dbnow) in *.
  apply to_col_Some in En, Ec.
  destruct (job_isValid_inv data Hv) as (Hbn & Hbc & _).
  fold given in Hbn, Hbc. rewrite Ec in Hbc.
  destruct (job_new_settings data) as (Ht & Hm & Hr & Hjt & Hp).
  fold given in Ht, Hm, Hr, Hjt, Hp.
  assert (Hrow : filter (fun r => JobRepository.has_id (Val newId) r = true)
                   [row] = [row]).
  { rewrite filter_cons_True; [reflexivity|].
    apply bool_decide_eq_true. reflexivity. }
  subst d' job. cbn [jobs job_executions].
  split; [unfold JobRepository.findById; rewrite Ef; reflexivity|].
  split.
  { unfold JobRepository.findById. cbn [jobs].
    rewrite filter_app, Ef, Hrow. reflexivity. }
  split.
  { intros id Hne. unfold JobRepository.findById. cbn [jobs].
    rewrite filter_app.
    rewrite (filter_cons_False _ row); [rewrite app_nil_r; reflexivity|].
    unfold JobRepository.has_id. rewrite bool_decide_eq_false_2; [auto|].
    exact Hne. }
  split; [exists row; repeat split; reflexivity|].
  split; [reflexivity|]. split; [reflexivity|].
  split; [reflexivity|]. split; [rewrite En; reflexivity|].
  split.
  { rewrite Ec.
    change (js_or truthy_str (Val cron) Undefined = Val cron).
    unfold js_or. rewrite (not_blank_truthy cron Hbc). reflexivity. }
  split.
  { set (jt := Job.jobType given) in *.
    change (match js_or truthy_str (js_or truthy_str (Val jt) Undefined)
                    (Val "scheduled") with
            | Val s => s
            | _ => "scheduled"
            end = jt).
    apply String.eqb_neq in Hjt. unfold js_or. cbn [truthy_str].
    rewrite Hjt. cbn [negb truthy_str]. rewrite Hjt. reflexivity. }
  split.
  { set (pl := Job.payload given) in *.
    change (match js_or truthy_json (Val pl) (Val emptyObject) with
            | Val j => j
            | _ => emptyObject
            end = pl).
    unfold js_or. rewrite Hp. reflexivity. }
  split; [exact (num_or_val _ 30000 Ht)|].
  split; [exact (num_or_val _ 3 Hm)|].
  split; [exact (num_or_val _ 5000 Hr)|].
  split; [reflexivity|].
  split.
  { set (v := Job.isActive given).
    change (truthy_bool
              (if decide (of_col (to_col v) = Undefined) then Undefined
               else of_col (to_col v)) = truthy_bool v).
    destruct v; reflexivity. }
  repeat split; reflexivity.
Qed.

Lemma num_or_request n dflt :
  num_or Undefined (Val n) dflt = if n =? 0 then dflt else n.
Proof.
  unfold num_or, js_or. cbn [truthy_num].
  destruct (n =? 0) eqn:E; cbn [negb truthy_num]; rewrite ?E; cbn [negb].
  - destruct (negb (dflt =? 0)); reflexivity.
  - reflexivity.
Qed.

(** Whenever [create] succeeds: the id drawn was free; the new row is
    the last of the table, with the counters at 0, no [last_run_at] and
    [created_at] the clock of the store; no other row and no execution
    is touched; [findById] of the new id returns the very job [create]
    returned; and that job agrees with the job the constructor builds
    from the request on name, cron expression, type, payload, the three
    run settings, tags and on whether it is active. The constructor
    replaces a falsy run setting by its default: a [timeoutMs],
    [maxRetries] or [retryDelayMs] that the request gives as 0 is stored
    and returned as 30000, 3 or 5000, and any other value as it is
    given. *)
Theorem create_then_findById validate (data : Data.t) (newId : string)
    (date dbnow : Z) (d d' : Database) (job : Job.t) :
  JobRepository.create validate data newId date dbnow d
  = (d', JobRepository.Created job) ->
  let given := Job.new data in
  JobRepository.findById (Val newId) d = None
  /\ JobRepository.findById (Val newId) d' = Some job
  /\ (forall id, id <> Val newId ->
        JobRepository.findById id d' = JobRepository.findById id d)
  /\ (exists row,
        jobs d' = (jobs d ++ [row])%list /\ Row.id row = newId
        /\ Row.created_at row = Some dbnow /\ Row.last_run_at row = None
        /\ Row.total_runs row = Some 0 /\ Row.successful_runs row = Some 0
        /\ Row.failed_runs row = Some 0
        /\ job = Job.new (Data.of_row row))
  /\ job_executions d' = job_executions d
  /\ Job.isValid given = true
  /\ Job.id job = Val newId
  /\ Job.name job = Data.name data
  /\ Job.cronExpression job
     = js_or truthy_str (Data.cron_expression data) (Data.cronExpression data)
  /\ Job.jobType job = Job.jobType given
  /\ Job.payload job = Job.payload given
  /\ Job.timeoutMs job
     = num_or (Data.timeout_ms data) (Data.timeoutMs data) 30000
  /\ Job.maxRetries job
     = num_or (Data.max_retries data) (Data.maxRetries data) 3
  /\ Job.retryDelayMs job
     = num_or (Data.retry_delay_ms data) (Data.retryDelayMs data) 5000
  /\ (forall n, Data.timeout_ms data = Undefined ->
                Data.timeoutMs data = Val n ->
                Job.timeoutMs job = if n =? 0 then 30000 else n)
  /\ (forall n, Data.max_retries data = Undefined ->
                Data.maxRetries data = Val n ->
                Job.maxRetries job = if n =? 0 then 3 else n)
  /\ (forall n, Data.retry_delay_ms data = Undefined ->
                Data.retryDelayMs data = Val n ->
                Job.retryDelayMs job = if n =? 0 then 5000 else n)
  /\ Job.tags job = Job.tags given
  /\ truthy_bool (Job.isActive job) = truthy_bool (Job.isActive given)
  /\ Job.totalRuns job = 0 /\ Job.successfulRuns job = 0
  /\ Job.failedRuns job = 0.
Proof.
  intros H given.
  destruct (create_then_findById_given validate data newId date dbnow d d'
              job H)
    as (H1 & H2 & H3 & H4 & H5 & H6 & H7 & H8 & H9 & H10 & H11 & H12 & H13
        & H14 & H15 & H16 & H17 & H18 & H19).
  fold given in H6, H8, H9, H10, H11, H12, H13, H14, H15, H16.
  do 11 (split; [assumption|]).
  split; [exact H12|]. split; [exact H13|]. split; [exact H14|].
  split.
  { intros n E1 E2. rewrite H12. unfold given.
    cbn [Job.new Job.timeoutMs]. rewrite E1, E2. apply num_or_request. }
  split.
  { intros n E1 E2. rewrite H13. unfold given.
    cbn [Job.new Job.maxRetries]. rewrite E1, E2. apply num_or_request. }
  split.
  { intros n E1 E2. rewrite H14. unfold given.
    cbn [Job.new Job.retryDelayMs]. rewrite E1, E2. apply num_or_request. }
  auto.
Qed.

(** A name made of a no-break space is blank: [trim()] strips it. *)
Example blank_no_break_space :
  Job.blank (Val (String (ascii_of_nat 160) EmptyString)) = true.
Proof. reflexivity. Qed.

Lemma create_sample :
  JobRepository.create cronPattern sample_body "j2" 9000 9001 sample_db
  = (mkDatabase [sample_row; sample_created_row] [] 0,
     JobRepository.Created (Job.new (Data.of_row sample_created_row))).
Proof. vm_compute. reflexivity. Qed.

Lemma create_then_findById_witness :
  JobRepository.findById (Val "j2")
    (mkDatabase [sample_row; sample_created_row] [] 0)
  = Some (Job.new (Data.of_row sample_created_row)).
Proof.
  destruct (create_then_findById cronPattern sample_body "j2" 9000 9001
              sample_db _ _ create_sample) as (_ & H & _).
  exact H.
Defined.

(** ** JobRepository.update: all or nothing, and read your writes *)

Lemma filter_sql_update {A} (p : A -> bool) (f : A -> A) (rows : list A) :
  (forall x, p (f x) = p x) ->
  filter (fun r => p r = true) (sql_update p f rows)
  = map f (filter (fun r => p r = true) rows).
Proof.
  intros Hp. unfold sql_update. induction rows as [|x rows IH]; [reflexivity|].
  cbn [map]. destruct (p x) eqn:E.
  - rewrite filter_cons_True by (rewrite Hp; exact E).
    rewrite filter_cons_True by exact E. cbn [map]. rewrite IH. reflexivity.
  - rewrite !filter_cons_False by congruence. exact IH.
Qed.

(** [update] either succeeds or leaves the store exactly as it was: when
    the id is unknown ([null] is returned), when validation fails (with
    at least one message) and when the statement is refused. When it
    succeeds, no row is added or removed, rows with another id and the
    executions are untouched, and [findById] of the same id then returns
    the very job [update] returned. *)
Theorem update_all_or_nothing validate (id : JsOpt string) (p : Patch.t)
    (date dbnow : Z) (d : Database) :
  let r := JobRepository.update validate id p date dbnow d in
  match snd r with
  | JobRepository.Updated job =>
      JobRepository.findById id (fst r) = Some job
      /\ length (jobs (fst r)) = length (jobs d)
      /\ (forall i row, jobs d !! i = Some row ->
            JobRepository.has_id id row = false ->
            jobs (fst r) !! i = Some row)
      /\ job_executions (fst r) = job_executions d
  | JobRepository.NotFound =>
      fst r = d /\ JobRepository.findById id d = None
  | JobRepository.ValidationFailed errors => fst r = d /\ errors <> []
  | JobRepository.QueryFailed => fst r = d
  end.
Proof.
  unfold JobRepository.update.
  destruct (JobRepository.findById id d) as [existing|] eqn:Ef;
    [|cbn; auto].
  set (updated := Job.new (Job.spread existing p)).
  destruct (Job.isValid updated) eqn:Hv; cbn [negb].
  2:{ cbn. split; [reflexivity|].
      unfold Job.isValid in Hv. destruct (Job.validate updated); congruence. }
  destruct (to_col (Job.db_name (Job.toDatabase updated))) as [nm|];
    [|reflexivity].
  destruct (to_col (Job.db_cron_expression (Job.toDatabase updated)))
    as [cron|]; [|reflexivity].
  match goal with
  | |- context [match ?n with Some _ => _ | None => _ end] =>
      destruct n as [nra|]; [|reflexivity]
  end.
  set (f := JobRepository.update_row nm cron _ _ nra dbnow).
  assert (Hid : forall x, JobRepository.has_id id (f x)
                          = JobRepository.has_id id x)
    by (intros x; apply update_row_has_id).
  pose proof (filter_sql_update (JobRepository.has_id id) f (jobs d) Hid) as Hf.
  unfold sql_returning.
  destruct (filter (fun r => JobRepository.has_id id r = true) (jobs d))
    as [|x l] eqn:E; cbn [map]; [reflexivity|].
  cbn [fst snd jobs job_executions].
  split; [|split; [|split]].
  - unfold JobRepository.findById. cbn [jobs]. rewrite Hf. reflexivity.
  - unfold sql_update. apply length_map.
  - intros i row Hi Hrow. rewrite (sql_update_lookup _ _ _ _ _ Hi), Hrow.
    reflexivity.
  - reflexivity.
Qed.

Lemma num_or_val2 n dflt : n <> 0 -> num_or Undefined (Val n) dflt = n.
Proof.
  intros H. unfold num_or, js_or. cbn [truthy_num].
  apply Z.eqb_neq in H. rewrite H. reflexivity.
Qed.



(** ** calculateNextRunTime: the Dates of a call *)

Section DateRange.
Variable validate : string -> bool.

Lemma read_number_nonneg f : 0 <= read_number f.
Proof.
  unfold read_number. destruct f as [f|]; [|lia].
  destruct (parseInt f); lia.
Qed.

(** The result, and the civil time of Asia/Kolkata it is computed from,
    lie within the reach of the expression from the base instant. *)
Lemma calculateNextRunTime_reach expr t r :
  calculateNextRunTime validate expr t = Some r ->
  t - reach expr < r - istOffset /\ r + istOffset < t + reach expr.
Proof.
  unfold calculateNextRunTime, reach.
  pose proof (read_number_nonneg (split expr !! 1%nat)) as Ha.
  pose proof (read_number_nonneg (split expr !! 0%nat)) as Hb.
  pose proof (read_number_nonneg (substring 2 <$> split expr !! 0%nat)) as Hc.
  destruct (validate expr); cbn [negb].
  2:{ intros H. injection H as <-. date_arith. }
  destruct (split expr !! 0%nat) as [mi|] eqn:Emi.
  2:{ intros H. injection H as <-. date_arith. }
  cbn [fmap option_fmap option_map read_number] in *.
  destruct (String.eqb expr "* * * * *").
  { intros H. injection H as <-. date_arith. }
  destruct (startsWith mi "*/").
  { destruct (parseInt (substring 2 mi)) as [n|]; [|discriminate].
    unfold ceil_div_times. destruct (n =? 0) eqn:E0; [discriminate|].
    apply Z.eqb_neq in E0.
    rewrite step_branch_wrap, step_branch_plain.
    replace (getMinutes (setSeconds (t + istOffset) 0 0))
      with ((t + istOffset) / 60000 mod 60) by date_arith.
    set (m := (t + istOffset) / 60000 mod 60).
    assert (Hm : 0 <= m < 60) by (subst m; apply Z.mod_pos_bound; lia).
    assert (Hq : - Z.abs n <= - (- (m + 1) / n) * n - (m + 1) <= Z.abs n).
    { clearbody m. Z.div_mod_to_equations. lia. }
    set (q := - (- (m + 1) / n) * n) in *. clearbody q m.
    intros H.
    assert (Hr : r = (60 * ((t + istOffset) / 60000 / 60) + q) * 60000
                     - istOffset).
    { destruct (60 <=? q); injection H as <-; reflexivity. }
    subst r. clear H. date_unfold. Z.div_mod_to_equations. lia. }
  destruct (negb (String.eqb mi "*")
            && bool_decide (split expr !! 1%nat = Some "*")).
  { destruct (parseInt mi) as [tm|]; [|discriminate].
    rewrite setHours_next, setMinutes3_floor.
    intros H.
    destruct (tm <=? getMinutes (t + istOffset)); injection H as <-;
      date_arith. }
  destruct (negb (String.eqb mi "*")
            && negb (bool_decide (split expr !! 1%nat = Some "*"))
            && bool_decide (split expr !! 2%nat = Some "*")
            && bool_decide (split expr !! 3%nat = Some "*")).
  { destruct (split expr !! 1%nat) as [h|]; [|discriminate].
    cbn [read_number] in *.
    destruct (parseInt h) as [th|]; [|discriminate].
    destruct (parseInt mi) as [tm|]; [|discriminate].
    rewrite setDate_next_day, setHours4_floor.
    intros H.
    match type of H with
    | context [if ?c then _ else _] => destruct c
    end; injection H as <-; date_arith. }
  intros H. injection H as <-. rewrite setHours_next, setMinutes3_floor.
  date_arith.
Qed.

Lemma reach_two_days expr : 2 * msPerDay <= reach expr.
Proof.
  unfold reach.
  pose proof (read_number_nonneg (split expr !! 1%nat)).
  pose proof (read_number_nonneg (split expr !! 0%nat)).
  pose proof (read_number_nonneg (substring 2 <$> split expr !! 0%nat)).
  unfold msPerDay, msPerHour, msPerMinute. lia.
Qed.

(** From a base instant of [date_range] the date returned is within the
    range of Date. *)
Lemma calculateNextRunTime_in_range expr t r :
  date_range expr t ->
  calculateNextRunTime validate expr t = Some r ->
  in_date_range r = true.
Proof.
  intros [Hlo Hhi] H. apply calculateNextRunTime_reach in H.
  unfold in_date_range. apply andb_true_iff.
  rewrite !Z.leb_le. unfold istOffset in H. lia.
Qed.

End DateRange.

(** ** calculateNextRunTime: what the result depends on *)

Section EvaluatorShape.
Variable validate : string -> bool.

(** For every expression the validator accepts, the instant returned
    (when it is a valid date) lies on a minute boundary: seconds and
    milliseconds are zero, in UTC as in the civil time of Asia/Kolkata. *)
Theorem calculateNextRunTime_minute_boundary expr t r :
  validate expr = true ->
  calculateNextRunTime validate expr t = Some r ->
  r mod msPerMinute = 0 /\ (r + istOffset) mod msPerMinute = 0.
Proof.
  intros Hv H.
  assert (Hoff : forall x, x mod msPerMinute = 0 ->
            (x - istOffset) mod msPerMinute = 0
            /\ (x - istOffset + istOffset) mod msPerMinute = 0).
  { intros x Hx. date_arith. }
  unfold calculateNextRunTime in H. rewrite Hv in H. cbn [negb] in H.
  destruct (split_nonempty expr) as [mi [fs Hs]]. rewrite Hs in H.
  cbn [lookup list_lookup] in H.
  destruct (String.eqb expr "* * * * *").
  { injection H as <-. apply Hoff. date_arith. }
  destruct (startsWith mi "*/").
  { destruct (parseInt (substring 2 mi)) as [interval|]; [|discriminate].
    destruct (ceil_div_times _ interval) as [ni|]; [|discriminate].
    rewrite step_branch_wrap, step_branch_plain in H.
    destruct (60 <=? ni); injection H as <-; apply Hoff;
      unfold msPerMinute; apply Z.mod_mul; lia. }
  destruct (negb (String.eqb mi "*") && bool_decide (fs !! 0%nat = Some "*")).
  { destruct (parseInt mi) as [tm|]; [|discriminate].
    rewrite setHours_next, setMinutes3_floor in H.
    destruct (tm <=? getMinutes (t + istOffset)); injection H as <-;
      apply Hoff; date_arith. }
  destruct (negb (String.eqb mi "*") && negb (bool_decide (fs !! 0%nat = Some "*"))
            && bool_decide (fs !! 1%nat = Some "*")
            && bool_decide (fs !! 2%nat = Some "*")).
  { destruct (fs !! 0%nat) as [h|]; [|discriminate].
    destruct (parseInt h) as [th|]; [|discriminate].
    destruct (parseInt mi) as [tm|]; [|discriminate].
    rewrite setDate_next_day, setHours4_floor in H.
    match type of H with
    | context [if ?c then _ else _] => destruct c
    end; injection H as <-; apply Hoff; date_arith. }
  injection H as <-. apply Hoff. rewrite setHours_next, setMinutes3_floor.
  date_arith.
Qed.

(** The day-of-week field is never read: two accepted expressions with
    the same first four fields, neither being [* * * * *], get the same
    next run at every instant. *)
Theorem calculateNextRunTime_ignores_day_of_week e1 e2 t :
  validate e1 = true -> validate e2 = true ->
  take 4 (split e1) = take 4 (split e2) ->
  e1 <> "* * * * *" -> e2 <> "* * * * *" ->
  calculateNextRunTime validate e1 t = calculateNextRunTime validate e2 t.
Proof.
  intros Hv1 Hv2 Ht Hn1 Hn2.
  assert (Hi : forall i, (i < 4)%nat -> split e1 !! i = split e2 !! i).
  { intros i Hlt.
    pose proof (lookup_take (split e1) i 4) as H1.
    pose proof (lookup_take (split e2) i 4) as H2.
    rewrite decide_True in H1, H2 by exact Hlt.
    rewrite <- H1, <- H2, Ht. reflexivity. }
  unfold calculateNextRunTime. rewrite Hv1, Hv2.
  rewrite (Hi 0%nat), (Hi 1%nat), (Hi 2%nat), (Hi 3%nat) by lia.
  apply String.eqb_neq in Hn1, Hn2. rewrite Hn1, Hn2. reflexivity.
Qed.

Lemma getMinutes_next_day x : getMinutes (x + msPerDay) = getMinutes x.
Proof. date_arith. Qed.

Lemma getHours_next_day x : getHours (x + msPerDay) = getHours x.
Proof. date_arith. Qed.

Lemma setSeconds_next_day x a b :
  setSeconds (x + msPerDay) a b = setSeconds x a b + msPerDay.
Proof. date_arith. Qed.

Lemma setMinutes_next_day x m :
  setMinutes (x + msPerDay) m = setMinutes x m + msPerDay.
Proof. date_arith. Qed.

Lemma setMinutes3_next_day x m a b :
  setMinutes3 (x + msPerDay) m a b = setMinutes3 x m a b + msPerDay.
Proof. date_arith. Qed.

Lemma setHours_next_day x h :
  setHours (x + msPerDay) h = setHours x h + msPerDay.
Proof. date_arith. Qed.

Lemma setHours4_next_day x h m a b :
  setHours4 (x + msPerDay) h m a b = setHours4 x h m a b + msPerDay.
Proof. date_arith. Qed.

Lemma setDate_next_next_day x :
  setDate_next (x + msPerDay) = setDate_next x + msPerDay.
Proof. date_arith. Qed.

Lemma leb_next_day a b : (a + msPerDay <=? b + msPerDay) = (a <=? b).
Proof. destruct (a <=? b) eqn:E; lia. Qed.

Ltac shift_day :=
  repeat progress
    rewrite ?setSeconds_next_day, ?getMinutes_next_day, ?getHours_next_day,
      ?setMinutes_next_day, ?setMinutes3_next_day, ?setHours_next_day,
      ?setHours4_next_day, ?setDate_next_next_day, ?leb_next_day.

Lemma calculateNextRunTime_next_day expr t :
  calculateNextRunTime validate expr (t + msPerDay)
  = (fun r => r + msPerDay) <$> calculateNextRunTime validate expr t.
Proof.
  unfold calculateNextRunTime.
  destruct (validate expr); cbn [negb]; [|cbn; f_equal; lia].
  destruct (split expr !! 0%nat) as [mi|]; [|cbn; f_equal; lia].
  replace (t + msPerDay + istOffset) with (t + istOffset + msPerDay) by lia.
  set (ist := t + istOffset).
  destruct (String.eqb expr "* * * * *"); [shift_day; cbn; f_equal; lia|].
  destruct (startsWith mi "*/").
  { destruct (parseInt (substring 2 mi)) as [interval|]; [|reflexivity].
    shift_day.
    destruct (ceil_div_times _ interval) as [ni|]; [|reflexivity].
    shift_day. destruct (60 <=? ni); cbn; f_equal; lia. }
  destruct (negb (String.eqb mi "*")
            && bool_decide (split expr !! 1%nat = Some "*")).
  { destruct (parseInt mi) as [tm|]; [|reflexivity].
    shift_day. destruct (tm <=? getMinutes ist); cbn; f_equal; lia. }
  destruct (negb (String.eqb mi "*")
            && negb (bool_decide (split expr !! 1%nat = Some "*"))
            && bool_decide (split expr !! 2%nat = Some "*")
            && bool_decide (split expr !! 3%nat = Some "*")).
  { destruct (split expr !! 1%nat) as [h|]; [|reflexivity].
    destruct (parseInt h) as [th|]; [|reflexivity].
    destruct (parseInt mi) as [tm|]; [|reflexivity].
    shift_day.
    destruct (setHours4 ist th tm 0 0 <=? ist); cbn; f_equal; lia. }
  shift_day. cbn. f_equal. lia.
Qed.

(** Where no Date of the two calls leaves the range of Date, the result
    depends on the time of day only: a base instant one day later gives
    a next run one day later, for every expression, accepted or not, and
    an Invalid Date stays one; the two dates returned are within the
    range. *)
Theorem calculateNextRunTime_daily_period expr t :
  date_range expr t -> date_range expr (t + msPerDay) ->
  calculateNextRunTime validate expr (t + msPerDay)
  = (fun r => r + msPerDay) <$> calculateNextRunTime validate expr t
  /\ (forall r, calculateNextRunTime validate expr t = Some r ->
        in_date_range r = true /\ in_date_range (r + msPerDay) = true).
Proof.
  intros Ht Ht'. split; [apply calculateNextRunTime_next_day|].
  intros r Hr. split.
  - exact (calculateNextRunTime_in_range validate expr t r Ht Hr).
  - apply (calculateNextRunTime_in_range validate expr (t + msPerDay)
             (r + msPerDay) Ht').
    rewrite calculateNextRunTime_next_day, Hr. reflexivity.
Qed.

End EvaluatorShape.

Lemma calculateNextRunTime_daily_period_witness :
  calculateNextRunTime cronPattern "30 9 * * *" (1560000 + msPerDay)
  = Some (14400000 + msPerDay).
Proof.
  destruct (calculateNextRunTime_daily_period cronPattern "30 9 * * *"
              1560000
              ltac:(split; vm_compute; discriminate)
              ltac:(split; vm_compute; discriminate)) as [H _].
  rewrite H. reflexivity.
Defined.

Lemma calculateNextRunTime_minute_boundary_witness :
  1980000 mod msPerMinute = 0 /\ (1980000 + istOffset) mod msPerMinute = 0.
Proof.
  apply (calculateNextRunTime_minute_boundary cronPattern "*/7 * * * *"
           1560000 1980000); reflexivity.
Defined.

Lemma calculateNextRunTime_ignores_day_of_week_witness :
  calculateNextRunTime cronPattern "0 9 * * 1" 0
  = calculateNextRunTime cronPattern "0 9 * * *" 0.
Proof.
  apply (calculateNextRunTime_ignores_day_of_week cronPattern
           "0 9 * * 1" "0 9 * * *" 0);
    try reflexivity; discriminate.
Defined.

(** ** calculateNextRunTime: when the result is an Invalid Date *)

Lemma is_step_inv f :
  is_step f = true ->
  startsWith f "*/" = true /\ is_decimal (substring 2 f) = true.
Proof. unfold is_step. intros H. apply andb_true_iff in H. exact H. Qed.

Lemma step_not_decimal f :
  startsWith f "*/" = true ->
  is_decimal f = false /\ String.eqb f "*" = false /\ parseInt f = None.
Proof.
  intros H. destruct (startsWith_step_inv f H) as [r ->].
  repeat split; reflexivity.
Qed.

Lemma minute_field_cases mi :
  minute_field mi = true ->
  mi = "*" \/ is_decimal mi = true \/ is_step mi = true.
Proof.
  unfold minute_field, is_star. intros H.
  apply orb_true_iff in H as [H|H]; [|auto].
  apply orb_true_iff in H as [H|H].
  - left. apply String.eqb_eq, H.
  - right. left. apply (opt_lead_digit_decimal "0" "5"); auto.
Qed.

Lemma hour_field_cases h :
  hour_field h = true ->
  h = "*" \/ is_decimal h = true \/ is_step h = true.
Proof.
  unfold hour_field, is_star. intros H.
  apply orb_true_iff in H as [H|H]; [|auto].
  apply orb_true_iff in H as [H|H].
  - apply orb_true_iff in H as [H|H].
    + left. apply String.eqb_eq, H.
    + right. left. apply (opt_lead_digit_decimal "0" "1"); auto.
  - right. left. apply (lead_range_decimal "2" "0" "3"); auto.
Qed.

Section InvalidDate.
Variable validate : string -> bool.

(** On the expressions of the repository's grammar that the validator
    accepts, at every base instant from which no Date of the call leaves
    the range of Date, the result is an Invalid Date in exactly two
    cases: the minute field is a step of zero ([*/0]), or the minute
    field is a number, the hour field is a step and the day and month
    fields are stars (the daily branch reads the hour as NaN). In every
    other case the date returned is within the range. *)
Theorem calculateNextRunTime_invalid_iff expr t mi h d mo dw :
  validate expr = true -> cronPattern expr = true ->
  split expr = [mi; h; d; mo; dw] ->
  date_range expr t ->
  (calculateNextRunTime validate expr t = None <->
   (is_step mi = true /\ decimal_value (substring 2 mi) = 0)
   \/ (is_decimal mi = true /\ is_step h = true /\ d = "*" /\ mo = "*"))
  /\ (forall r, calculateNextRunTime validate expr t = Some r ->
        in_date_range r = true).
Proof.
  intros Hv Hg Hs Hrange.
  split; [|intros r; apply calculateNextRunTime_in_range, Hrange].
  clear Hrange.
  unfold cronPattern in Hg. rewrite Hs in Hg.
  repeat (apply andb_true_iff in Hg as [Hg ?]).
  rename Hg into Hmi. rename H2 into Hh. clear H H0 H1.
  unfold calculateNextRunTime. rewrite Hv, Hs.
  cbn [negb lookup list_lookup].
  destruct (String.eqb expr "* * * * *") eqn:Eall.
  { apply String.eqb_eq in Eall. subst expr. injection Hs as <- <- <- <- <-.
    split; [discriminate|].
    intros [[H1 _]|[H1 _]]; discriminate. }
  destruct (startsWith mi "*/") eqn:Est.
  { destruct (step_not_decimal mi Est) as (Hnd & Hns & _).
    destruct (minute_field_cases mi Hmi) as [->|[Hd|Hstep]];
      [discriminate|congruence|].
    destruct (is_step_inv mi Hstep) as [_ Hd].
    rewrite (parseInt_decimal _ Hd). unfold ceil_div_times.
    destruct (decimal_value (substring 2 mi) =? 0) eqn:E0.
    - apply Z.eqb_eq in E0. split; [auto|reflexivity].
    - apply Z.eqb_neq in E0. split.
      + destruct (60 <=? _); discriminate.
      + intros [[_ H0]|[H1 _]]; [contradiction|congruence]. }
  assert (Hnostep : is_step mi = false).
  { unfold is_step. rewrite Est. reflexivity. }
  destruct (String.eqb mi "*") eqn:Estar; cbn [negb andb].
  { apply String.eqb_eq in Estar. subst mi. split; [discriminate|].
    intros [[H1 _]|[H1 _]]; discriminate. }
  pose proof (minute_field_number mi Hmi Estar Est) as Hdm.
  rewrite (parseInt_decimal mi Hdm).
  destruct (bool_decide (Some h = Some "*")) eqn:Eh; cbn [negb andb].
  { apply bool_decide_eq_true in Eh. injection Eh as ->. split.
    - destruct (_ <=? _); discriminate.
    - intros [[H1 _]|(_ & H1 & _)]; [congruence|discriminate]. }
  apply bool_decide_eq_false in Eh.
  destruct (bool_decide (Some d = Some "*")) eqn:Ed; cbn [andb].
  2:{ apply bool_decide_eq_false in Ed. split; [discriminate|].
      intros [[H1 _]|(_ & _ & H1 & _)]; congruence. }
  destruct (bool_decide (Some mo = Some "*")) eqn:Emo; cbn [andb].
  2:{ apply bool_decide_eq_false in Emo. split; [discriminate|].
      intros [[H1 _]|(_ & _ & _ & H1)]; congruence. }
  apply bool_decide_eq_true in Ed, Emo. injection Ed as ->. injection Emo as ->.
  destruct (hour_field_cases h Hh) as [->|[Hdh|Hsh]]; [congruence| |].
  - rewrite (parseInt_decimal h Hdh). split.
    + destruct (_ <=? _); discriminate.
    + intros [[H1 _]|(_ & H1 & _)]; [congruence|].
      destruct (is_step_inv h H1) as [H2 _].
      destruct (decimal_not_star h "" Hdh) as (_ & H3 & _). congruence.
  - destruct (is_step_inv h Hsh) as [H2 _].
    destruct (step_not_decimal h H2) as (_ & _ & Hp). rewrite Hp.
    split; [auto|reflexivity].
Qed.

End InvalidDate.

Lemma calculateNextRunTime_invalid_iff_witness :
  calculateNextRunTime cronPattern "*/0 * * * *" 0 = None
  /\ calculateNextRunTime cronPattern "30 */6 * * *" 0 = None.
Proof.
  split.
  - apply (calculateNextRunTime_invalid_iff cronPattern "*/0 * * * *" 0
             "*/0" "*" "*" "*" "*" eq_refl eq_refl eq_refl
             ltac:(split; vm_compute; discriminate)).
    left. split; reflexivity.
  - apply (calculateNextRunTime_invalid_iff cronPattern "30 */6 * * *" 0
             "30" "*/6" "*" "*" "*" eq_refl eq_refl eq_refl
             ltac:(split; vm_compute; discriminate)).
    right. repeat split; reflexivity.
Defined.

(** ** JobController.validateCronExpression: the preview of next runs *)

Section Preview.
Variable validate : string -> bool.

(** Whether the result is a valid date depends on the expression alone,
    not on the base instant. *)
Lemma calculateNextRunTime_valid_indep expr t t' :
  calculateNextRunTime validate expr t <> None ->
  calculateNextRunTime validate expr t' <> None.
Proof.
  unfold calculateNextRunTime.
  destruct (validate expr); cbn [negb]; [|discriminate].
  destruct (split expr !! 0%nat) as [mi|]; [|discriminate].
  destruct (String.eqb expr "* * * * *"); [discriminate|].
  destruct (startsWith mi "*/").
  { destruct (parseInt (substring 2 mi)) as [interval|]; [|auto].
    unfold ceil_div_times. destruct (interval =? 0); [auto|].
    intros _. destruct (60 <=? _); discriminate. }
  destruct (negb (String.eqb mi "*")
            && bool_decide (split expr !! 1%nat = Some "*")).
  { destruct (parseInt mi) as [tm|]; [|auto].
    intros _. destruct (tm <=? _); discriminate. }
  destruct (negb (String.eqb mi "*")
            && negb (bool_decide (split expr !! 1%nat = Some "*"))
            && bool_decide (split expr !! 2%nat = Some "*")
            && bool_decide (split expr !! 3%nat = Some "*")); [|discriminate].
  destruct (split expr !! 1%nat) as [h|]; [|auto].
  destruct (parseInt h) as [th|]; [|auto].
  destruct (parseInt mi) as [tm|]; [|auto].
  intros _. destruct (_ <=? _); discriminate.
Qed.

Lemma calculateNextRunTime_next expr t r :
  cronPattern expr = true ->
  calculateNextRunTime validate expr t = Some r ->
  exists r', calculateNextRunTime validate expr (r + 1000) = Some r'
             /\ r + 1000 < r'.
Proof.
  intros Hg H.
  destruct (calculateNextRunTime validate expr (r + 1000)) as [r'|] eqn:E.
  - exists r'. split; [reflexivity|].
    exact (calculateNextRunTime_after validate expr (r + 1000) r' Hg E).
  - exfalso.
    apply (calculateNextRunTime_valid_indep expr t (r + 1000)); congruence.
Qed.

(** From a base instant of [date_range], on the repository's grammar: the
    next base instant of the preview, one second after the date
    returned, is later than the base instant by at most the reach of the
    expression and a second. *)
Lemma calculateNextRunTime_next_base expr t r :
  cronPattern expr = true ->
  calculateNextRunTime validate expr t = Some r ->
  t < r + 1000 <= t + (reach expr + 1000).
Proof.
  intros Hg H.
  pose proof (calculateNextRunTime_after validate expr t r Hg H).
  pose proof (calculateNextRunTime_reach validate expr t r H).
  unfold istOffset in *. lia.
Qed.

(** The preview of [POST /jobs/validate-cron], for a non-empty
    expression of the repository's grammar that the validator accepts,
    at a current time from which no Date of the five calls leaves the
    range of Date: when the evaluator returns a valid date from the
    current time, the five next runs listed are all valid dates, within
    the range, the first one after the current time and each later one
    more than a second after the one before; when it returns an Invalid
    Date, the answer is still a success and lists five Invalid Dates. *)
Theorem validateCronExpression_next_runs expr now :
  expr <> "" -> validate expr = true -> cronPattern expr = true ->
  date_range expr now ->
  date_range expr (now + 4 * (reach expr + 1000)) ->
  (forall t1, calculateNextRunTime validate expr now = Some t1 ->
     exists t2 t3 t4 t5,
       Controller.validateCronExpression validate (Val expr) now
       = Controller.CronValid [Some t1; Some t2; Some t3; Some t4; Some t5]
       /\ now < t1 /\ t1 + 1000 < t2 /\ t2 + 1000 < t3
       /\ t3 + 1000 < t4 /\ t4 + 1000 < t5
       /\ Forall (fun r => in_date_range r = true) [t1; t2; t3; t4; t5])
  /\ (calculateNextRunTime validate expr now = None ->
      Controller.validateCronExpression validate (Val expr) now
      = Controller.CronValid [None; None; None; None; None]).
Proof.
  intros Hne Hv Hg Hlo Hhi. apply String.eqb_neq in Hne.
  unfold Controller.validateCronExpression. rewrite Hne, Hv. cbn [negb].
  split.
  - intros t1 H1.
    destruct (calculateNextRunTime_next expr now t1 Hg H1) as (t2 & H2 & L2).
    destruct (calculateNextRunTime_next expr _ t2 Hg H2) as (t3 & H3 & L3).
    destruct (calculateNextRunTime_next expr _ t3 Hg H3) as (t4 & H4 & L4).
    destruct (calculateNextRunTime_next expr _ t4 Hg H4) as (t5 & H5 & L5).
    exists t2, t3, t4, t5. split.
    { cbn [Controller.nextRuns]. rewrite H1. cbn [fmap option_fmap option_map].
      rewrite H2. cbn [fmap option_fmap option_map].
      rewrite H3. cbn [fmap option_fmap option_map].
      rewrite H4. cbn [fmap option_fmap option_map].
      rewrite H5. reflexivity. }
    pose proof (calculateNextRunTime_after validate expr now t1 Hg H1) as L1.
    do 5 (split; [assumption|]).
    pose proof (calculateNextRunTime_next_base expr _ _ Hg H1) as B1.
    pose proof (calculateNextRunTime_next_base expr _ _ Hg H2) as B2.
    pose proof (calculateNextRunTime_next_base expr _ _ Hg H3) as B3.
    pose proof (calculateNextRunTime_next_base expr _ _ Hg H4) as B4.
    pose proof (reach_two_days expr) as R2.
    destruct Hlo as [Hlo1 Hlo2]. destruct Hhi as [Hhi1 Hhi2].
    assert (D : forall b, now <= b <= now + 4 * (reach expr + 1000) ->
                          date_range expr b).
    { intros b Hb. split; lia. }
    repeat apply Forall_cons_2; [| | | | |apply Forall_nil_2].
    + apply (calculateNextRunTime_in_range validate expr now); [|exact H1].
      apply D. unfold msPerDay in R2. lia.
    + apply (calculateNextRunTime_in_range validate expr (t1 + 1000));
        [|exact H2]. apply D. lia.
    + apply (calculateNextRunTime_in_range validate expr (t2 + 1000));
        [|exact H3]. apply D. lia.
    + apply (calculateNextRunTime_in_range validate expr (t3 + 1000));
        [|exact H4]. apply D. lia.
    + apply (calculateNextRunTime_in_range validate expr (t4 + 1000));
        [|exact H5]. apply D. lia.
  - intros H. cbn [Controller.nextRuns]. rewrite H. reflexivity.
Qed.

End Preview.

Lemma validateCronExpression_next_runs_witness :
  Controller.validateCronExpression cronPattern (Val "*/5 * * * *") 1560000
  = Controller.CronValid
      [Some 1800000; Some 2100000; Some 2400000; Some 2700000; Some 3000000].
Proof.
  destruct (validateCronExpression_next_runs cronPattern "*/5 * * * *"
              1560000 ltac:(discriminate) eq_refl eq_refl
              ltac:(split; vm_compute; discriminate)
              ltac:(split; vm_compute; discriminate)) as [H _].
  destruct (H 1800000 eq_refl) as (t2 & t3 & t4 & t5 & E & _).
  rewrite E. vm_compute in E. injection E as <- <- <- <-. reflexivity.
Defined.

(** ** SchedulerService.executeJob: what a run records *)

Section RunProperties.
Variable validate : string -> bool.

Import SchedulerService.

Lemma store_frame_refl id d : store_frame id d d.
Proof. repeat split; auto. Qed.

Lemma store_frame_trans id d1 d2 d3 :
  store_frame id d1 d2 -> store_frame id d2 d3 -> store_frame id d1 d3.
Proof.
  intros (A1 & B1 & C1) (A2 & B2 & C2). split; [|split].
  - intros x Hx Hs. apply A1; [|exact Hs]. apply A2; assumption.
  - intros i row Hi Hr. apply B2; [|exact Hr]. apply B1; assumption.
  - congruence.
Qed.

Lemma sql_update_elem {A} (p : A -> bool) (f : A -> A) rows x :
  x ∈ sql_update p f rows ->
  x ∈ rows \/ exists y, y ∈ rows /\ x = f y.
Proof.
  unfold sql_update. intros H.
  apply list_elem_of_In, in_map_iff in H as [y [Hy Hin]].
  apply list_elem_of_In in Hin.
  destruct (p y); subst x; eauto.
Qed.

Lemma createExecutionRecord_frame ok dbnow id jobId d d1 eid :
  createExecutionRecord ok dbnow jobId running d = Some (d1, eid) ->
  store_frame id d d1.
Proof.
  unfold createExecutionRecord. destruct ok; [|discriminate].
  destruct jobId as [| |jid]; try discriminate.
  intros H. injection H as <- _. split; [|split]; cbn [jobs job_executions].
  - intros x Hx Hs. apply elem_of_app in Hx as [Hx|Hx]; [exact Hx|].
    apply list_elem_of_singleton in Hx. subst x. discriminate Hs.
  - auto.
  - reflexivity.
Qed.

Lemma updateExecutionRecord_frame ok dbnow id eid status duration msg out
    d d1 :
  status <> timeout ->
  updateExecutionRecord ok dbnow eid status duration msg out d = Some d1 ->
  store_frame id d d1.
Proof.
  unfold updateExecutionRecord. intros Hst. destruct ok; [|discriminate].
  intros H. injection H as <-. split; [|split]; cbn [jobs job_executions].
  - intros x Hx Hs. apply sql_update_elem in Hx as [Hx|[y [_ ->]]];
      [exact Hx|]. cbn in Hs. contradiction.
  - auto.
  - reflexivity.
Qed.

Lemma updateJobStats_frame id success date dbnow d :
  store_frame id d (fst (JobRepository.updateJobStats id success date dbnow d)).
Proof.
  unfold JobRepository.updateJobStats.
  destruct (forallb _ _); cbn [fst]; [|apply store_frame_refl].
  split; [|split]; cbn [jobs job_executions].
  - auto.
  - intros i row Hi Hr. rewrite (sql_update_lookup _ _ _ _ _ Hi), Hr.
    reflexivity.
  - unfold sql_update. apply length_map.
Qed.

Lemma updateNextRunTime_frame ok date dbnow job d :
  store_frame (Job.id job) d (updateNextRunTime validate ok date dbnow job d).
Proof.
  unfold updateNextRunTime.
  destruct (JobRepository.nextRunOf validate _ date);
    [|apply store_frame_refl].
  destruct ok; [|apply store_frame_refl].
  split; [|split]; cbn [jobs job_executions].
  - auto.
  - intros i row Hi Hr. rewrite (sql_update_lookup _ _ _ _ _ Hi), Hr.
    reflexivity.
  - unfold sql_update. apply length_map.
Qed.

Lemma executeJob_try_frame env job w :
  store_frame (Job.id job) (db w) (db (fst (executeJob_try validate env job w))).
Proof.
  unfold executeJob_try.
  destruct (createExecutionRecord _ _ _ _ _) as [[d1 eid]|] eqn:E1;
    [|apply store_frame_refl].
  pose proof (createExecutionRecord_frame _ _ (Job.id job) _ _ _ _ E1) as F1.
  destruct (performJobExecution _ _ _) as [result|msg]; [|exact F1].
  destruct (updateExecutionRecord _ _ _ _ _ _ _ _) as [d2|] eqn:E2;
    [|exact F1].
  assert (F2 : store_frame (Job.id job) (db w) d2).
  { apply (store_frame_trans _ _ d1); [exact F1|].
    apply (updateExecutionRecord_frame _ _ (Job.id job) _ completed _ _ _
             _ _ ltac:(discriminate) E2). }
  destruct (env_stats_ok env); [|exact F2]. cbn [fst db].
  eapply store_frame_trans; [exact F2|].
  eapply store_frame_trans; [apply updateJobStats_frame|].
  apply updateNextRunTime_frame.
Qed.

Lemma executeJob_catch_frame env job eid msg w :
  store_frame (Job.id job) (db w)
    (db (fst (executeJob_catch env job eid msg w))).
Proof.
  unfold executeJob_catch.
  assert (F1 : forall d1,
            match eid with
            | Some e =>
                updateExecutionRecord (env_catch_update_ok env)
                  (env_catch_update_now env) e failed
                  (env_catch_end env - env_start env) (Some msg) None (db w)
            | None => Some (db w)
            end = Some d1 -> store_frame (Job.id job) (db w) d1).
  { intros d1 H. destruct eid as [e|].
    - apply (updateExecutionRecord_frame _ _ (Job.id job) _ failed _ _ _
               _ _ ltac:(discriminate) H).
    - injection H as <-. apply store_frame_refl. }
  destruct (match eid with Some _ => _ | None => _ end) as [d1|];
    [|apply store_frame_refl].
  specialize (F1 d1 eq_refl).
  destruct (env_catch_stats_ok env); cbn [fst db]; [|exact F1].
  eapply store_frame_trans; [exact F1|]. apply updateJobStats_frame.
Qed.

(** Whatever the environment answers, a call of [executeJob(job)] never
    gives an execution the status [timeout] (an execution that has it
    afterwards had it before), leaves every job row with another id as
    and where it was, adds or removes no job row, and never touches the
    timers nor the running flag. *)
Theorem executeJob_store_frame env job w :
  let w' := fst (executeJob validate env job w) in
  (forall x, x ∈ job_executions (db w') -> ExecRow.status x = timeout ->
             x ∈ job_executions (db w))
  /\ (forall i row, jobs (db w) !! i = Some row ->
        JobRepository.has_id (Job.id job) row = false ->
        jobs (db w') !! i = Some row)
  /\ length (jobs (db w')) = length (jobs (db w))
  /\ activeTasks (sched w') = activeTasks (sched w)
  /\ isRunning (sched w') = isRunning (sched w).
Proof.
  intros w'.
  assert (F : store_frame (Job.id job) (db w) (db w')
              /\ activeTasks (sched w') = activeTasks (sched w)
              /\ isRunning (sched w') = isRunning (sched w)).
  { subst w'. unfold executeJob.
    destruct (executeJob_enter (env_start env) job (sched w)) as [s1|] eqn:En;
      [|split; [apply store_frame_refl|auto]].
    assert (Hs1 : activeTasks s1 = activeTasks (sched w)
                  /\ isRunning s1 = isRunning (sched w)).
    { unfold executeJob_enter in En. destruct (decide _); [discriminate|].
      injection En as <-. auto. }
    unfold executeJob_run.
    pose proof (executeJob_try_frame env job {| sched := s1; db := db w |})
      as Ft.
    assert (Tt : activeTasks
                   (sched (fst (executeJob_try validate env job
                                  {| sched := s1; db := db w |})))
                 = activeTasks s1
                 /\ isRunning
                      (sched (fst (executeJob_try validate env job
                                     {| sched := s1; db := db w |})))
                    = isRunning s1).
    { unfold executeJob_try.
      destruct (createExecutionRecord _ _ _ _ _) as [[d1 eid]|]; [|auto].
      destruct (performJobExecution _ _ _); [|auto].
      destruct (updateExecutionRecord _ _ _ _ _ _ _ _); [|auto].
      destruct (env_stats_ok env); auto. }
    destruct (executeJob_try validate env job {| sched := s1; db := db w |})
      as [w1 thrown]. cbn [fst db] in Ft, Tt.
    destruct thrown as [[eid msg]|]; cbn [fst sched db with_queue activeTasks
                                           isRunning].
    - pose proof (executeJob_catch_frame env job eid msg w1) as Fc.
      assert (Tc : activeTasks (sched (fst (executeJob_catch env job eid msg w1)))
                   = activeTasks (sched w1)
                   /\ isRunning (sched (fst (executeJob_catch env job eid msg w1)))
                      = isRunning (sched w1)).
      { unfold executeJob_catch.
        destruct (match eid with Some _ => _ | None => _ end); [|auto].
        destruct (env_catch_stats_ok env); auto. }
      destruct (executeJob_catch env job eid msg w1) as [w2 [esc|]];
        cbn [fst sched db with_queue activeTasks isRunning] in *;
        (split; [exact (store_frame_trans _ _ _ _ Ft Fc)|]);
        destruct Tt, Tc, Hs1; split; congruence.
    - split; [exact Ft|]. destruct Tt, Hs1; split; congruence. }
  destruct F as ((F1 & F2 & F3) & F4 & F5). auto.
Qed.

Lemma executeJob_run_stats env job w :
  stats (sched (fst (executeJob_run validate env job w))) = stats (sched w)
  \/ exists duration success,
       stats (sched (fst (executeJob_run validate env job w)))
       = updateServiceStats duration success (stats (sched w)).
Proof.
  unfold executeJob_run.
  assert (Ht : (stats (sched (fst (executeJob_try validate env job w)))
                = stats (sched w)
                /\ True)
               \/ (snd (executeJob_try validate env job w) = None
                   /\ exists duration,
                        stats (sched (fst (executeJob_try validate env job w)))
                        = updateServiceStats duration true (stats (sched w)))).
  { unfold executeJob_try.
    destruct (createExecutionRecord _ _ _ _ _) as [[d1 eid]|]; [|auto].
    destruct (performJobExecution _ _ _); [|auto].
    destruct (updateExecutionRecord _ _ _ _ _ _ _ _); [|auto].
    destruct (env_stats_ok env); [|auto].
    right. split; [reflexivity|]. eexists. reflexivity. }
  destruct (executeJob_try validate env job w) as [w1 thrown].
  cbn [fst snd] in Ht.
  destruct thrown as [[eid msg]|].
  - destruct Ht as [[Ht _]|[Ht _]]; [|discriminate].
    assert (Hc : stats (sched (fst (executeJob_catch env job eid msg w1)))
                 = stats (sched w1)
                 \/ exists duration,
                      stats (sched (fst (executeJob_catch env job eid msg w1)))
                      = updateServiceStats duration false (stats (sched w1))).
    { unfold executeJob_catch.
      destruct (match eid with Some _ => _ | None => _ end); [|auto].
      destruct (env_catch_stats_ok env); [|auto].
      right. eexists. reflexivity. }
    destruct (executeJob_catch env job eid msg w1) as [w2 [esc|]];
      cbn [fst sched with_queue stats] in *;
      (destruct Hc as [Hc|[dur Hc]]; rewrite Hc, Ht; [auto|eauto]).
  - cbn [fst sched with_queue stats].
    destruct Ht as [[Ht _]|[_ [dur Ht]]]; [auto|eauto].
Qed.

Lemma updateServiceStats_consistent duration success st :
  stats_consistent st ->
  stats_consistent (updateServiceStats duration success st).
Proof.
  unfold stats_consistent. intros (H1 & H2 & H3).
  destruct success; cbn; lia.
Qed.

Lemma stats_consistent_step p q :
  stats_consistent (stats (sched (Process.world p))) ->
  Process.step validate p q ->
  stats_consistent (stats (sched (Process.world q))).
Proof.
  intros Hinv Hstep.
  assert (Hfire : forall now job,
            stats (sched (Process.world (Process.fire now job p)))
            = stats (sched (Process.world p))).
  { intros now job. unfold Process.fire, executeJob_enter.
    destruct (decide _); reflexivity. }
  destruct Hstep; cbn [Process.world sched stats].
  - rewrite Hfire. exact Hinv.
  - rewrite Hfire. exact Hinv.
  - destruct (executeJob_run_stats env job (Process.world p))
      as [->|[dur [b ->]]]; [exact Hinv|].
    apply updateServiceStats_consistent, Hinv.
  - destruct (syncJobs_frame validate ok (Process.world p)) as (_ & -> & _).
    exact Hinv.
  - destruct (syncJobs_resume_frame validate answer (sched (Process.world p)))
      as (_ & -> & _).
    exact Hinv.
  - unfold scheduleJob. destruct (negb _); exact Hinv.
  - unfold unscheduleJob. destruct (decide _); exact Hinv.
  - exact Hinv.
  - exact Hinv.
Qed.

(** In every reachable state of the process the counters of the
    scheduler agree: [totalExecutions] is the sum of
    [successfulExecutions] and [failedExecutions], and none is
    negative. *)
Theorem scheduler_stats_consistent p :
  Process.reachable validate p ->
  stats_consistent (stats (sched (Process.world p)))
  /\ 0 <= totalExecutions (stats (sched (Process.world p)))
  /\ v_totalExecutions (getStats (sched (Process.world p)))
     = v_successfulExecutions (getStats (sched (Process.world p)))
       + v_failedExecutions (getStats (sched (Process.world p))).
Proof.
  intros Hr.
  assert (Hc : stats_consistent (stats (sched (Process.world p)))).
  { induction Hr as [d|p q _ IH Hstep].
    - cbn. unfold stats_consistent. cbn. lia.
    - exact (stats_consistent_step p q IH Hstep). }
  split; [exact Hc|]. destruct Hc as (H1 & H2 & H3).
  split; [lia|exact H1].
Qed.

End RunProperties.

Lemma scheduler_stats_consistent_witness :
  stats_consistent
    (SchedulerService.stats
       (SchedulerService.sched (Process.world sample_process))).
Proof.
  apply (scheduler_stats_consistent cronPattern sample_process
           (sample_process_reachable cronPattern)).
Defined.

(** ** SchedulerService.executeJob: a run that succeeds, and one whose
    execution row cannot be created *)

Lemma sql_update_snoc_fresh {A} (p : A -> bool) (f : A -> A) (l : list A) x :
  (forall y, y ∈ l -> p y = false) -> p x = true ->
  sql_update p f (l ++ [x]) = (l ++ [f x])%list.
Proof.
  intros Hl Hx. unfold sql_update. rewrite map_app. cbn [map]. rewrite Hx.
  f_equal. exact (sql_update_none p f l Hl).
Qed.

Section RunOutcomes.
Variable validate : string -> bool.

Import SchedulerService.

Lemma performJobExecution_in_time job delay executedAt :
  1 <= delay ->
  delay < (if Job.timeoutMs job =? 0 then 30000 else Job.timeoutMs job) ->
  (if Job.timeoutMs job =? 0 then 30000 else Job.timeoutMs job) <= 2147483647 ->
  exists result,
    performJobExecution job delay executedAt = inl result
    /\ res_payload result = Job.payload job
    /\ res_executedAt result = executedAt.
Proof.
  intros H1 H2 H3. unfold performJobExecution.
  set (timeout := if Job.timeoutMs job =? 0 then 30000 else Job.timeoutMs job)
    in *.
  assert (Ht : timer_delay timeout = timeout).
  { unfold timer_delay.
    destruct (1 <=? timeout) eqn:E1; [|lia].
    destruct (timeout <=? 2147483647) eqn:E2; [reflexivity|lia]. }
  assert (Hd : timer_delay delay = delay).
  { unfold timer_delay.
    destruct (1 <=? delay) eqn:E1; [|lia].
    destruct (delay <=? 2147483647) eqn:E2; [reflexivity|lia]. }
  rewrite Ht, Hd. destruct (timeout <=? delay) eqn:E; [lia|].
  eexists. split; [reflexivity|].
  destruct (String.eqb (Job.jobType job) "scheduled"); [auto|].
  destruct (String.eqb (Job.jobType job) "immediate"); [auto|].
  destruct (String.eqb (Job.jobType job) "recurring"); auto.
Qed.

Lemma updateNextRunTime_jobs ok date dbnow job d d' :
  jobs d = jobs d' ->
  jobs (updateNextRunTime validate ok date dbnow job d)
  = jobs (updateNextRunTime validate ok date dbnow job d').
Proof.
  intros H. unfold updateNextRunTime.
  destruct (JobRepository.nextRunOf validate _ date); [|exact H].
  destruct ok; [|exact H]. cbn [jobs]. rewrite H. reflexivity.
Qed.

Lemma updateNextRunTime_execs ok date dbnow job d :
  job_executions (updateNextRunTime validate ok date dbnow job d)
  = job_executions d.
Proof.
  unfold updateNextRunTime.
  destruct (JobRepository.nextRunOf validate _ date); [|reflexivity].
  destruct ok; reflexivity.
Qed.

(** A run that is not skipped, whose simulated work ends before the
    timeout of the job and whose queries succeed: the call ends with
    success; exactly one execution row is added, with the status
    [completed], the duration measured by the scheduler, no error
    message and the result of the work as output; the job rows are those
    left by [updateJobStats(id, {success: true})] followed by
    [updateNextRunTime(job)]; the service counts one more successful
    execution; and the job is no longer in the running-executions
    map. *)
Theorem executeJob_success_recorded env job w jid :
  Job.id job = Val jid ->
  executionQueue (sched w) !! Val jid = None ->
  env_insert_ok env = true ->
  env_update_ok env = true ->
  env_stats_ok env = true ->
  1 <= env_delay env ->
  env_delay env < (if Job.timeoutMs job =? 0 then 30000 else Job.timeoutMs job) ->
  (if Job.timeoutMs job =? 0 then 30000 else Job.timeoutMs job) <= 2147483647 ->
  (forall x, x ∈ job_executions (db w) -> ExecRow.id x <> next_uuid (db w)) ->
  let r := executeJob validate env job w in
  let duration := env_end env - env_start env in
  exists result,
    performJobExecution job (env_delay env) (env_executedAt env) = inl result
    /\ res_payload result = Job.payload job
    /\ snd r = Succeeded
    /\ job_executions (db (fst r))
       = (job_executions (db w)
          ++ [ {| ExecRow.id := next_uuid (db w);
                  ExecRow.job_id := jid;
                  ExecRow.status := completed;
                  ExecRow.started_at := env_insert_now env;
                  ExecRow.completed_at := Some (env_update_now env);
                  ExecRow.duration_ms := Some duration;
                  ExecRow.error_message := None;
                  ExecRow.retry_count := 0;
                  ExecRow.output := Some (OutResult result) |} ])%list
    /\ jobs (db (fst r))
       = jobs (updateNextRunTime validate (env_next_ok env)
                 (env_next_date env) (env_next_now env) job
                 (fst (JobRepository.updateJobStats (Val jid) true
                         (env_stats_date env) (env_stats_now env) (db w))))
    /\ stats (sched (fst r))
       = updateServiceStats duration true (stats (sched w))
    /\ executionQueue (sched (fst r)) = executionQueue (sched w)
    /\ activeTasks (sched (fst r)) = activeTasks (sched w).
Proof.
  intros Hid Hq Hins Hupd Hst H1 H2 H3 Hfresh r duration.
  destruct (performJobExecution_in_time job (env_delay env)
              (env_executedAt env) H1 H2 H3) as (result & Hres & Hpl & _).
  exists result. split; [exact Hres|]. split; [exact Hpl|].
  subst r. unfold executeJob, executeJob_enter. rewrite Hid.
  rewrite decide_False by (rewrite Hq; intros [? ?]; discriminate).
  unfold executeJob_run, executeJob_try. rewrite Hid.
  unfold createExecutionRecord. rewrite Hins. cbn [db sched].
  rewrite Hres. unfold updateExecutionRecord. rewrite Hupd, Hst.
  cbn [fst snd db sched with_queue with_stats stats executionQueue
       activeTasks job_executions].
  split; [reflexivity|]. split; [|split; [|split; [|split]]].
  - rewrite updateNextRunTime_execs, updateJobStats_execs.
    cbn [job_executions].
    rewrite sql_update_snoc_fresh.
    + reflexivity.
    + intros y Hy. apply bool_decide_eq_false_2, Hfresh, Hy.
    + apply bool_decide_eq_true_2. reflexivity.
  - apply updateNextRunTime_jobs, updateJobStats_jobs. reflexivity.
  - reflexivity.
  - rewrite delete_alter_eq. apply delete_insert_id, Hq.
  - reflexivity.
Qed.

(** A run that is not skipped and whose execution row cannot be created
    (the store refuses the INSERT), the other queries succeeding: the
    call ends as a failure with the error of the store; no execution row
    is written or changed; yet the job is charged with a failed run by
    [updateJobStats(id, {success: false})] and the service counts a
    failed execution; the job is no longer in the running-executions
    map. *)
Theorem executeJob_insert_refused env job w jid :
  Job.id job = Val jid ->
  executionQueue (sched w) !! Val jid = None ->
  env_insert_ok env = false ->
  env_catch_stats_ok env = true ->
  let r := executeJob validate env job w in
  snd r = Failed (env_query_error env)
  /\ job_executions (db (fst r)) = job_executions (db w)
  /\ db (fst r)
     = fst (JobRepository.updateJobStats (Val jid) false
              (env_catch_stats_date env) (env_catch_stats_now env) (db w))
  /\ stats (sched (fst r))
     = updateServiceStats (env_catch_end env - env_start env) false
         (stats (sched w))
  /\ executionQueue (sched (fst r)) = executionQueue (sched w).
Proof.
  intros Hid Hq Hins Hst r. subst r.
  unfold executeJob, executeJob_enter. rewrite Hid.
  rewrite decide_False by (rewrite Hq; intros [? ?]; discriminate).
  unfold executeJob_run, executeJob_try. rewrite Hid.
  unfold createExecutionRecord. rewrite Hins.
  unfold executeJob_catch. rewrite Hst, Hid.
  cbn [fst snd db sched with_queue with_stats stats executionQueue].
  split; [reflexivity|]. split; [apply updateJobStats_execs|].
  split; [reflexivity|].
  split; [reflexivity|]. apply delete_insert_id, Hq.
Qed.

End RunOutcomes.

Lemma executeJob_success_recorded_witness :
  exists row,
    job_executions
      (SchedulerService.db
         (fst (SchedulerService.executeJob cronPattern sample_env_fast
                 sample_job sample_world)))
    = [row]
    /\ ExecRow.status row = completed
    /\ ExecRow.duration_ms row = Some 502.
Proof.
  assert (Hfresh : forall x,
            x ∈ job_executions (SchedulerService.db sample_world) ->
            ExecRow.id x <> next_uuid (SchedulerService.db sample_world)).
  { intros x Hx. inversion Hx. }
  destruct (executeJob_success_recorded cronPattern sample_env_fast sample_job
              sample_world "j1" eq_refl eq_refl eq_refl eq_refl eq_refl
              ltac:(vm_compute; discriminate) ltac:(reflexivity)
              ltac:(vm_compute; discriminate) Hfresh)
    as (result & _ & _ & _ & H & _).
  eexists. split; [exact H|]. split; reflexivity.
Defined.

Lemma executeJob_insert_refused_witness :
  snd (SchedulerService.executeJob cronPattern sample_env_refused sample_job
         sample_world)
  = SchedulerService.Failed "violates foreign key constraint"
  /\ job_executions
       (SchedulerService.db
          (fst (SchedulerService.executeJob cronPattern sample_env_refused
                  sample_job sample_world)))
     = [].
Proof.
  destruct (executeJob_insert_refused cronPattern sample_env_refused
              sample_job sample_world "j1" eq_refl eq_refl eq_refl eq_refl)
    as (H1 & H2 & _).
  split; [exact H1|exact H2].
Defined.

(** ** SchedulerService.start and stop *)

Section StartStop.
Variable validate : string -> bool.

Import SchedulerService.

Lemma load_fold l s :
  let s1 := foldl (fun s job => scheduleJob validate job s) s l in
  executionQueue s1 = executionQueue s
  /\ stats s1 = stats s
  /\ isRunning s1 = isRunning s
  /\ forall id,
       (activeTasks s1 !! id = activeTasks s !! id
        /\ forall job, job ∈ l -> Job.id job = id ->
             validate_js validate (Job.cronExpression job) = false)
       \/ (exists job, job ∈ l /\ Job.id job = id
             /\ validate_js validate (Job.cronExpression job) = true
             /\ activeTasks s1 !! id
                = Some (mkTask (Job.cronExpression job) job)).
Proof.
  induction l as [|x l IH] using rev_ind; cbn zeta.
  - cbn [foldl]. repeat split. intros id. left. split; [reflexivity|].
    intros job H. inversion H.
  - rewrite foldl_app. cbn [foldl].
    destruct IH as (I1 & I2 & I3 & I4).
    set (s1 := foldl (fun s job => scheduleJob validate job s) s l) in *.
    pose proof (scheduleJob_tasks validate x s1) as Ht.
    assert (Hrest : executionQueue (scheduleJob validate x s1)
                    = executionQueue s1
                    /\ stats (scheduleJob validate x s1) = stats s1
                    /\ isRunning (scheduleJob validate x s1) = isRunning s1).
    { unfold scheduleJob. destruct (negb _); repeat split. }
    destruct Hrest as (R1 & R2 & R3).
    split; [congruence|]. split; [congruence|]. split; [congruence|].
    intros id. rewrite Ht.
    destruct (validate_js validate (Job.cronExpression x)) eqn:Hv.
    + destruct (decide (Job.id x = id)) as [E|E].
      * right. exists x. split; [apply elem_of_app; right; constructor|].
        split; [exact E|]. split; [exact Hv|]. subst id.
        apply lookup_insert_eq.
      * rewrite lookup_insert_ne by exact E.
        destruct (I4 id) as [[H1 H2]|(job & H1 & H2 & H3 & H4)].
        -- left. split; [exact H1|]. intros job Hj Hid.
           apply elem_of_app in Hj as [Hj|Hj]; [eauto|].
           apply list_elem_of_singleton in Hj. subst job. contradiction.
        -- right. exists job. split; [apply elem_of_app; auto|]. auto.
    + destruct (I4 id) as [[H1 H2]|(job & H1 & H2 & H3 & H4)].
      * left. split; [exact H1|]. intros job Hj Hid.
        apply elem_of_app in Hj as [Hj|Hj]; [eauto|].
        apply list_elem_of_singleton in Hj. subst job. exact Hv.
      * right. exists job. split; [apply elem_of_app; auto|]. auto.
Qed.

(** [start()] on a scheduler that is running changes nothing; when the
    query of the active jobs fails the call rejects and leaves the
    scheduler as it was, not running. Otherwise the scheduler is running
    and, for every job id: either a loaded job (an active row, among the
    1000 newest) with that id has a cron expression that validates, and
    the timer of the id is now one armed for such a loaded job, replacing
    any timer the id had; or no loaded job with that id validates, and
    the id has the timer it had before, or none. The running-executions
    map, the statistics and the store are not touched. *)
Theorem start_schedules_loaded ok (w : World) :
  let r := start validate ok w in
  let loaded := JobRepository.fr_jobs (JobRepository.findAll activeOptions (db w)) in
  (isRunning (sched w) = true -> r = (w, false))
  /\ (isRunning (sched w) = false -> ok = false -> r = (w, true))
  /\ (isRunning (sched w) = false -> ok = true ->
        snd r = false
        /\ isRunning (sched (fst r)) = true
        /\ db (fst r) = db w
        /\ executionQueue (sched (fst r)) = executionQueue (sched w)
        /\ stats (sched (fst r)) = stats (sched w)
        /\ forall id,
             (activeTasks (sched (fst r)) !! id = activeTasks (sched w) !! id
              /\ forall job, job ∈ loaded -> Job.id job = id ->
                   validate_js validate (Job.cronExpression job) = false)
             \/ (exists job, job ∈ loaded /\ Job.id job = id
                   /\ validate_js validate (Job.cronExpression job) = true
                   /\ activeTasks (sched (fst r)) !! id
                      = Some (mkTask (Job.cronExpression job) job))).
Proof.
  intros r loaded. subst r. unfold start, loadAndScheduleJobs.
  split; [|split].
  - intros ->. reflexivity.
  - intros Hr ->. rewrite Hr. cbn [negb]. destruct w as [[ts q run st] d].
    cbn in Hr. subst run. reflexivity.
  - intros Hr ->. rewrite Hr. cbn [negb fst snd sched db].
    destruct (load_fold loaded (with_running (sched w) true))
      as (I1 & I2 & I3 & I4).
    split; [reflexivity|]. split; [exact I3|]. split; [reflexivity|].
    split; [exact I1|]. split; [exact I2|]. exact I4.
Qed.

(** [stop()] on a running scheduler destroys every timer and clears the
    running flag, leaving the running-executions map, the statistics and
    the store as they were; afterwards [getStats()] reports no active
    job, a second [stop()] changes nothing, a [syncJobs()] that starts
    returns at its guard, and a [start()] whose query succeeds arms
    timers for loaded jobs only. But a [syncJobs()] whose query was in
    flight when [stop()] ran is not stopped: when the answer arrives it
    arms a timer for every loaded job whose cron expression validates,
    on a scheduler whose running flag stays cleared. *)
Theorem stop_clears_timers (w : World) :
  isRunning (sched w) = true ->
  let w' := stop w in
  activeTasks (sched w') = ∅
  /\ isRunning (sched w') = false
  /\ executionQueue (sched w') = executionQueue (sched w)
  /\ stats (sched w') = stats (sched w)
  /\ db w' = db w
  /\ v_activeJobs (getStats (sched w')) = 0%nat
  /\ syncJobs_begin (sched w') = false
  /\ stop w' = w'
  /\ (forall id t,
        activeTasks (sched (fst (start validate true w'))) !! id = Some t ->
        exists job,
          job ∈ JobRepository.fr_jobs
                  (JobRepository.findAll activeOptions (db w))
          /\ Job.id job = id
          /\ validate_js validate (Job.cronExpression job) = true
          /\ t = mkTask (Job.cronExpression job) job)
  /\ (forall (result : JobRepository.FindResult) id,
        is_Some (activeTasks
                   (syncJobs_resume validate (Some result) (sched w')) !! id)
        <-> exists job, job ∈ JobRepository.fr_jobs result /\ Job.id job = id
              /\ validate_js validate (Job.cronExpression job) = true)
  /\ (forall (result : JobRepository.FindResult),
        isRunning (syncJobs_resume validate (Some result) (sched w')) = false).
Proof.
  intros Hr w'. subst w'. unfold stop. rewrite Hr. cbn [negb sched db].
  cbn [activeTasks isRunning executionQueue stats].
  do 8 (split; [reflexivity|]).
  split; [|split].
  - intros id t Ht.
    unfold start, loadAndScheduleJobs in Ht.
    cbn [sched db isRunning negb fst] in Ht.
    match type of Ht with
    | activeTasks (foldl _ ?s ?l) !! _ = _ =>
        destruct (load_fold l s) as (_ & _ & _ & I4)
    end.
    destruct (I4 id) as [[H1 _]|(job & H1 & H2 & H3 & H4)].
    + rewrite H1 in Ht. cbn in Ht. rewrite lookup_empty in Ht. discriminate.
    + exists job. split; [exact H1|]. split; [exact H2|]. split; [exact H3|].
      congruence.
  - intros result id. apply syncJobs_resume_fresh. apply lookup_empty.
  - intros result.
    match goal with
    | |- isRunning (syncJobs_resume _ ?a ?s) = _ =>
        destruct (syncJobs_resume_frame validate a s) as (_ & _ & ->)
    end.
    reflexivity.
Qed.

End StartStop.

Lemma stop_clears_timers_witness :
  SchedulerService.activeTasks
    (SchedulerService.sched
       (SchedulerService.stop
          (fst (SchedulerService.start cronPattern true sample_world))))
  = ∅.
Proof.
  destruct (stop_clears_timers cronPattern
              (fst (SchedulerService.start cronPattern true sample_world))
              eq_refl) as [H _].
  exact H.
Defined.

(** ** CacheService: the maps as filtered lists *)

Section MapFilter.
Context {A : Type}.
Implicit Types (m : list (string * A)) (k : string).

Lemma map_delete_filter k m :
  CacheService.map_delete k m = filter (fun kv => fst kv <> k) m.
Proof.
  induction m as [|[k' a] m IH]; cbn [CacheService.map_delete];
    [reflexivity|].
  destruct (String.eqb k k') eqn:E.
  - apply String.eqb_eq in E. subst k'.
    rewrite filter_cons_False by (cbn; intros H; apply H; reflexivity).
    exact IH.
  - apply String.eqb_neq in E.
    rewrite filter_cons_True by (cbn; congruence).
    rewrite IH. reflexivity.
Qed.

Lemma map_get_None k m :
  CacheService.map_get k m = None <-> k ∉ map fst m.
Proof.
  induction m as [|[k' a] m IH]; cbn [CacheService.map_get map fst].
  - split; [intros _ H; inversion H|reflexivity].
  - rewrite not_elem_of_cons. destruct (String.eqb k k') eqn:E.
    + apply String.eqb_eq in E. split; [discriminate|]. intros [H _].
      contradiction.
    + apply String.eqb_neq in E. rewrite IH. tauto.
Qed.

Lemma map_get_filter (P : string -> Prop) `{!forall k, Decision (P k)} k m :
  CacheService.map_get k (filter (fun kv => P (fst kv)) m)
  = if decide (P k) then CacheService.map_get k m else None.
Proof.
  induction m as [|[k' a] m IH]; cbn [CacheService.map_get].
  - rewrite filter_nil. destruct (decide (P k)); reflexivity.
  - destruct (decide (P k')) as [Hk'|Hk'].
    + rewrite filter_cons_True by exact Hk'. cbn [CacheService.map_get].
      rewrite IH. destruct (String.eqb k k') eqn:E; [|reflexivity].
      apply String.eqb_eq in E. subst k'.
      rewrite decide_True by exact Hk'. reflexivity.
    + rewrite filter_cons_False by exact Hk'. rewrite IH.
      destruct (String.eqb k k') eqn:E; [|reflexivity].
      apply String.eqb_eq in E. subst k'.
      rewrite !decide_False by exact Hk'. reflexivity.
Qed.

Lemma map_get_filter_ne k k' m :
  CacheService.map_get k' (filter (fun kv => fst kv <> k) m)
  = if decide (k' <> k) then CacheService.map_get k' m else None.
Proof.
  exact (map_get_filter (fun x => x <> k) k' m).
Qed.

Lemma map_get_filter_notin (ks : list string) k m :
  CacheService.map_get k (filter (fun kv => fst kv ∉ ks) m)
  = if decide (k ∉ ks) then CacheService.map_get k m else None.
Proof.
  exact (map_get_filter (fun x => x ∉ ks) k m).
Qed.

Lemma map_has_false_filter k m :
  CacheService.map_has k m = false -> filter (fun kv => fst kv <> k) m = m.
Proof.
  unfold CacheService.map_has. intros H.
  destruct (CacheService.map_get k m) eqn:G; [discriminate|].
  apply map_get_None in G.
  induction m as [|[k' a] m IH]; [reflexivity|].
  cbn [map fst] in G. apply not_elem_of_cons in G as [G1 G2].
  rewrite filter_cons_True by (cbn; congruence). rewrite (IH G2).
  reflexivity.
Qed.

Lemma sublist_map {B C} (f : B -> C) (l1 l2 : list B) :
  l1 `sublist_of` l2 -> map f l1 `sublist_of` map f l2.
Proof.
  induction 1; cbn [map]; constructor; assumption.
Qed.

Lemma keys_filter_NoDup (P : string * A -> Prop) `{!forall x, Decision (P x)}
    m :
  NoDup (map fst m) -> NoDup (map fst (filter P m)).
Proof.
  intros Hn. eapply sublist_NoDup; [exact Hn|].
  apply sublist_map, sublist_filter.
Qed.

Lemma map_get_Some_elem k a m :
  CacheService.map_get k m = Some a -> (k, a) ∈ m.
Proof.
  induction m as [|[k' a'] m IH]; cbn [CacheService.map_get];
    [discriminate|].
  destruct (String.eqb k k') eqn:E.
  - apply String.eqb_eq in E. subst k'. intros [= ->]. apply elem_of_cons.
    auto.
  - intros H. apply elem_of_cons. right. exact (IH H).
Qed.

Lemma map_get_elem_Some k a m :
  NoDup (map fst m) -> (k, a) ∈ m -> CacheService.map_get k m = Some a.
Proof.
  induction m as [|[k' a'] m IH]; intros Hn H; [inversion H|].
  cbn [map fst] in Hn. apply NoDup_cons in Hn as [Hk' Hn].
  cbn [CacheService.map_get].
  apply elem_of_cons in H as [H|H].
  - injection H as -> ->. rewrite String.eqb_refl. reflexivity.
  - destruct (String.eqb k k') eqn:E; [|exact (IH Hn H)].
    apply String.eqb_eq in E. subst k'. exfalso. apply Hk'.
    apply list_elem_of_In, in_map_iff. exists (k, a).
    split; [reflexivity|]. apply list_elem_of_In, H.
Qed.

Lemma map_set_keys_present k (a : A) m :
  CacheService.map_get k m <> None ->
  map fst (CacheService.map_set k a m) = map fst m.
Proof.
  induction m as [|[k' a'] m IH]; cbn [CacheService.map_get
    CacheService.map_set]; [congruence|].
  destruct (String.eqb k k') eqn:E.
  - apply String.eqb_eq in E. subst k'. reflexivity.
  - intros H. cbn [map fst]. rewrite (IH H). reflexivity.
Qed.

Lemma map_set_NoDup k (a : A) m :
  NoDup (map fst m) -> NoDup (map fst (CacheService.map_set k a m)).
Proof.
  intros Hn. destruct (CacheService.map_get k m) eqn:G.
  - rewrite map_set_keys_present by congruence. exact Hn.
  - rewrite (map_set_absent k a m G), map_app. cbn [map fst].
    apply NoDup_app. split; [exact Hn|]. split; [|apply NoDup_singleton].
    intros x Hx Hx'. apply list_elem_of_singleton in Hx'. subst x.
    apply map_get_None in G. contradiction.
Qed.

Lemma foldl_filter {B} (p : A -> bool) (f : B -> A -> B) (l : list A) b :
  foldl (fun b x => if p x then f b x else b) b l
  = foldl f b (filter (fun x => p x = true) l).
Proof.
  revert b. induction l as [|x l IH]; intros b; [reflexivity|].
  cbn [foldl]. destruct (p x) eqn:E.
  - rewrite filter_cons_True by exact E. cbn [foldl]. apply IH.
  - rewrite filter_cons_False by (rewrite E; discriminate). apply IH.
Qed.

End MapFilter.

Lemma filter_all {A} (P : A -> Prop) `{!forall x, Decision (P x)} (l : list A) :
  (forall x, x ∈ l -> P x) -> filter P l = l.
Proof.
  induction l as [|x l IH]; intros Hall; [reflexivity|].
  rewrite filter_cons_True by (apply Hall, elem_of_cons; auto).
  rewrite IH; [reflexivity|]. intros y Hy. apply Hall, elem_of_cons. auto.
Qed.

Lemma foldl_map_arg {A B C} (f : A -> C -> A) (g : B -> C) (l : list B) a :
  foldl (fun a x => f a (g x)) a l = foldl f a (map g l).
Proof.
  revert a. induction l as [|x l IH]; intros a; [reflexivity|].
  cbn [foldl map]. apply IH.
Qed.

(** ** CacheService: what the calls keep *)

Section CacheInvariant.
Context {V : Type}.
Import CacheService.
Implicit Types (s : CacheService.t V) (key k : string).

Lemma cache_delete_cache key s :
  cache V (fst (delete V key s))
  = filter (fun kv => fst kv <> key) (cache V s).
Proof.
  unfold delete. cbn [fst cache].
  destruct (map_has key (cache V s)) eqn:E.
  - apply map_delete_filter.
  - symmetry. apply map_has_false_filter, E.
Qed.

Lemma cache_delete_timers_filter key s :
  ttlTimers V (fst (delete V key s))
  = filter (fun kv => fst kv <> key) (ttlTimers V s).
Proof.
  unfold delete. cbn [fst ttlTimers].
  destruct (map_has key (ttlTimers V s)) eqn:E.
  - apply map_delete_filter.
  - symmetry. apply map_has_false_filter, E.
Qed.

Lemma cache_delete_stats key s :
  let s' := fst (delete V key s) in
  hits (stats V s') = hits (stats V s)
  /\ misses (stats V s') = misses (stats V s)
  /\ sets (stats V s') = sets (stats V s)
  /\ deletes (stats V s')
     = deletes (stats V s) + (if map_has key (cache V s) then 1 else 0)
  /\ Z.of_nat (length (cache V s')) + deletes (stats V s')
     <= Z.of_nat (length (cache V s)) + deletes (stats V s).
Proof.
  unfold delete, map_has. cbn [fst stats cache].
  destruct (map_get key (cache V s)) eqn:G;
    cbn [hits misses sets deletes]; repeat split; try lia.
  assert (H : map_get key (cache V s) <> None) by congruence.
  pose proof (map_delete_present_length key (cache V s) H). lia.
Qed.

Lemma delete_fold ks s :
  let s' := foldl (fun s k => fst (delete V k s)) s ks in
  cache V s' = filter (fun kv => fst kv ∉ ks) (cache V s)
  /\ ttlTimers V s' = filter (fun kv => fst kv ∉ ks) (ttlTimers V s)
  /\ hits (stats V s') = hits (stats V s)
  /\ misses (stats V s') = misses (stats V s)
  /\ sets (stats V s') = sets (stats V s)
  /\ deletes (stats V s) <= deletes (stats V s')
  /\ Z.of_nat (length (cache V s')) + deletes (stats V s')
     <= Z.of_nat (length (cache V s)) + deletes (stats V s)
  /\ (NoDup ks -> (forall k, k ∈ ks -> map_has k (cache V s) = true) ->
      deletes (stats V s') = deletes (stats V s) + Z.of_nat (length ks)).
Proof.
  revert s. induction ks as [|k ks IH]; intros s; cbn [foldl].
  - split; [symmetry; apply filter_all; intros x _ H; inversion H|].
    split; [symmetry; apply filter_all; intros x _ H; inversion H|].
    repeat split; try lia. intros _ _. cbn. lia.
  - destruct (IH (fst (delete V k s))) as (I1 & I2 & I3 & I4 & I5 & I6 & I7 & I8).
    destruct (cache_delete_stats k s) as (D1 & D2 & D3 & D4 & D5).
    cbn zeta in D1, D2, D3, D4, D5.
    split.
    { rewrite I1, cache_delete_cache, list_filter_filter.
      apply list_filter_iff. intros x. rewrite not_elem_of_cons. tauto. }
    split.
    { rewrite I2, cache_delete_timers_filter, list_filter_filter.
      apply list_filter_iff. intros x. rewrite not_elem_of_cons. tauto. }
    split; [congruence|]. split; [congruence|]. split; [congruence|].
    split. { destruct (map_has k (cache V s)); lia. }
    split; [lia|].
    intros Hn Hall. apply NoDup_cons in Hn as [Hk Hn].
    rewrite I8.
    + rewrite D4, (Hall k) by (apply elem_of_cons; auto).
      cbn [length]. lia.
    + exact Hn.
    + intros k' Hk'. unfold map_has. rewrite cache_delete_cache.
      rewrite map_get_filter_ne.
      rewrite decide_True by (intros ->; contradiction).
      apply (Hall k'). apply elem_of_cons. auto.
Qed.

Lemma consistent_restrict (P : string -> Prop) `{!forall k, Decision (P k)}
    s s' :
  NoDup (keys V s) -> NoDup (map fst (ttlTimers V s)) ->
  (forall key d,
     map_get key (ttlTimers V s) = Some d ->
     exists e x, map_get key (cache V s) = Some e /\ expiresAt V e = Some x
                 /\ d = createdAt V e + timer_delay (x - createdAt V e)) ->
  (forall key e,
     map_get key (cache V s) = Some e -> is_Some (expiresAt V e) ->
     is_Some (map_get key (ttlTimers V s))) ->
  0 <= deletes (stats V s) ->
  Z.of_nat (size V s) + deletes (stats V s) <= sets (stats V s) ->
  cache V s' = filter (fun kv => P (fst kv)) (cache V s) ->
  ttlTimers V s' = filter (fun kv => P (fst kv)) (ttlTimers V s) ->
  sets (stats V s') = sets (stats V s) ->
  deletes (stats V s) <= deletes (stats V s') ->
  Z.of_nat (length (cache V s')) + deletes (stats V s')
  <= Z.of_nat (length (cache V s)) + deletes (stats V s) ->
  (size V s' <= 1000)%nat ->
  cache_consistent s'.
Proof.
  intros C1 C2 C4 C5 C6 C7 Hc Ht Hs Hd Hl Hb.
  unfold cache_consistent, keys, size in *.
  split; [rewrite Hc; apply keys_filter_NoDup, C1|].
  split; [rewrite Ht; apply keys_filter_NoDup, C2|].
  split; [exact Hb|].
  split.
  { intros key d. rewrite Hc, Ht, !map_get_filter.
    destruct (decide (P key)); [apply C4|discriminate]. }
  split.
  { intros key e. rewrite Hc, Ht, !map_get_filter.
    destruct (decide (P key)); [apply C5|discriminate]. }
  split; lia.
Qed.

Lemma consistent_delete_fold ks s :
  cache_consistent s ->
  cache_consistent (foldl (fun s k => fst (delete V k s)) s ks).
Proof.
  intros (C1 & C2 & C3 & C4 & C5 & C6 & C7).
  destruct (delete_fold ks s) as (I1 & I2 & _ & _ & I5 & I6 & I7 & _).
  apply (consistent_restrict (fun k => k ∉ ks) s); try assumption.
  unfold size in *. rewrite I1.
  pose proof (length_filter (fun kv : string * Entry V => fst kv ∉ ks)
                (cache V s)). lia.
Qed.

Lemma consistent_delete key s :
  cache_consistent s -> cache_consistent (fst (delete V key s)).
Proof.
  intros H. exact (consistent_delete_fold [key] s H).
Qed.

Lemma evictLRU_keys s :
  evictLRU V s
  = foldl (fun s k => fst (delete V k s)) s
      (map fst
         (take (length (cache V s) / 10)
            (order_by (fun a b => lastAccessed V (snd a) <=? lastAccessed V (snd b))
               (cache V s)))).
Proof.
  unfold evictLRU. cbn zeta.
  exact (foldl_map_arg (fun s k => fst (delete V k s)) fst _ s).
Qed.

Lemma cleanup_keys now s :
  cleanup V now s
  = foldl (fun s k => fst (delete V k s)) s
      (map fst (filter (fun kv => expired V now (snd kv) = true) (cache V s))).
Proof.
  unfold cleanup.
  rewrite (foldl_filter (fun kv => expired V now (snd kv))
             (fun s kv => fst (delete V (fst kv) s))).
  exact (foldl_map_arg (fun s k => fst (delete V k s)) fst _ s).
Qed.

Lemma consistent_get key now s :
  cache_consistent s -> cache_consistent (fst (get V key now s)).
Proof.
  intros H. unfold get.
  destruct (map_get key (cache V s)) as [e|] eqn:G.
  - destruct (expired V now e).
    + pose proof (consistent_delete key s H) as H'.
      exact H'.
    + destruct H as (C1 & C2 & C3 & C4 & C5 & C6 & C7).
      unfold cache_consistent, keys, size in *.
      cbn [fst cache ttlTimers stats deletes sets].
      rewrite map_set_keys_present by congruence.
      rewrite map_set_present_length by congruence.
      split; [exact C1|]. split; [exact C2|]. split; [exact C3|].
      split.
      { intros k d Hd. destruct (C4 k d Hd) as (e' & x & H1 & H2 & H3).
        destruct (decide (key = k)) as [->|Hne].
        - rewrite map_get_set_eq. eexists _, x. split; [reflexivity|].
          assert (e' = e) by congruence. subst e'. cbn. auto.
        - rewrite map_get_set_ne by exact Hne. eauto. }
      split; [|split; assumption].
      intros k e' He' Hx. destruct (decide (key = k)) as [->|Hne].
      * rewrite map_get_set_eq in He'. injection He' as <-. cbn in Hx.
        exact (C5 k e G Hx).
      * rewrite map_get_set_ne in He' by exact Hne. exact (C5 k e' He' Hx).
  - destruct H as (C1 & C2 & C3 & C4 & C5 & C6 & C7).
    unfold cache_consistent, keys, size in *.
    cbn [fst cache ttlTimers stats deletes sets]. auto 10.
Qed.

Lemma consistent_set key (v : V) ttlMs now s :
  cache_consistent s -> cache_consistent (set V key v ttlMs now s).
Proof.
  intros (C1 & C2 & C3 & C4 & C5 & C6 & C7). unfold set.
  set (entry := mkEntry V v now now _).
  set (timers1 := if map_has key (ttlTimers V s) then _ else _).
  assert (Ht1 : timers1 = filter (fun kv => fst kv <> key) (ttlTimers V s)).
  { subst timers1. destruct (map_has key (ttlTimers V s)) eqn:E.
    - apply map_delete_filter.
    - symmetry. apply map_has_false_filter, E. }
  assert (Hg1 : forall k, map_get k timers1
                = if decide (k <> key) then map_get k (ttlTimers V s)
                  else None).
  { intros k. rewrite Ht1. apply map_get_filter_ne. }
  assert (Hn1 : NoDup (map fst timers1)).
  { rewrite Ht1. apply keys_filter_NoDup, C2. }
  clearbody timers1.
  set (s1 := mk V _ _ _).
  unfold keys, size in *.
  assert (S1 : NoDup (map fst (cache V s1)))
    by (apply map_set_NoDup, C1).
  assert (S2 : NoDup (map fst (ttlTimers V s1))).
  { subst s1. cbn [ttlTimers]. destruct (ttl_given ttlMs);
      [apply map_set_NoDup|]; exact Hn1. }
  assert (S3 : (length (cache V s1) <= 1001)%nat).
  { subst s1. cbn [cache].
    pose proof (map_set_length key entry (cache V s)). lia. }
  assert (S4 : forall k d,
             map_get k (ttlTimers V s1) = Some d ->
             exists e x, map_get k (cache V s1) = Some e
                         /\ expiresAt V e = Some x
                         /\ d = createdAt V e + timer_delay (x - createdAt V e)).
  { subst s1. cbn [cache ttlTimers]. intros k d Hd.
    destruct (decide (key = k)) as [<-|Hne].
    - rewrite map_get_set_eq. exists entry.
      subst entry. cbn [expiresAt createdAt].
      destruct (ttl_given ttlMs) as [n|].
      + rewrite map_get_set_eq in Hd. injection Hd as <-.
        exists (now + n). split; [reflexivity|]. split; [reflexivity|].
        do 2 f_equal. lia.
      + rewrite Hg1, decide_False in Hd by (intros H; apply H; reflexivity).
        discriminate.
    - rewrite map_get_set_ne by exact Hne.
      apply C4. destruct (ttl_given ttlMs) as [n|].
      + rewrite map_get_set_ne in Hd by exact Hne.
        rewrite Hg1, decide_True in Hd by congruence. exact Hd.
      + rewrite Hg1, decide_True in Hd by congruence. exact Hd. }
  assert (S5 : forall k e,
             map_get k (cache V s1) = Some e -> is_Some (expiresAt V e) ->
             is_Some (map_get k (ttlTimers V s1))).
  { subst s1. cbn [cache ttlTimers]. intros k e He Hx.
    destruct (decide (key = k)) as [<-|Hne].
    - rewrite map_get_set_eq in He. injection He as <-.
      subst entry. cbn [expiresAt] in Hx.
      destruct (ttl_given ttlMs) as [n|].
      + rewrite map_get_set_eq. eauto.
      + destruct Hx as [x Hx]. discriminate.
    - rewrite map_get_set_ne in He by exact Hne.
      pose proof (C5 k e He Hx) as Hk.
      destruct (ttl_given ttlMs) as [n|].
      + rewrite map_get_set_ne by exact Hne.
        rewrite Hg1, decide_True by congruence. exact Hk.
      + rewrite Hg1, decide_True by congruence. exact Hk. }
  assert (S6 : 0 <= deletes (stats V s1)) by exact C6.
  assert (S7 : Z.of_nat (length (cache V s1)) + deletes (stats V s1)
               <= sets (stats V s1)).
  { subst s1. cbn [cache stats deletes sets].
    pose proof (map_set_length key entry (cache V s)). lia. }
  clearbody s1.
  destruct (1000 <? length (cache V s1))%nat eqn:E.
  - apply Nat.ltb_lt in E. rewrite evictLRU_keys.
    match goal with
    | |- cache_consistent (foldl _ s1 ?ks) =>
        destruct (delete_fold ks s1) as (I1 & I2 & _ & _ & I5 & I6 & I7 & _);
        apply (consistent_restrict (fun k => k ∉ ks) s1); try assumption
    end.
    rewrite <- evictLRU_keys. unfold size.
    pose proof (evictLRU_length s1 E). lia.
  - apply Nat.ltb_ge in E.
    unfold cache_consistent, keys, size. auto 10.
Qed.

Lemma consistent_step (is_null : V -> bool) s op :
  cache_consistent s -> cache_consistent (step V is_null s op).
Proof.
  intros H. destruct op as [key now|key v ttlMs now|key|key now| |now| |key];
    cbn [step].
  - apply consistent_get, H.
  - apply consistent_set, H.
  - apply consistent_delete, H.
  - unfold has. pose proof (consistent_get key now s H) as Hg.
    destruct (get V key now s) as [s1 r]. exact Hg.
  - unfold clear, cache_consistent, keys, size. cbn.
    split; [constructor|]. split; [constructor|]. split; [lia|].
    split; [intros ? ? [=]|]. split; [intros ? ? [=]|]. lia.
  - rewrite cleanup_keys. apply consistent_delete_fold, H.
  - rewrite evictLRU_keys. apply consistent_delete_fold, H.
  - destruct (map_has key (ttlTimers V s)); [|exact H].
    apply consistent_delete, H.
Qed.

Lemma consistent_new : cache_consistent (new V).
Proof.
  unfold new, cache_consistent, keys, size. cbn.
  split; [constructor|]. split; [constructor|]. split; [lia|].
  split; [intros ? ? [=]|]. split; [intros ? ? [=]|]. lia.
Qed.

Lemma consistent_foldl (is_null : V -> bool) ops s :
  cache_consistent s -> cache_consistent (foldl (step V is_null) s ops).
Proof.
  revert s. induction ops as [|op ops IH]; intros s H; [exact H|].
  cbn [foldl]. apply IH, consistent_step, H.
Qed.

End CacheInvariant.

Lemma filter_ext_in {A} (P Q : A -> Prop) `{!forall x, Decision (P x)}
    `{!forall x, Decision (Q x)} (l : list A) :
  (forall x, x ∈ l -> (P x <-> Q x)) -> filter P l = filter Q l.
Proof.
  induction l as [|x l IH]; intros Hall; [reflexivity|].
  assert (Hx : P x <-> Q x) by (apply Hall, elem_of_cons; auto).
  assert (Hl : filter P l = filter Q l).
  { apply IH. intros y Hy. apply Hall, elem_of_cons. auto. }
  destruct (decide (P x)) as [Hp|Hp].
  - rewrite !filter_cons_True by tauto. rewrite Hl. reflexivity.
  - rewrite !filter_cons_False by tauto. exact Hl.
Qed.

Lemma filter_nothing {A} (P : A -> Prop) `{!forall x, Decision (P x)}
    (l : list A) :
  (forall x, x ∈ l -> ~ P x) -> filter P l = [].
Proof.
  induction l as [|x l IH]; intros Hall; [reflexivity|].
  rewrite filter_cons_False by (apply Hall, elem_of_cons; auto).
  apply IH. intros y Hy. apply Hall, elem_of_cons. auto.
Qed.

Lemma StronglySorted_app_le {A} (R : A -> A -> Prop) (l1 l2 : list A) :
  StronglySorted R (l1 ++ l2) ->
  forall a b, a ∈ l1 -> b ∈ l2 -> R a b.
Proof.
  induction l1 as [|x l1 IH]; intros Hs a b Ha Hb; [inversion Ha|].
  cbn [app] in Hs. apply StronglySorted_inv in Hs as [Hs Hx].
  apply elem_of_cons in Ha as [->|Ha]; [|exact (IH Hs a b Ha Hb)].
  rewrite Forall_forall in Hx. apply Hx, elem_of_app. auto.
Qed.

(** ** CacheService: timers, counters, cleanup and eviction *)

Section CacheTheorems.
Context {V : Type}.
Import CacheService.
Implicit Types (s : CacheService.t V) (key k : string).

Lemma exec_consistent (is_null : V -> bool) (ops : list (Op V)) :
  cache_consistent (exec V is_null ops).
Proof.
  apply consistent_foldl, consistent_new.
Qed.

(** In every state the cache reaches from a new one, by any sequence of
    [get], [set], [delete], [has], [clear], [cleanup], [evictLRU] calls
    and timer callbacks: no key is listed twice by [keys()]; a key has
    an armed expiry timer exactly when it has an entry that carries an
    expiry time, so that no timer outlives its entry and no expiring
    entry is left without a timer; and the timer is due when the TTL
    ([expiresAt - createdAt]) has elapsed since the entry was stored, or
    after one millisecond when the TTL is not between 1 and 2147483647,
    the delays a timer accepts. *)
Theorem cache_timers_follow_entries (is_null : V -> bool) (ops : list (Op V)) :
  let s := exec V is_null ops in
  NoDup (keys V s)
  /\ (forall key,
        map_has key (ttlTimers V s) = true
        <-> exists e, map_get key (cache V s) = Some e
                      /\ is_Some (expiresAt V e))
  /\ (forall key d,
        map_get key (ttlTimers V s) = Some d ->
        exists e x,
          map_get key (cache V s) = Some e
          /\ expiresAt V e = Some x
          /\ d = createdAt V e + timer_delay (x - createdAt V e)
          /\ (1 <= x - createdAt V e <= 2147483647 -> d = x)
          /\ (x - createdAt V e < 1 \/ 2147483647 < x - createdAt V e ->
              d = createdAt V e + 1)).
Proof.
  cbn zeta.
  destruct (exec_consistent is_null ops) as (C1 & _ & _ & C4 & C5 & _).
  split; [exact C1|]. split.
  - intros key. unfold map_has. split.
    + destruct (map_get key (ttlTimers V _)) as [d|] eqn:G; [|discriminate].
      intros _. destruct (C4 key d G) as (e & x & H1 & H2 & _).
      exists e. split; [exact H1|]. rewrite H2. eauto.
    + intros (e & H1 & H2). destruct (C5 key e H1 H2) as [d ->].
      reflexivity.
  - intros key d G. destruct (C4 key d G) as (e & x & H1 & H2 & H3).
    exists e, x. split; [exact H1|]. split; [exact H2|].
    split; [exact H3|]. rewrite H3. unfold timer_delay. split.
    + intros [Ha Hb].
      destruct (1 <=? x - createdAt V e) eqn:E1; [|lia].
      destruct (x - createdAt V e <=? 2147483647) eqn:E2; [|lia].
      cbn [andb]. lia.
    + intros [Ha|Ha].
      * destruct (1 <=? x - createdAt V e) eqn:E1; [lia|]. reflexivity.
      * destruct (x - createdAt V e <=? 2147483647) eqn:E2; [lia|].
        rewrite andb_false_r. reflexivity.
Qed.

Lemma get_counts key now s :
  let s' := fst (get V key now s) in
  (hits (stats V s') = hits (stats V s) + 1
   /\ misses (stats V s') = misses (stats V s))
  \/ (hits (stats V s') = hits (stats V s)
      /\ misses (stats V s') = misses (stats V s) + 1).
Proof.
  unfold get. destruct (map_get key (cache V s)) as [e|].
  - destruct (expired V now e); cbn [fst stats hits misses]; [|auto].
    destruct (cache_delete_stats key s) as (D1 & D2 & _).
    cbn zeta in D1, D2. rewrite D1, D2. auto.
  - cbn. auto.
Qed.

Lemma set_counts key (v : V) ttlMs now s :
  let s' := set V key v ttlMs now s in
  hits (stats V s') = hits (stats V s)
  /\ misses (stats V s') = misses (stats V s).
Proof.
  unfold set. set (s1 := mk V _ _ _).
  destruct (1000 <? length (cache V s1))%nat; [|split; reflexivity].
  rewrite evictLRU_keys.
  match goal with
  | |- context [foldl _ s1 ?ks] =>
      destruct (delete_fold ks s1) as (_ & _ & I3 & I4 & _)
  end.
  cbn zeta in I3, I4. rewrite I3, I4. split; reflexivity.
Qed.

Lemma lookups_foldl (is_null : V -> bool) (ops : list (Op V)) s n :
  hits (stats V s) + misses (stats V s) = n ->
  0 <= hits (stats V s) -> 0 <= misses (stats V s) ->
  let s' := foldl (step V is_null) s ops in
  hits (stats V s') + misses (stats V s') = lookups V ops n
  /\ 0 <= hits (stats V s') /\ 0 <= misses (stats V s').
Proof.
  revert s n. induction ops as [|op ops IH]; intros s n Hn Hh Hm;
    cbn [foldl lookups]; [auto|].
  destruct op as [key now|key v ttlMs now|key|key now| |now| |key];
    cbn [step].
  - destruct (get_counts key now s) as [[H1 H2]|[H1 H2]];
      cbn zeta in H1, H2; apply IH; lia.
  - destruct (set_counts key v ttlMs now s) as [H1 H2].
    cbn zeta in H1, H2. apply IH; lia.
  - destruct (cache_delete_stats key s) as (H1 & H2 & _).
    cbn zeta in H1, H2. apply IH; lia.
  - unfold has.
    destruct (get_counts key now s) as [[H1 H2]|[H1 H2]];
      cbn zeta in H1, H2; destruct (get V key now s) as [s1 r];
      cbn [fst] in *; apply IH; lia.
  - apply IH; cbn; lia.
  - rewrite cleanup_keys.
    match goal with
    | |- context [foldl _ s (map fst ?l)] =>
        destruct (delete_fold (map fst l) s) as (_ & _ & I3 & I4 & _)
    end.
    cbn zeta in I3, I4. apply IH; lia.
  - rewrite evictLRU_keys.
    match goal with
    | |- context [foldl _ s (map fst ?l)] =>
        destruct (delete_fold (map fst l) s) as (_ & _ & I3 & I4 & _)
    end.
    cbn zeta in I3, I4. apply IH; lia.
  - destruct (map_has key (ttlTimers V s)); [|apply IH; lia].
    unfold timer_fired.
    destruct (cache_delete_stats key s) as (H1 & H2 & _).
    cbn zeta in H1, H2. apply IH; lia.
Qed.

(** In every state the cache reaches from a new one: [hits + misses] is
    the number of lookups ([get] and [has] calls) made since the last
    [clear()], a lookup of an expired entry counting as a miss; the
    number of entries plus the deletions counted never exceeds the
    number of [set] calls counted; and the cache holds at most 1000
    entries. *)
Theorem cache_counters (is_null : V -> bool) (ops : list (Op V)) :
  let s := exec V is_null ops in
  hits (stats V s) + misses (stats V s) = lookups V ops 0
  /\ 0 <= hits (stats V s)
  /\ 0 <= misses (stats V s)
  /\ 0 <= deletes (stats V s)
  /\ Z.of_nat (size V s) + deletes (stats V s) <= sets (stats V s)
  /\ (size V s <= 1000)%nat.
Proof.
  cbn zeta.
  destruct (exec_consistent is_null ops) as (_ & _ & C3 & _ & _ & C6 & C7).
  destruct (lookups_foldl is_null ops (new V) 0) as (L1 & L2 & L3);
    [reflexivity|cbn; lia|cbn; lia|].
  auto 10.
Qed.

Lemma keys_of_elem (l : list (string * Entry V)) kv :
  kv ∈ l -> fst kv ∈ map fst l.
Proof.
  intros H. apply list_elem_of_In, in_map, list_elem_of_In, H.
Qed.

Lemma elem_of_keys (l : list (string * Entry V)) k :
  k ∈ map fst l -> exists kv, kv ∈ l /\ fst kv = k.
Proof.
  intros H. apply list_elem_of_In, in_map_iff in H as (kv & H1 & H2).
  exists kv. split; [apply list_elem_of_In, H2|exact H1].
Qed.

Lemma same_key_same_entry (l : list (string * Entry V)) kv kv' :
  NoDup (map fst l) -> kv ∈ l -> kv' ∈ l -> fst kv = fst kv' -> kv = kv'.
Proof.
  intros Hn H1 H2 Hk. destruct kv as [k e], kv' as [k' e'].
  cbn [fst] in Hk. subst k'.
  pose proof (map_get_elem_Some k e l Hn H1).
  pose proof (map_get_elem_Some k e' l Hn H2). congruence.
Qed.

(** [cleanup()] in any state the cache reaches from a new one: the
    entries left are exactly those whose expiry time has not passed at
    the instant of the call, in their order; each removed entry is
    counted as one deletion; a key that keeps its entry keeps its timer
    and a key that loses it has no timer left; the other counters are
    not touched. *)
Theorem cleanup_removes_expired (is_null : V -> bool) (ops : list (Op V))
    (now : Z) :
  let s := exec V is_null ops in
  let s' := cleanup V now s in
  cache V s' = filter (fun kv => expired V now (snd kv) = false) (cache V s)
  /\ (forall key,
        map_get key (ttlTimers V s')
        = match map_get key (cache V s') with
          | Some _ => map_get key (ttlTimers V s)
          | None => None
          end)
  /\ deletes (stats V s')
     = deletes (stats V s)
       + Z.of_nat (length (filter (fun kv => expired V now (snd kv) = true)
                             (cache V s)))
  /\ hits (stats V s') = hits (stats V s)
  /\ misses (stats V s') = misses (stats V s)
  /\ sets (stats V s') = sets (stats V s).
Proof.
  cbn zeta. set (s := exec V is_null ops).
  destruct (exec_consistent is_null ops) as (C1 & _ & _ & C4 & _).
  fold s in C1, C4. unfold keys in C1.
  rewrite cleanup_keys.
  set (gone := filter (fun kv => expired V now (snd kv) = true) (cache V s)).
  destruct (delete_fold (map fst gone) s)
    as (I1 & I2 & I3 & I4 & I5 & _ & _ & I8).
  cbn zeta in I1, I2, I3, I4, I5, I8.
  assert (Hgone : forall kv, kv ∈ cache V s ->
            (fst kv ∉ map fst gone <-> expired V now (snd kv) = false)).
  { intros kv Hkv. split.
    - intros Hn. destruct (expired V now (snd kv)) eqn:E; [|reflexivity].
      exfalso. apply Hn, keys_of_elem. subst gone.
      apply list_elem_of_filter. auto.
    - intros E Hin. apply elem_of_keys in Hin as (kv' & H1 & H2).
      subst gone. apply list_elem_of_filter in H1 as [H1 H3].
      assert (kv' = kv) by (apply (same_key_same_entry (cache V s)); auto).
      subst kv'. congruence. }
  assert (Hcache : cache V (foldl (fun s k => fst (delete V k s)) s
                              (map fst gone))
                   = filter (fun kv => expired V now (snd kv) = false)
                       (cache V s)).
  { rewrite I1. apply filter_ext_in, Hgone. }
  split; [exact Hcache|]. split.
  - intros key. rewrite I2, I1, !map_get_filter_notin.
    destruct (decide (key ∉ map fst gone)); [|reflexivity].
    destruct (map_get key (cache V s)) eqn:G; [reflexivity|].
    destruct (map_get key (ttlTimers V s)) as [d|] eqn:G'; [|reflexivity].
    destruct (C4 key d G') as (e & x & H1 & _). congruence.
  - split; [|auto].
    rewrite I8, length_map; [reflexivity| |].
    + subst gone. apply keys_filter_NoDup, C1.
    + intros k Hk. apply elem_of_keys in Hk as ([k' e] & H1 & H2).
      cbn [fst] in H2. subst k'. subst gone.
      apply list_elem_of_filter in H1 as [_ H1].
      unfold map_has. rewrite (map_get_elem_Some k e _ C1 H1). reflexivity.
Qed.

Lemma lru_le_total (a b : string * Entry V) :
  (lastAccessed V (snd a) <=? lastAccessed V (snd b)) = false ->
  (lastAccessed V (snd b) <=? lastAccessed V (snd a)) = true.
Proof. intros H. apply Z.leb_le. apply Z.leb_gt in H. lia. Qed.

Lemma lru_le_trans (a b c : string * Entry V) :
  (lastAccessed V (snd a) <=? lastAccessed V (snd b)) = true ->
  (lastAccessed V (snd b) <=? lastAccessed V (snd c)) = true ->
  (lastAccessed V (snd a) <=? lastAccessed V (snd c)) = true.
Proof. rewrite !Z.leb_le. lia. Qed.

(** [evictLRU()] in any state the cache reaches from a new one, with [n]
    entries: exactly [floor(n / 10)] entries are removed and counted as
    deletions; the entries kept stay in their order; every removed entry
    was last accessed no later than every entry kept; a key that keeps
    its entry keeps its timer and a key that loses it has no timer
    left. *)
Theorem evictLRU_oldest_tenth (is_null : V -> bool) (ops : list (Op V)) :
  let s := exec V is_null ops in
  let s' := evictLRU V s in
  let n := size V s in
  size V s' = (n - n / 10)%nat
  /\ cache V s' `sublist_of` cache V s
  /\ (forall kv kv',
        kv ∈ cache V s -> kv ∉ cache V s' -> kv' ∈ cache V s' ->
        lastAccessed V (snd kv) <= lastAccessed V (snd kv'))
  /\ deletes (stats V s') = deletes (stats V s) + Z.of_nat (n / 10)
  /\ (forall key,
        map_get key (ttlTimers V s')
        = match map_get key (cache V s') with
          | Some _ => map_get key (ttlTimers V s)
          | None => None
          end).
Proof.
  cbn zeta. set (s := exec V is_null ops).
  destruct (exec_consistent is_null ops) as (C1 & _ & _ & C4 & _).
  fold s in C1, C4. unfold keys in C1. unfold size.
  rewrite evictLRU_keys.
  set (le := fun a b : string * Entry V =>
               lastAccessed V (snd a) <=? lastAccessed V (snd b)).
  set (sorted := order_by le (cache V s)).
  set (n := length (cache V s)).
  assert (Hperm : sorted ≡ₚ cache V s) by apply order_by_perm.
  assert (Hsplit : sorted = (take (n / 10) sorted ++ drop (n / 10) sorted)%list)
    by (symmetry; apply take_drop).
  set (tk := take (n / 10) sorted) in *.
  set (dr := drop (n / 10) sorted) in *.
  assert (Hlen : length sorted = n) by apply order_by_length.
  assert (Hltk : length tk = (n / 10)%nat).
  { subst tk. rewrite length_take, Hlen.
    pose proof (Nat.Div0.div_le_upper_bound n 10 n). lia. }
  assert (Hldr : length dr = (n - n / 10)%nat).
  { subst dr. rewrite length_drop, Hlen. reflexivity. }
  assert (Hnd : NoDup (map fst sorted)).
  { assert (Hp : map fst sorted ≡ₚ map fst (cache V s))
      by apply Permutation_map, Hperm.
    rewrite Hp. exact C1. }
  assert (Hnd' : NoDup (map fst tk ++ map fst dr)).
  { rewrite <- map_app, <- Hsplit. exact Hnd. }
  apply NoDup_app in Hnd' as (Hn1 & Hn2 & Hn3).
  assert (Hsorted : StronglySorted (fun a b => le a b = true) (tk ++ dr)).
  { rewrite <- Hsplit. apply order_by_sorted.
    - exact lru_le_total.
    - exact lru_le_trans. }
  assert (Hmem : forall kv, kv ∈ cache V s <-> kv ∈ tk \/ kv ∈ dr).
  { intros kv. rewrite <- Hperm, Hsplit, elem_of_app. reflexivity. }
  assert (Htk : forall kv, kv ∈ tk -> fst kv ∈ map fst tk)
    by (intros kv; apply keys_of_elem).
  assert (Hdr : forall kv, kv ∈ dr -> fst kv ∉ map fst tk).
  { intros kv Hkv Hin. apply (Hn2 (fst kv) Hin), keys_of_elem, Hkv. }
  destruct (delete_fold (map fst tk) s)
    as (I1 & I2 & _ & _ & _ & _ & _ & I8).
  cbn zeta in I1, I2, I8.
  assert (Hkept : forall kv,
            kv ∈ cache V (foldl (fun s k => fst (delete V k s)) s (map fst tk))
            <-> kv ∈ dr).
  { intros kv. rewrite I1, list_elem_of_filter, Hmem. split.
    - intros [H1 [H2|H2]]; [|exact H2]. exfalso. apply H1, Htk, H2.
    - intros H. split; [apply Hdr, H|auto]. }
  split.
  { rewrite I1.
    assert (Hp : filter (fun kv : string * Entry V => fst kv ∉ map fst tk)
                   (cache V s)
                 ≡ₚ filter (fun kv : string * Entry V => fst kv ∉ map fst tk)
                      sorted)
      by (rewrite Hperm; reflexivity).
    rewrite Hp, Hsplit, filter_app.
    rewrite filter_nothing by (intros kv Hkv Hn; apply Hn, Htk, Hkv).
    rewrite filter_all by exact Hdr. cbn [app]. exact Hldr. }
  split; [rewrite I1; apply sublist_filter|].
  split.
  { intros kv kv' H1 H2 H3. apply Hkept in H3.
    assert (H4 : kv ∈ tk).
    { apply Hmem in H1 as [H1|H1]; [exact H1|].
      exfalso. apply H2, Hkept, H1. }
    apply Z.leb_le. exact (StronglySorted_app_le _ tk dr Hsorted kv kv' H4 H3). }
  split.
  { rewrite I8, length_map, Hltk; [reflexivity|exact Hn1|].
    intros k Hk. apply elem_of_keys in Hk as ([k' e] & H1 & H2).
    cbn [fst] in H2. subst k'.
    assert (H3 : (k, e) ∈ cache V s) by (apply Hmem; auto).
    unfold map_has. rewrite (map_get_elem_Some k e _ C1 H3). reflexivity. }
  intros key. rewrite I2, I1, !map_get_filter_notin.
  destruct (decide (key ∉ map fst tk)); [|reflexivity].
  destruct (map_get key (cache V s)) eqn:G; [reflexivity|].
  destruct (map_get key (ttlTimers V s)) as [d|] eqn:G'; [|reflexivity].
  destruct (C4 key d G') as (e & x & H1 & _). congruence.
Qed.

Lemma get_result key now s :
  snd (get V key now s)
  = match map_get key (cache V s) with
    | Some e => if expired V now e then None else Some (value V e)
    | None => None
    end.
Proof.
  unfold get. destruct (map_get key (cache V s)) as [e|]; [|reflexivity].
  destruct (expired V now e); reflexivity.
Qed.

End CacheTheorems.

(** ** The handlers of the controller: store, timers and cache together *)

Lemma map_get_filter_pred {A} (p : string -> bool) k (m : list (string * A)) :
  CacheService.map_get k (filter (fun kv => p (fst kv) = false) m)
  = if p k then None else CacheService.map_get k m.
Proof.
  etransitivity; [exact (map_get_filter (fun x => p x = false) k m)|].
  destruct (decide (p k = false)) as [E|E].
  - rewrite E. reflexivity.
  - destruct (p k); [reflexivity|congruence].
Qed.

Lemma length_filter_keys {A} (p : string -> bool) (l : list (string * A)) :
  length (filter (fun k => p k = true) (map fst l))
  = length (filter (fun kv => p (fst kv) = true) l).
Proof.
  induction l as [|[k e] l IH]; [reflexivity|].
  cbn [map fst]. destruct (p k) eqn:E.
  - rewrite !filter_cons_True by exact E. cbn [length]. rewrite IH.
    reflexivity.
  - rewrite !filter_cons_False by (cbn [fst]; congruence). exact IH.
Qed.

Lemma startsWith_job_key id :
  startsWith ("job:" +:+ id) "jobs:" = false.
Proof.
  change ("job:" +:+ id)
    with (String "j" (String "o" (String "b" (String ":" id)))).
  reflexivity.
Qed.

Section ControllerProperties.
Variable validate : string -> bool.

Import SchedulerService Controller.

Implicit Types (a : App) (c : CacheService.t Cached) (id : string).

Lemma invalidateJobsCache_keys c :
  invalidateJobsCache c
  = foldl (fun c k => fst (CacheService.delete Cached k c)) c
      (filter (fun k => startsWith k "jobs:" = true)
         (CacheService.keys Cached c)).
Proof.
  unfold invalidateJobsCache.
  exact (foldl_filter (fun key => startsWith key "jobs:")
           (fun c key => fst (CacheService.delete Cached key c)) _ c).
Qed.

Lemma invalidateJobsCache_cache c :
  CacheService.cache Cached (invalidateJobsCache c)
  = filter (fun kv => startsWith (fst kv) "jobs:" = false)
      (CacheService.cache Cached c).
Proof.
  rewrite invalidateJobsCache_keys.
  match goal with
  | |- context [foldl _ c ?ks] => destruct (delete_fold ks c) as (I1 & _)
  end.
  cbn zeta in I1. rewrite I1. apply filter_ext_in. intros kv Hkv. split.
  - intros Hn. destruct (startsWith (fst kv) "jobs:") eqn:E; [|reflexivity].
    exfalso. apply Hn, list_elem_of_filter. split; [exact E|].
    apply keys_of_elem, Hkv.
  - intros E Hin. apply list_elem_of_filter in Hin as [H _]. congruence.
Qed.

(** [invalidateJobsCache()] in any state the cache reaches from a new
    one: the entries and the timers left are exactly those whose key
    does not start with [jobs:], in their order; each list entry removed
    counts as one deletion. A job entry [job:<id>] is never a list
    entry and is left as it is. *)
Theorem invalidateJobsCache_exact (is_null : Cached -> bool)
    (ops : list (CacheService.Op Cached)) :
  let c := CacheService.exec Cached is_null ops in
  let c' := invalidateJobsCache c in
  CacheService.cache Cached c'
  = filter (fun kv => startsWith (fst kv) "jobs:" = false)
      (CacheService.cache Cached c)
  /\ CacheService.ttlTimers Cached c'
     = filter (fun kt => startsWith (fst kt) "jobs:" = false)
         (CacheService.ttlTimers Cached c)
  /\ CacheService.deletes (CacheService.stats Cached c')
     = CacheService.deletes (CacheService.stats Cached c)
       + Z.of_nat (length (filter (fun kv => startsWith (fst kv) "jobs:" = true)
                             (CacheService.cache Cached c)))
  /\ (forall id,
        CacheService.map_get ("job:" +:+ id) (CacheService.cache Cached c')
        = CacheService.map_get ("job:" +:+ id) (CacheService.cache Cached c)).
Proof.
  cbn zeta. set (c := CacheService.exec Cached is_null ops).
  destruct (exec_consistent is_null ops) as (C1 & C2 & _ & C4 & _).
  fold c in C1, C2, C4. unfold CacheService.keys in C1.
  split; [apply invalidateJobsCache_cache|].
  split; [|split].
  - rewrite invalidateJobsCache_keys.
    match goal with
    | |- context [foldl _ c ?ks] => destruct (delete_fold ks c) as (_ & I2 & _)
    end.
    cbn zeta in I2. rewrite I2. apply filter_ext_in. intros [k d] Hkt.
    cbn [fst]. split.
    + intros Hn. destruct (startsWith k "jobs:") eqn:E; [|reflexivity].
      exfalso. apply Hn, list_elem_of_filter. split; [exact E|].
      pose proof (map_get_elem_Some k d _ C2 Hkt) as G.
      destruct (C4 k d G) as (e & x & H1 & _).
      apply map_get_Some_elem in H1.
      exact (keys_of_elem _ _ H1).
    + intros E Hin. apply list_elem_of_filter in Hin as [H _]. congruence.
  - rewrite invalidateJobsCache_keys.
    match goal with
    | |- context [foldl _ c ?ks] =>
        destruct (delete_fold ks c) as (_ & _ & _ & _ & _ & _ & _ & I8)
    end.
    cbn zeta in I8. rewrite I8.
    + f_equal. f_equal. unfold CacheService.keys.
      apply (length_filter_keys (fun k => startsWith k "jobs:")).
    + apply NoDup_filter, C1.
    + intros k Hk. apply list_elem_of_filter in Hk as [_ Hk].
      apply elem_of_keys in Hk as ([k' e] & H1 & H2). cbn [fst] in H2.
      subst k'. unfold CacheService.map_has.
      rewrite (map_get_elem_Some k e _ C1 H1). reflexivity.
  - intros id. rewrite invalidateJobsCache_cache.
    rewrite (map_get_filter_pred (fun k => startsWith k "jobs:")).
    rewrite startsWith_job_key. reflexivity.
Qed.

Lemma invalidated_job_key id c :
  CacheService.map_get ("job:" +:+ id)
    (CacheService.cache Cached (invalidateJobsCache (invalidateJobCache id c)))
  = None.
Proof.
  rewrite invalidateJobsCache_cache.
  rewrite (map_get_filter_pred (fun k => startsWith k "jobs:")).
  unfold invalidateJobCache. rewrite cache_delete_get, String.eqb_refl.
  destruct (startsWith _ _); reflexivity.
Qed.

Lemma getJobById_miss id now now' a :
  CacheService.map_get ("job:" +:+ id) (CacheService.cache Cached (cache a))
  = None ->
  snd (getJobById id now now' a)
  = match JobRepository.findById (Val id) (db (world a)) with
    | Some j =>
        JobFound j (getJobExecutionHistory id 1 20 (db (world a)))
          (bool_decide (Val id ∈ getScheduledJobs (sched (world a))))
    | None => JobNotFound
    end.
Proof.
  intros H. unfold getJobById.
  pose proof (get_result ("job:" +:+ id) now (cache a)) as Hg.
  rewrite H in Hg.
  destruct (CacheService.get Cached ("job:" +:+ id) now (cache a))
    as [c1 hit].
  cbn [snd] in Hg. subst hit.
  destruct (JobRepository.findById (Val id) (db (world a))); reflexivity.
Qed.

Lemma update_read_back (id : JsOpt string) (p : Patch.t) date dbnow d d' job :
  JobRepository.update validate id p date dbnow d
  = (d', JobRepository.Updated job) ->
  JobRepository.findById id d' = Some job
  /\ Job.id job = id
  /\ job_executions d' = job_executions d.
Proof.
  unfold JobRepository.update. intros H.
  destruct (JobRepository.findById id d) as [existing|]; [|discriminate].
  set (updated := Job.new (Job.spread existing p)) in *.
  destruct (Job.isValid updated); cbn [negb] in H; [|discriminate].
  destruct (to_col (Job.db_name (Job.toDatabase updated))) as [nm|];
    [|discriminate].
  destruct (to_col (Job.db_cron_expression (Job.toDatabase updated)))
    as [cron|]; [|discriminate].
  match type of H with
  | context [match ?n with Some _ => _ | None => _ end] =>
      destruct n as [nra|]; [|discriminate]
  end.
  set (f := JobRepository.update_row nm cron _ _ nra dbnow) in *.
  assert (Hid : forall x, JobRepository.has_id id (f x)
                          = JobRepository.has_id id x)
    by (intros x; apply update_row_has_id).
  pose proof (filter_sql_update (JobRepository.has_id id) f (jobs d) Hid) as Hf.
  unfold sql_returning in H.
  destruct (filter (fun r => JobRepository.has_id id r = true) (jobs d))
    as [|x l] eqn:E; cbn [map] in H; [discriminate|].
  injection H as <- <-. cbn [jobs job_executions].
  split; [|split; [|reflexivity]].
  - unfold JobRepository.findById. cbn [jobs]. rewrite Hf. reflexivity.
  - assert (Hx : x ∈ filter (fun r => JobRepository.has_id id r = true)
                       (jobs d)) by (rewrite E; apply elem_of_cons; auto).
    apply list_elem_of_filter in Hx as [Hx _].
    rewrite <- (Hid x) in Hx.
    unfold JobRepository.has_id in Hx. apply bool_decide_eq_true in Hx.
    rewrite Hx. reflexivity.
Qed.



Lemma create_read_back (data : Data.t) (newId : string) date dbnow d d' job :
  JobRepository.create validate data newId date dbnow d
  = (d', JobRepository.Created job) ->
  JobRepository.findById (Val newId) d' = Some job
  /\ Job.id job = Val newId
  /\ job_executions d' = job_executions d.
Proof.
  unfold JobRepository.create. intros H.
  destruct (Job.isValid (Job.new data)); cbn [negb] in H; [|discriminate].
  destruct (to_col (Job.db_name (Job.toDatabase (Job.new data)))) as [nm|];
    [|discriminate].
  destruct (to_col (Job.db_cron_expression (Job.toDatabase (Job.new data))))
    as [cron|]; [|discriminate].
  destruct (JobRepository.nextRunOf validate _ date); [|discriminate].
  destruct (filter (fun r => JobRepository.has_id (Val newId) r = true)
              (jobs d)) as [|x l] eqn:Ef; [|discriminate].
  injection H as <- <-. cbn [jobs job_executions].
  split; [|split; reflexivity].
  unfold JobRepository.findById. cbn [jobs]. rewrite filter_app, Ef.
  rewrite filter_cons_True by (apply bool_decide_eq_true; reflexivity).
  reflexivity.
Qed.

(** [POST /jobs]: unless it answers 201 the handler changes neither the
    store, nor the timers, nor the cache. When it answers 201 with the
    created job: the job has the id the store drew and is in the store;
    a timer is armed for it exactly when it is active and its cron
    expression validates, the other timers being left alone; no cached
    list of jobs is left; and, unless the cache already held an entry
    under [job:<id>], a [GET /jobs/:id] that follows is answered with
    that very job. *)
Theorem createJob_then_getJobById (data : Data.t) (newId : string)
    (date dbnow : Z) a (now now' : Z) :
  let r := createJob validate data newId date dbnow a in
  match snd r with
  | ReplySuccess _ job =>
      Job.id job = Val newId
      /\ JobRepository.findById (Val newId) (db (world (fst r))) = Some job
      /\ activeTasks (sched (world (fst r)))
         = (if truthy_bool (Job.isActive job)
               && validate_js validate (Job.cronExpression job)
            then <[Val newId := mkTask (Job.cronExpression job) job]>
                   (activeTasks (sched (world a)))
            else activeTasks (sched (world a)))
      /\ (forall key, startsWith key "jobs:" = true ->
            CacheService.map_get key
              (CacheService.cache Cached (cache (fst r))) = None)
      /\ (CacheService.map_get ("job:" +:+ newId)
            (CacheService.cache Cached (cache a)) = None ->
          exists history isScheduled,
            snd (getJobById newId now now' (fst r))
            = JobFound job history isScheduled)
  | _ => fst r = a
  end.
Proof.
  cbn zeta. unfold createJob.
  destruct (JobRepository.create validate data newId date dbnow
              (db (world a))) as [d' [errors| |job]] eqn:Ec; try reflexivity.
  destruct (create_read_back _ _ _ _ _ _ _ Ec) as (Hf & Hid & Hx).
  cbn [fst snd world db sched cache].
  split; [exact Hid|]. split; [exact Hf|]. split; [|split].
  - destruct (truthy_bool (Job.isActive job)); cbn [andb]; [|reflexivity].
    rewrite scheduleJob_tasks, Hid. reflexivity.
  - intros key Hk. rewrite invalidateJobsCache_cache.
    rewrite (map_get_filter_pred (fun k => startsWith k "jobs:")), Hk.
    reflexivity.
  - intros Hc. rewrite getJobById_miss.
    + cbn [world db]. rewrite Hf. eauto.
    + cbn [cache]. rewrite invalidateJobsCache_cache.
      rewrite (map_get_filter_pred (fun k => startsWith k "jobs:")), Hc.
      destruct (startsWith _ _); reflexivity.
Qed.

End ControllerProperties.

(** ** GET /jobs/:id and the cache *)

Section ControllerCache.

Import SchedulerService Controller.

Implicit Types (a : App) (id : string).

Lemma getJobById_fill id now now' a j :
  CacheService.map_get ("job:" +:+ id) (CacheService.cache Cached (cache a))
  = None ->
  JobRepository.findById (Val id) (db (world a)) = Some j ->
  fst (getJobById id now now' a)
  = {| world := world a;
       cache :=
         CacheService.set Cached ("job:" +:+ id) (CachedJob j)
           (Some (10 * 60 * 1000)) now'
           (fst (CacheService.get Cached ("job:" +:+ id) now (cache a))) |}.
Proof.
  intros H Hf. unfold getJobById.
  pose proof (get_result ("job:" +:+ id) now (cache a)) as Hg.
  rewrite H in Hg.
  destruct (CacheService.get Cached ("job:" +:+ id) now (cache a))
    as [c1 hit].
  cbn [snd] in Hg. subst hit. rewrite Hf. reflexivity.
Qed.

Lemma getJobById_hit id t t' a e j :
  CacheService.map_get ("job:" +:+ id) (CacheService.cache Cached (cache a))
  = Some e ->
  CacheService.value Cached e = CachedJob j ->
  CacheService.expired Cached t e = false ->
  snd (getJobById id t t' a)
  = JobFound j (getJobExecutionHistory id 1 20 (db (world a)))
      (bool_decide (Val id ∈ getScheduledJobs (sched (world a)))).
Proof.
  intros H Hv Hx. unfold getJobById.
  pose proof (get_result ("job:" +:+ id) t (cache a)) as Hg.
  rewrite H, Hx, Hv in Hg.
  destruct (CacheService.get Cached ("job:" +:+ id) t (cache a))
    as [c1 hit].
  cbn [snd] in Hg. subst hit. reflexivity.
Qed.

(** A [GET /jobs/:id] of a stored job that is not in the cache (the
    cache being in a state of one of its runs) answers with the job as
    stored and caches it for ten minutes. Until then every
    [GET /jobs/:id] is answered with that cached job, whatever has
    become of the store in between (run counters and next run time
    written by the scheduler, rows changed or deleted by other paths);
    only the execution history and the scheduled flag of the answer are
    read anew. *)
Theorem getJobById_serves_cached id a (now0 now now' : Z) job :
  cache_run now0 (cache a) -> now0 <= now -> now <= now' ->
  CacheService.map_get ("job:" +:+ id) (CacheService.cache Cached (cache a))
  = None ->
  JobRepository.findById (Val id) (db (world a)) = Some job ->
  let r := getJobById id now now' a in
  snd r
  = JobFound job (getJobExecutionHistory id 1 20 (db (world a)))
      (bool_decide (Val id ∈ getScheduledJobs (sched (world a))))
  /\ CacheService.map_get ("job:" +:+ id)
       (CacheService.cache Cached (cache (fst r)))
     = Some (CacheService.mkEntry Cached (CachedJob job) now' now'
               (Some (now' + 600000)))
  /\ forall w' t t',
       t <= now' + 600000 ->
       snd (getJobById id t t' {| world := w'; cache := cache (fst r) |})
       = JobFound job (getJobExecutionHistory id 1 20 (db w'))
           (bool_decide (Val id ∈ getScheduledJobs (sched w'))).
Proof.
  intros Hrun H0 H1 Hc Hf. cbn zeta.
  assert (Hentry :
    CacheService.map_get ("job:" +:+ id)
      (CacheService.cache Cached (cache (fst (getJobById id now now' a))))
    = Some (CacheService.mkEntry Cached (CachedJob job) now' now'
              (Some (now' + 600000)))).
  { rewrite (getJobById_fill id now now' a job Hc Hf). cbn [cache].
    pose proof (cache_run_ok now0 (cache a) Hrun) as Hok.
    destruct (cache_get_ok ("job:" +:+ id) now0 now (cache a) Hok H0)
      as [Hlen Hclock].
    rewrite cache_set_get.
    - reflexivity.
    - exact Hlen.
    - intros k e He. pose proof (Hclock k e He). lia. }
  split; [|split; [exact Hentry|]].
  - rewrite getJobById_miss by exact Hc. rewrite Hf. reflexivity.
  - intros w' t t' Ht.
    apply (getJobById_hit id t t'
             {| world := w'; cache := cache (fst (getJobById id now now' a)) |}
             _ job Hentry); [reflexivity|].
    unfold CacheService.expired. cbn [CacheService.expiresAt].
    apply andb_false_iff. right. lia.
Qed.

End ControllerCache.

Lemma getJobById_serves_cached_witness :
  snd (Controller.getJobById "j1" 5000 5001
         {| Controller.world :=
              SchedulerService.mkWorld
                (SchedulerService.sched sample_world) (mkDatabase [] [] 0);
            Controller.cache :=
              Controller.cache
                (fst (Controller.getJobById "j1" 1000 1001
                        (Controller.mkApp sample_world
                           (CacheService.new Controller.Cached)))) |})
  = Controller.JobFound sample_job
      (Controller.getJobExecutionHistory "j1" 1 20 (mkDatabase [] [] 0))
      false.
Proof.
  destruct (getJobById_serves_cached "j1"
              (Controller.mkApp sample_world
                 (CacheService.new Controller.Cached))
              0 1000 1001 sample_job (run_new 0)
              ltac:(lia) ltac:(lia) eq_refl eq_refl) as (_ & _ & H).
  exact (H (SchedulerService.mkWorld (SchedulerService.sched sample_world)
              (mkDatabase [] [] 0)) 5000 5001 ltac:(lia)).
Defined.

(** ** The next run time the store gives a new job *)

(** [calculate_next_run] of schema.sql, for every expression but the
    monthly one: the result is strictly after the base instant and at
    most a week later; for [0 * * * *] it is the next full hour, for
    [0 0 * * *] the next midnight, for [0 0 * * 1] the next midnight
    that starts a Monday; for every other expression, whatever schedule
    it denotes, it is the base instant plus one hour. *)
Theorem calculate_next_run_bounds (cron : string) (t : Z) :
  cron <> "0 0 1 * *" ->
  let r := calculate_next_run cron t in
  t < r <= t + 7 * msPerDay
  /\ (cron = "0 * * * *" -> r mod msPerHour = 0 /\ r <= t + msPerHour)
  /\ (cron = "0 0 * * *" -> r mod msPerDay = 0 /\ r <= t + msPerDay)
  /\ (cron = "0 0 * * 1" -> r mod msPerDay = 0 /\ (Day r + 3) mod 7 = 0)
  /\ (cron <> "0 * * * *" -> cron <> "0 0 * * *" -> cron <> "0 0 * * 1" ->
      r = t + msPerHour).
Proof.
  intros Hm. cbn zeta. unfold calculate_next_run.
  destruct (String.eqb_spec cron "0 * * * *") as [->|H1].
  { unfold date_trunc_hour. split; [date_arith|].
    split; [intros _; date_arith|].
    split; [discriminate|]. split; [discriminate|]. congruence. }
  destruct (String.eqb_spec cron "0 0 * * *") as [->|H2].
  { unfold date_trunc_day. split; [date_arith|].
    split; [discriminate|]. split; [intros _; date_arith|].
    split; [discriminate|]. congruence. }
  destruct (String.eqb_spec cron "0 0 * * 1") as [->|H3].
  { unfold date_trunc_week. split; [date_arith|].
    split; [discriminate|]. split; [discriminate|].
    split; [intros _; date_arith|]. congruence. }
  destruct (String.eqb_spec cron "0 0 1 * *") as [->|H4]; [congruence|].
  split; [date_arith|]. repeat (split; [congruence|]). reflexivity.
Qed.

Lemma calculate_next_run_bounds_witness :
  4 * msPerDay < calculate_next_run "0 0 * * 1" (4 * msPerDay + 5)
  <= 11 * msPerDay + 5.
Proof.
  destruct (calculate_next_run_bounds "0 0 * * 1" (4 * msPerDay + 5)
              ltac:(discriminate)) as [H _].
  unfold msPerDay in *. lia.
Defined.

(** Whenever [create] succeeds, the job it returns carries the
    timestamps of the store, not those of the request: [createdAt] and
    [updatedAt] are the clock of the store, there is no [lastRunAt], and
    [nextRunAt] is what the insert trigger computes from the stored cron
    expression, so that for every expression other than the four the
    trigger knows it is one hour after the insertion, whatever
    [calculateNextRunTime] had computed for the statement. *)
Theorem create_next_run_from_trigger validate (data : Data.t)
    (newId : string) (date dbnow : Z) (d d' : Database) (job : Job.t) :
  JobRepository.create validate data newId date dbnow d
  = (d', JobRepository.Created job) ->
  exists cron,
    Job.cronExpression (Job.new data) = Val cron
    /\ Job.nextRunAt job = Val (calculate_next_run cron dbnow)
    /\ Job.createdAt job = Val dbnow
    /\ Job.updatedAt job = Val dbnow
    /\ Job.lastRunAt job = Undefined
    /\ (cron <> "0 * * * *" -> cron <> "0 0 * * *" -> cron <> "0 0 * * 1" ->
        cron <> "0 0 1 * *" ->
        Job.nextRunAt job = Val (dbnow + 3600000)).
Proof.
  unfold JobRepository.create. intros H.
  destruct (Job.isValid (Job.new data)); cbn [negb] in H; [|discriminate].
  cbn [Job.toDatabase Job.db_name Job.db_cron_expression] in H.
  destruct (to_col (Job.name (Job.new data))) as [nm|]; [|discriminate].
  destruct (to_col (Job.cronExpression (Job.new data))) as [cron|] eqn:Ec;
    [|discriminate].
  destruct (JobRepository.nextRunOf validate _ date); [|discriminate].
  destruct (filter (fun r => JobRepository.has_id (Val newId) r = true)
              (jobs d)) as [|x l]; [|discriminate].
  injection H as _ <-. apply to_col_Some in Ec.
  exists cron. split; [exact Ec|]. split; [reflexivity|].
  split; [reflexivity|]. split; [reflexivity|]. split; [reflexivity|].
  intros H1 H2 H3 H4.
  change (Val (calculate_next_run cron dbnow) = Val (dbnow + 3600000)).
  unfold calculate_next_run.
  apply String.eqb_neq in H1, H2, H3, H4. rewrite H1, H2, H3, H4.
  reflexivity.
Qed.

Lemma create_next_run_from_trigger_witness :
  Job.nextRunAt (Job.new (Data.of_row sample_created_row)) = Val 3609001.
Proof.
  destruct (create_next_run_from_trigger cronPattern sample_body "j2" 9000
              9001 sample_db _ _ create_sample) as (cron & Hc & _ & _ & _ & _ & H).
  injection Hc as <-. apply H; discriminate.
Defined.

(** ** The execution history of a job *)

Lemma StronglySorted_app_parts {A} (R : A -> A -> Prop) (l1 l2 : list A) :
  StronglySorted R (l1 ++ l2) -> StronglySorted R l1 /\ StronglySorted R l2.
Proof.
  induction l1 as [|x l1 IH]; cbn [app]; intros H.
  - split; [constructor|exact H].
  - apply StronglySorted_inv in H as [H Hx]. destruct (IH H) as [I1 I2].
    split; [|exact I2]. constructor; [exact I1|].
    rewrite Forall_forall in Hx |- *. intros y Hy. apply Hx, elem_of_app.
    auto.
Qed.

Lemma StronglySorted_weaken {A} (R R' : A -> A -> Prop) (l : list A) :
  (forall a b, R a b -> R' a b) -> StronglySorted R l -> StronglySorted R' l.
Proof.
  intros Himp. induction 1 as [|x l Hs IH Hx]; constructor; [exact IH|].
  rewrite Forall_forall in Hx. rewrite Forall_forall. auto.
Qed.

Lemma StronglySorted_map {A B} (f : A -> B) (R : B -> B -> Prop) (l : list A) :
  StronglySorted (fun a b => R (f a) (f b)) l -> StronglySorted R (map f l).
Proof.
  induction 1 as [|x l Hs IH Hx]; cbn [map]; constructor; [exact IH|].
  rewrite Forall_forall in Hx. rewrite Forall_forall. intros y Hy.
  apply list_elem_of_In, in_map_iff in Hy as (z & <- & Hz).
  apply Hx, list_elem_of_In, Hz.
Qed.

(** A page of the execution history of a job, for a page number and a
    page size of at least 1: it lists executions of that job only, each
    with its own id, status and times, newest first, and no more than
    the page size; its total is the number of executions of the job and
    its number of pages is the least number of pages that holds them; a
    page that lies before the end is full, and a page beyond the end is
    empty. *)
Theorem getJobExecutionHistory_page (jobId : string) (page limit : Z)
    (d : Database) :
  1 <= page -> 1 <= limit ->
  let h := Controller.getJobExecutionHistory jobId page limit d in
  let mine := filter (fun e => ExecRow.job_id e = jobId) (job_executions d) in
  (length (Controller.h_executions h) <= Z.to_nat limit)%nat
  /\ StronglySorted
       (fun a b => Controller.ev_startedAt b <= Controller.ev_startedAt a)
       (Controller.h_executions h)
  /\ (forall v, v ∈ Controller.h_executions h ->
        exists e, e ∈ job_executions d /\ ExecRow.job_id e = jobId
                  /\ Controller.ev_id v = ExecRow.id e
                  /\ Controller.ev_status v = ExecRow.status e
                  /\ Controller.ev_startedAt v = ExecRow.started_at e
                  /\ Controller.ev_completedAt v = ExecRow.completed_at e
                  /\ Controller.ev_durationMs v = ExecRow.duration_ms e
                  /\ Controller.ev_errorMessage v = ExecRow.error_message e)
  /\ Controller.h_total h = Z.of_nat (length mine)
  /\ (Controller.h_totalPages h - 1) * limit < Controller.h_total h
     <= Controller.h_totalPages h * limit
  /\ (page * limit <= Controller.h_total h ->
      length (Controller.h_executions h) = Z.to_nat limit)
  /\ (Controller.h_total h <= (page - 1) * limit ->
      Controller.h_executions h = []).
Proof.
  intros Hp Hl. cbn zeta. unfold Controller.getJobExecutionHistory.
  cbn [Controller.h_executions Controller.h_total Controller.h_totalPages].
  set (mine := filter (fun e => ExecRow.job_id e = jobId) (job_executions d)).
  set (le := fun a b : ExecRow.t =>
               ExecRow.started_at b <=? ExecRow.started_at a).
  set (sorted := order_by le mine).
  assert (Hlen : length sorted = length mine) by apply order_by_length.
  set (rows := take (Z.to_nat limit)
                 (drop (Z.to_nat ((page - 1) * limit)) sorted)).
  assert (Hrows : length rows
                  = Nat.min (Z.to_nat limit)
                      (length mine - Z.to_nat ((page - 1) * limit))).
  { subst rows. rewrite length_take, length_drop, Hlen. reflexivity. }
  split; [rewrite length_map; lia|]. split.
  { apply StronglySorted_map. subst rows.
    assert (Hs : StronglySorted (fun a b => le a b = true) sorted).
    { apply order_by_sorted.
      - intros a b H. apply Z.leb_le. apply Z.leb_gt in H. lia.
      - intros a b c. unfold le. rewrite !Z.leb_le. lia. }
    rewrite <- (take_drop (Z.to_nat ((page - 1) * limit)) sorted) in Hs.
    apply StronglySorted_app_parts in Hs as [_ Hs].
    rewrite <- (take_drop (Z.to_nat limit)
                  (drop (Z.to_nat ((page - 1) * limit)) sorted)) in Hs.
    apply StronglySorted_app_parts in Hs as [Hs _].
    eapply StronglySorted_weaken; [|exact Hs].
    intros a b H. cbn [Controller.ev_startedAt]. apply Z.leb_le. exact H. }
  split.
  { intros v Hv. apply list_elem_of_In, in_map_iff in Hv as (e & <- & He).
    apply list_elem_of_In in He. subst rows.
    apply subseteq_take, subseteq_drop, order_by_elem in He.
    subst mine. apply list_elem_of_filter in He as [H1 H2].
    exists e. cbn. auto 10. }
  split; [reflexivity|]. split.
  { unfold ceil_div. Z.div_mod_to_equations. nia. }
  split.
  - intros H. rewrite length_map, Hrows. nia.
  - intros H. assert (Hr : rows = []); [|rewrite Hr; reflexivity].
    apply nil_length_inv. rewrite Hrows. nia.
Qed.

Lemma getJobExecutionHistory_page_witness :
  Controller.h_total
    (Controller.getJobExecutionHistory "j1" 1 20
       (SchedulerService.db
          (fst (SchedulerService.executeJob cronPattern sample_env_fast
                  sample_job sample_world))))
  = 1.
Proof.
  destruct (getJobExecutionHistory_page "j1" 1 20
              (SchedulerService.db
                 (fst (SchedulerService.executeJob cronPattern sample_env_fast
                         sample_job sample_world)))
              ltac:(lia) ltac:(lia)) as (_ & _ & _ & H & _).
  rewrite H. reflexivity.
Defined.
